(** * On-call scheduler: the constraint model, the decoder and the
      two-phase driver of [backend/scheduler.py], with the request gate of
      [backend/main.py].

    The CP-SAT engine and Python's [datetime] are outside the repository.
    The engine is a function from the posted model and the seed to a status
    and a valuation of the model's variables; the model itself is kept as
    data (variables with their domains, linear constraints with their
    enforcement literals), so that what the builder posts can be inspected
    and evaluated.  A date is its proleptic Gregorian ordinal, as
    [datetime.date.toordinal] gives it. *)

From Stdlib Require Import ZArith Lia Bool.
From stdpp Require Import base tactics option list gmap gmultiset strings pretty.

Local Open Scope string_scope.
Local Open Scope Z_scope.
Local Open Scope list_scope.

(** ** Calendar dates *)

Module Calendar.

(** [datetime.date], by ordinal: day 1 is 0001-01-01. *)
Definition date := Z.

Definition MINORDINAL : Z := 1.
(** [date.max.toordinal()], 9999-12-31. *)
Definition MAXORDINAL : Z := 3652059.

(** [date.weekday()]: Monday is 0 and Sunday is 6. *)
Definition weekday (d : date) : Z := (d + 6) mod 7.

(** [date + timedelta(days=k)]; Python raises OverflowError when the
    result leaves [date.min, date.max]. *)
Definition add_days (d : date) (k : Z) : option date :=
  if (MINORDINAL <=? d + k) && (d + k <=? MAXORDINAL) then Some (d + k) else None.

Definition DI400Y : Z := 146097.
Definition DI100Y : Z := 36524.
Definition DI4Y : Z := 1461.

(** [_DAYS_BEFORE_MONTH] and [_DAYS_IN_MONTH] of [datetime]. *)
Definition DAYS_BEFORE_MONTH (m : Z) : Z :=
  nth (Z.to_nat m) [-1; 0; 31; 59; 90; 120; 151; 181; 212; 243; 273; 304; 334]%Z 0.
Definition DAYS_IN_MONTH (m : Z) : Z :=
  nth (Z.to_nat m) [-1; 31; 28; 31; 30; 31; 30; 31; 31; 30; 31; 30; 31]%Z 0.

Definition b2z (b : bool) : Z := if b then 1 else 0.

(** [datetime._ord2ymd]: ordinal to (year, month, day). *)
Definition ord2ymd (n0 : Z) : Z * Z * Z :=
  let n := n0 - 1 in
  let n400 := n / DI400Y in
  let n := n mod DI400Y in
  let year := n400 * 400 + 1 in
  let n100 := n / DI100Y in
  let n := n mod DI100Y in
  let n4 := n / DI4Y in
  let n := n mod DI4Y in
  let n1 := n / 365 in
  let n := n mod 365 in
  let year := year + n100 * 100 + n4 * 4 + n1 in
  if (n1 =? 4) || (n100 =? 4) then (year - 1, 12, 31)
  else
    let leapyear := (n1 =? 3) && (negb (n4 =? 24) || (n100 =? 3)) in
    let month := Z.shiftr (n + 50) 5 in
    let preceding := DAYS_BEFORE_MONTH month + b2z ((2 <? month) && leapyear) in
    if n <? preceding then
      let month := month - 1 in
      let preceding := preceding - (DAYS_IN_MONTH month + b2z ((month =? 2) && leapyear)) in
      (year, month, n - preceding + 1)
    else (year, month, n - preceding + 1).

Definition digit (k : Z) : string :=
  String (Ascii.ascii_of_nat (48 + Z.to_nat (k mod 10))) EmptyString.

Definition pad2 (k : Z) : string := digit (k / 10) +:+ digit k.
Definition pad4 (k : Z) : string := pad2 (k / 100) +:+ pad2 k.

(** [%Y]: the year in decimal.  The C library does not pad it, so the
    years below 1000 are written on fewer than four digits. *)
Definition year_digits (y : Z) : string :=
  if y <? 10 then digit y
  else if y <? 100 then pad2 y
  else if y <? 1000 then digit (y / 100) +:+ pad2 y
  else pad4 y.

(** [d.strftime("%Y-%m-%d")]. *)
Definition strftime (d : date) : string :=
  let '(y, m, dd) := ord2ymd d in
  year_digits y +:+ "-" +:+ pad2 m +:+ "-" +:+ pad2 dd.

End Calendar.

(** ** The CP-SAT model, as data *)

Module CpSat.

(** The variables the builder creates: [shifts[(s, d)]], the per-day
    indicator [pair_d], and the four balance bounds. *)
Inductive Var : Type :=
| Shift (s d : nat)
| IsPair (d : nat)
| MinWeekend
| MaxWeekend
| MinFriday
| MaxFriday.

#[global] Instance Var_eq_dec : EqDecision Var.
Proof. solve_decision. Defined.

(** Linear expressions, built by Python's [+], [-] and [sum]. *)
Inductive LinearExpr : Type :=
| Const (c : Z)
| V (v : Var)
| Add (a b : LinearExpr)
| Sub (a b : LinearExpr).

(** Python's [sum(xs)]: start from 0 and add the items from the left. *)
Definition py_sum (xs : list LinearExpr) : LinearExpr := foldl Add (Const 0) xs.

Inductive Rel : Type := GE | LE | EQ.

(** [lhs >= rhs], [lhs <= rhs], [lhs == rhs]. *)
Record BoundedLinearExpression : Type := Bounded {
  lhs : LinearExpr;
  rel : Rel;
  rhs : LinearExpr
}.

(** A boolean variable or its [.Not()]. *)
Inductive Literal : Type :=
| Lit (v : Var)
| NotLit (v : Var).

(** [model.Add(e)] and [model.Add(e).OnlyEnforceIf(l)]. *)
Record Constraint : Type := Ct {
  expr : BoundedLinearExpression;
  enforcement : list Literal
}.

(** [NewBoolVar] declares the domain [0, 1]; [NewIntVar(lb, ub, _)] the
    domain [lb, ub]. *)
Record VarDecl : Type := Decl {
  var : Var;
  lb : Z;
  ub : Z
}.

Record CpModel : Type := Model {
  variables : list VarDecl;
  constraints : list Constraint
}.

Definition NewBoolVar (v : Var) : VarDecl := Decl v 0 1.
Definition NewIntVar (lo hi : Z) (v : Var) : VarDecl := Decl v lo hi.

Definition AddC (e : BoundedLinearExpression) : Constraint := Ct e [].
Definition OnlyEnforceIf (c : Constraint) (l : Literal) : Constraint :=
  Ct (expr c) (enforcement c ++ [l]).

(** Posting is appending: a fragment of a model, and fragments in the
    order the builder posts them. *)
Definition nothing : CpModel := Model [] [].
Definition post (a b : CpModel) : CpModel :=
  Model (variables a ++ variables b) (constraints a ++ constraints b).
Definition post_all (ms : list CpModel) : CpModel := foldr post nothing ms.
Definition declare (ds : list VarDecl) : CpModel := Model ds [].
Definition add_all (cs : list Constraint) : CpModel := Model [] cs.

(** *** What a valuation satisfies *)

Definition Valuation : Type := Var -> Z.

(** The valuation that gives [v] the value [z] and agrees with [val]
    elsewhere. *)
Definition assign (v : Var) (z : Z) (val : Valuation) : Valuation :=
  fun w => if decide (w = v) then z else val w.

Fixpoint eval (val : Valuation) (e : LinearExpr) : Z :=
  match e with
  | Const c => c
  | V v => val v
  | Add a b => eval val a + eval val b
  | Sub a b => eval val a - eval val b
  end.

Definition rel_holds (r : Rel) (a b : Z) : bool :=
  match r with
  | GE => b <=? a
  | LE => a <=? b
  | EQ => a =? b
  end.

Definition bounded_holds (val : Valuation) (e : BoundedLinearExpression) : bool :=
  rel_holds (rel e) (eval val (lhs e)) (eval val (rhs e)).

Definition lit_true (val : Valuation) (l : Literal) : bool :=
  match l with
  | Lit v => val v =? 1
  | NotLit v => val v =? 0
  end.

(** A constraint binds only when all its enforcement literals are true. *)
Definition constraint_holds (val : Valuation) (c : Constraint) : bool :=
  implb (forallb (lit_true val) (enforcement c)) (bounded_holds val (expr c)).

Definition in_domain (val : Valuation) (d : VarDecl) : bool :=
  (lb d <=? val (var d)) && (val (var d) <=? ub d).

Definition satisfies (val : Valuation) (m : CpModel) : bool :=
  forallb (in_domain val) (variables m) && forallb (constraint_holds val) (constraints m).

(** [solver.Solve(model)] statuses. *)
Inductive Status : Type := UNKNOWN | MODEL_INVALID | FEASIBLE | INFEASIBLE | OPTIMAL.

(** The engine: the model and the seed give a status and the values
    [solver.Value] reads. *)
Definition Solver : Type := CpModel -> Z -> Status * Valuation.

End CpSat.

(** ** The scheduler of [backend/scheduler.py] *)

Module Scheduler.
Import Calendar CpSat.

(** [StaffMember], after its constructor has parsed [unavailable_days]
    into dates.  The role is the string the caller passed. *)
Record StaffMember : Type := mkStaff {
  name : string;
  role : string;
  target_shifts : Z;
  unavailable_days : list date
}.

Definition set_target_shifts (t : Z) (s : StaffMember) : StaffMember :=
  mkStaff (name s) (role s) t (unavailable_days s).

Inductive PyError : Type := ValueError | OverflowError.

Record OnCallScheduler : Type := mkScheduler {
  staff_members : list StaffMember;
  start_date : date;
  num_days : Z;
  end_date : date;
  dates : list date;
  date_to_index : gmap date nat;
  junior_indices : list nat;
  intermediate_indices : list nat;
  senior_indices : list nat;
  weekend_day_indices : list nat;
  friday_day_indices : list nat
}.

Definition set_staff_members (l : list StaffMember) (sch : OnCallScheduler) : OnCallScheduler :=
  mkScheduler l (start_date sch) (num_days sch) (end_date sch) (dates sch)
    (date_to_index sch) (junior_indices sch) (intermediate_indices sch)
    (senior_indices sch) (weekend_day_indices sch) (friday_day_indices sch).

(** [range(n)]: empty when [n <= 0]. *)
Definition range (n : Z) : list nat := seq 0 (Z.to_nat n).

(** [enumerate(l)]. *)
Definition enumerate {A : Type} (l : list A) : list (nat * A) := imap pair l.

(** A dict filled by the assignments [m[k] = v] in the order of [kvs]: a
    later assignment to the same key replaces the earlier one. *)
Definition assign_all {V : Type} (kvs : list (string * V)) : gmap string V :=
  foldl (fun m kv => <[kv.1 := kv.2]> m) ∅ kvs.

(** [[i for i, s in enumerate(staff_members) if s.role == r]]. *)
Definition indices_with_role (r : string) (staff : list StaffMember) : list nat :=
  (filter (fun p => role p.2 = r) (enumerate staff)).*1.

(** [[idx for idx, date in enumerate(dates) if p(date.weekday())]], the
    two lists the constructor's last loop fills. *)
Definition indices_with_weekday (p : Z -> bool) (ds : list date) : list nat :=
  (filter (fun q => p (weekday q.2) = true) (enumerate ds)).*1.

Definition is_weekend (w : Z) : bool := (w =? 5) || (w =? 6).
Definition is_friday (w : Z) : bool := negb (is_weekend w) && (w =? 4).

(** [OnCallScheduler.__init__].  [strptime] is
    [datetime.strptime(_, "%Y-%m-%d").date()]; a string it rejects raises
    ValueError, a date past [date.max] raises OverflowError.  There is no
    check on [num_days]. *)
Definition OnCallScheduler_init (strptime : string -> option date)
    (staff_members : list StaffMember) (start_date : string) (num_days : Z)
  : PyError + OnCallScheduler :=
  match strptime start_date with
  | None => inl ValueError
  | Some start =>
    match add_days start (num_days - 1) with
    | None => inl OverflowError
    | Some end_date =>
      match mapM (fun i => add_days start (Z.of_nat i)) (range num_days) with
      | None => inl OverflowError
      | Some dates =>
        inr (mkScheduler staff_members start num_days end_date dates
               (foldl (fun m p => <[p.2 := p.1]> m) ∅ (enumerate dates))
               (indices_with_role "Junior" staff_members)
               (indices_with_role "Intermediate" staff_members)
               (indices_with_role "Senior" staff_members)
               (indices_with_weekday is_weekend dates)
               (indices_with_weekday is_friday dates))
      end
    end
  end.

(** *** The model [generate_schedule] posts *)

Definition num_staff (sch : OnCallScheduler) : Z := Z.of_nat (length (staff_members sch)).

(** [shifts[(s, d)]] as an expression. *)
Definition x (s d : nat) : LinearExpr := V (Shift s d).

(** [sum(shifts[(i, d)] for i in idxs)]. *)
Definition working_on (idxs : list nat) (d : nat) : LinearExpr :=
  py_sum ((fun i => x i d) <$> idxs).

(** [sum(shifts[(s, d)] for d in ds)]. *)
Definition shifts_over (s : nat) (ds : list nat) : LinearExpr :=
  py_sum ((fun d => x s d) <$> ds).

Notation "a '>==' b" := (AddC (Bounded a GE b)) (at level 70, no associativity).
Notation "a '<==' b" := (AddC (Bounded a LE b)) (at level 70, no associativity).
Notation "a '===' b" := (AddC (Bounded a EQ b)) (at level 70, no associativity).

(** The decision variables, staff by staff and day by day. *)
Definition shift_variables (sch : OnCallScheduler) : CpModel :=
  declare (s ← range (num_staff sch); d ← range (num_days sch); [NewBoolVar (Shift s d)]).

(** Hard constraint 1, the body of the loop for day [d]. *)
Definition coverage_day (sch : OnCallScheduler) (d : nat) : CpModel :=
  let intermediate_working := working_on (intermediate_indices sch) d in
  let senior_working := working_on (senior_indices sch) d in
  let junior_working := working_on (junior_indices sch) d in
  let total_working := working_on (range (num_staff sch)) d in
  let is_pair := IsPair d in
  post_all [
    add_all [ total_working >== Const 1;
              total_working <== Const 2 ];
    declare [ NewBoolVar is_pair ];
    add_all [ OnlyEnforceIf (total_working === Const 2) (Lit is_pair);
              OnlyEnforceIf (senior_working === Const 1) (Lit is_pair);
              OnlyEnforceIf (junior_working === Const 1) (Lit is_pair);
              OnlyEnforceIf (intermediate_working === Const 0) (Lit is_pair);
              OnlyEnforceIf (total_working === Const 1) (NotLit is_pair);
              OnlyEnforceIf (Add intermediate_working senior_working === Const 1) (NotLit is_pair);
              OnlyEnforceIf (junior_working === Const 0) (NotLit is_pair) ]
  ].

Definition coverage (sch : OnCallScheduler) : CpModel :=
  post_all (coverage_day sch <$> range (num_days sch)).

(** Hard constraint 2: no back-to-back shifts. *)
Definition back_to_back (sch : OnCallScheduler) : CpModel :=
  add_all (s ← range (num_staff sch); d ← range (num_days sch - 1);
           [ Add (x s d) (x s (d + 1)) <== Const 1 ]).

(** Hard constraint 3: unavailable days that fall in the block. *)
Definition unavailability (sch : OnCallScheduler) : CpModel :=
  add_all (p ← enumerate (staff_members sch);
           unavailable_date ← unavailable_days p.2;
           match date_to_index sch !! unavailable_date with
           | Some day_idx => [ x p.1 day_idx === Const 0 ]
           | None => []
           end).

(** Hard constraint 4, the constraint for junior [j_idx] and day [d]. *)
Definition junior_not_alone (sch : OnCallScheduler) (j_idx d : nat) : Constraint :=
  let junior_working := x j_idx d in
  let senior_working_any := working_on (senior_indices sch) d in
  senior_working_any >== junior_working.

Definition juniors_not_alone (sch : OnCallScheduler) : CpModel :=
  add_all (j_idx ← junior_indices sch; d ← range (num_days sch);
           [ junior_not_alone sch j_idx d ]).

(** The target band, target +/- 1. *)
Definition target_band (sch : OnCallScheduler) : CpModel :=
  add_all (p ← enumerate (staff_members sch);
           let total_shifts := shifts_over p.1 (range (num_days sch)) in
           let min_shifts := Z.max 0 (target_shifts p.2 - 1) in
           let max_shifts := target_shifts p.2 + 1 in
           [ total_shifts >== Const min_shifts;
             total_shifts <== Const max_shifts ]).

(** The balance of the counts over the day indices [ds], with its two
    bound variables: weekend days, then Fridays. *)
Definition balance (sch : OnCallScheduler) (ds : list nat) (vmin vmax : Var) : CpModel :=
  if (0 <? Z.of_nat (length ds)) && (1 <? num_staff sch) then
    post_all [
      declare [ NewIntVar 0 (Z.of_nat (length ds)) vmin;
                NewIntVar 0 (Z.of_nat (length ds)) vmax ];
      add_all (s ← range (num_staff sch);
               [ V vmin <== shifts_over s ds;
                 V vmax >== shifts_over s ds ]);
      add_all [ Sub (V vmax) (V vmin) <== Const 1 ]
    ]
  else nothing.

Definition weekend_balance (sch : OnCallScheduler) : CpModel :=
  balance sch (weekend_day_indices sch) MinWeekend MaxWeekend.

Definition friday_balance (sch : OnCallScheduler) : CpModel :=
  balance sch (friday_day_indices sch) MinFriday MaxFriday.

(** Everything [generate_schedule] posts before it calls the solver. *)
Definition build_model (sch : OnCallScheduler) : CpModel :=
  post_all [ shift_variables sch;
             coverage sch;
             back_to_back sch;
             unavailability sch;
             juniors_not_alone sch;
             target_band sch;
             weekend_balance sch;
             friday_balance sch ].

(** *** Decoding a valuation *)

(** The values a schedule entry takes: a Python string (a solo name, the
    joined names of the fallback, or "Unassigned") or the pair record. *)
Inductive ScheduleEntry : Type :=
| EStr (s : string)
| EPair (senior junior display : string).

(** One per-staff entry of [staff_assignments]. *)
Record Tally : Type := mkTally {
  t_role : string;
  target : Z;
  actual : Z;
  weekend_shifts : Z;
  friday_shifts : Z;
  days : list string
}.

Record SuccessBody : Type := mkSuccess {
  r_start_date : string;
  r_end_date : string;
  schedule : gmap string ScheduleEntry;
  staff_assignments : gmap string Tally
}.

(** The returned dict: ["status": "success"] with its four fields, or
    ["status": "no_solution"] with its message. *)
Inductive Result : Type :=
| Success (body : SuccessBody)
| NoSolution (message : string).

Definition is_success (r : Result) : bool :=
  match r with Success _ => true | NoSolution _ => false end.

(** Python's [sum] of integers. *)
Definition sumZ (l : list Z) : Z := foldl Z.add 0 l.

(** [self.dates[d]]; the index is always below [len(self.dates)] where
    the source uses it. *)
Definition date_at (sch : OnCallScheduler) (d : nat) : date := dates sch !!! d.

(** [working_staff] for day [d]: the names and roles of the staff whose
    variable has value 1, in roster order. *)
Definition working_staff (sch : OnCallScheduler) (val : Valuation) (d : nat)
  : list (string * string) :=
  p ← enumerate (staff_members sch);
  if decide (val (Shift p.1 d) = 1) then [ (name p.2, role p.2) ] else [].

(** [next((s for s in working_staff if s["role"] == r), None)]. *)
Definition first_with_role (r : string) (ws : list (string * string)) : option (string * string) :=
  head (filter (fun w => w.2 = r) ws).

(** [sep.join(l)]. *)
Fixpoint join (sep : string) (l : list string) : string :=
  match l with
  | [] => ""
  | [a] => a
  | a :: rest => a +:+ sep +:+ join sep rest
  end.

(** The entry written for a day from its [working_staff]. *)
Definition format_entry (ws : list (string * string)) : ScheduleEntry :=
  match ws with
  | [w] => EStr w.1
  | [_; _] =>
    match first_with_role "Senior" ws, first_with_role "Junior" ws with
    | Some senior, Some junior =>
      EPair senior.1 junior.1 (senior.1 +:+ " (Sr) + " +:+ junior.1 +:+ " (Jr)")
    | _, _ => EStr (join " + " (ws.*1))
    end
  | _ => EStr "Unassigned"
  end.

Definition build_schedule (sch : OnCallScheduler) (val : Valuation) : gmap string ScheduleEntry :=
  assign_all ((fun d => (strftime (date_at sch d), format_entry (working_staff sch val d)))
                <$> range (num_days sch)).

(** [sum(solver.Value(shifts[(s, d)]) for d in ds)]. *)
Definition count_shifts (val : Valuation) (s : nat) (ds : list nat) : Z :=
  sumZ ((fun d => val (Shift s d)) <$> ds).

Definition tally_of (sch : OnCallScheduler) (val : Valuation) (s : nat) (staff : StaffMember) : Tally :=
  mkTally (role staff) (target_shifts staff)
    (count_shifts val s (range (num_days sch)))
    (count_shifts val s (weekend_day_indices sch))
    (count_shifts val s (friday_day_indices sch))
    ((fun d => strftime (date_at sch d))
       <$> filter (fun d => val (Shift s d) = 1) (range (num_days sch))).

Definition build_staff_assignments (sch : OnCallScheduler) (val : Valuation) : gmap string Tally :=
  assign_all ((fun p => (name p.2, tally_of sch val p.1 p.2)) <$> enumerate (staff_members sch)).

(** The branch of [generate_schedule] taken on OPTIMAL or FEASIBLE. *)
Definition decode (sch : OnCallScheduler) (val : Valuation) : Result :=
  let schedule := build_schedule sch val in
  if decide (Z.of_nat (size schedule) ≠ num_days sch) then
    NoSolution ("Schedule generation error: Expected " +:+ pretty (num_days sch)
                +:+ " days, got " +:+ pretty (Z.of_nat (size schedule)))
  else
    Success (mkSuccess (strftime (start_date sch)) (strftime (end_date sch))
               schedule (build_staff_assignments sch val)).

(** The seed handed to the solver; [now_ms] is [int(time.time() * 1000)]
    read at the call. *)
Definition solver_seed (random_seed : option Z) (now_ms : Z) : Z :=
  match random_seed with
  | Some seed => seed
  | None => now_ms mod (2 ^ 31 - 1)
  end.

Definition is_solution (st : Status) : bool :=
  match st with OPTIMAL | FEASIBLE => true | _ => false end.

(** [OnCallScheduler.generate_schedule], for a seed that fits 32 bits and
    targets whose band fits 64 bits; beyond those the engine's Python
    layer raises before the solver runs. *)
Definition generate_schedule (solver : Solver) (sch : OnCallScheduler)
    (random_seed : option Z) (now_ms : Z) : Result :=
  let model := build_model sch in
  let '(status, val) := solver model (solver_seed random_seed now_ms) in
  if is_solution status then decode sch val
  else NoSolution "Could not find a valid schedule that satisfies all constraints".

(** The staff list after the loop [staff.target_shifts = max(1, staff.target_shifts)]. *)
Definition relax_targets (staff : list StaffMember) : list StaffMember :=
  (fun s => set_target_shifts (Z.max 1 (target_shifts s)) s) <$> staff.

(** The staff list after the loop that writes [original_targets] back. *)
Definition restore_targets (staff : list StaffMember) (original_targets : list Z)
  : list StaffMember :=
  zip_with (fun s original => set_target_shifts original s) staff original_targets.

(** [OnCallScheduler.generate_schedule_with_relaxation].  The staff
    objects are shared with the scheduler and mutated in place, so the
    scheduler is threaded through: the result comes with the scheduler as
    the call leaves it. *)
Definition generate_schedule_with_relaxation (solver : Solver) (sch : OnCallScheduler)
    (random_seed : option Z) (now_ms1 now_ms2 : Z) : Result * OnCallScheduler :=
  let result := generate_schedule solver sch random_seed now_ms1 in
  if is_success result then (result, sch)
  else
    let original_targets := target_shifts <$> staff_members sch in
    let sch1 := set_staff_members (relax_targets (staff_members sch)) sch in
    let result := generate_schedule solver sch1 random_seed now_ms2 in
    let sch2 := set_staff_members (restore_targets (staff_members sch1) original_targets) sch1 in
    (result, sch2).

(** The model of the second attempt: the one [generate_schedule] builds
    from the staff as the relaxation loop left them. *)
Definition relaxed_attempt_model (sch : OnCallScheduler) : CpModel :=
  build_model (set_staff_members (relax_targets (staff_members sch)) sch).

End Scheduler.

(** ** The request gate of [backend/main.py] *)

Module Api.

(** [StaffInput]: [target_shifts] is declared [Field(..., ge=1)]. *)
Record StaffInput : Type := mkStaffInput {
  si_name : string;
  si_role : string;
  si_target_shifts : Z;
  si_unavailable_days : list string
}.

(** [ScheduleRequest]: [num_days] is declared [Field(default=28, ge=7, le=90)]. *)
Record ScheduleRequest : Type := mkRequest {
  staff : list StaffInput;
  req_start_date : string;
  req_num_days : Z;
  req_random_seed : option Z
}.

Inductive ValidationError : Type :=
| TargetShiftsOutOfRange
| NumDaysOutOfRange.

(** The bounds the two models declare.  They are checked when the
    request body is parsed, before the handler runs and constructs the
    scheduler, and every violated bound is reported. *)
Definition ScheduleRequest_errors (r : ScheduleRequest) : list ValidationError :=
  (if forallb (fun s => 1 <=? si_target_shifts s) (staff r) then [] else [TargetShiftsOutOfRange])
  ++ (if (7 <=? req_num_days r) && (req_num_days r <=? 90) then [] else [NumDaysOutOfRange]).

Definition ScheduleRequest_validate (r : ScheduleRequest)
  : list ValidationError + ScheduleRequest :=
  match ScheduleRequest_errors r with
  | [] => inr r
  | errors => inl errors
  end.

End Api.

(** ** What the specification's sentences say, as definitions *)

Module Spec.
Import Calendar CpSat Scheduler.

(** The relaxed phase in the specification's words: for every staff
    member, the sum of the member's variables is at least 1. *)
Definition at_least_one_shift (sch : OnCallScheduler) : CpModel :=
  add_all ((fun s => shifts_over s (range (num_days sch)) >== Const 1)
             <$> range (num_staff sch)).

(** The specification's relaxed model: the target band dropped, the
    constraint above in its place, everything else as posted. *)
Definition relaxed_model (sch : OnCallScheduler) : CpModel :=
  post_all [ shift_variables sch;
             coverage sch;
             back_to_back sch;
             unavailability sch;
             juniors_not_alone sch;
             at_least_one_shift sch;
             weekend_balance sch;
             friday_balance sch ].

(** Everything the builder posts about day [d]: the body of the coverage
    loop and the juniors' constraints for that day. *)
Definition day_model (sch : OnCallScheduler) (d : nat) : CpModel :=
  post (coverage_day sch d)
       (add_all ((fun j_idx => junior_not_alone sch j_idx d) <$> junior_indices sch)).

(** The staff on call on day [d], by roster index. *)
Definition working_set (sch : OnCallScheduler) (val : Valuation) (d : nat) : list nat :=
  filter (fun s => val (Shift s d) = 1) (seq 0 (length (staff_members sch))).

Definition has_role (sch : OnCallScheduler) (s : nat) (r : string) : Prop :=
  role <$> staff_members sch !! s = Some r.

#[global] Instance has_role_dec (sch : OnCallScheduler) (s : nat) (r : string) :
  Decision (has_role sch s r).
Proof. unfold has_role. apply _. Defined.

(** Those of the staff on call on day [d] who have role [r]. *)
Definition working_with_role (sch : OnCallScheduler) (val : Valuation) (d : nat) (r : string)
  : list nat :=
  filter (fun s => has_role sch s r) (working_set sch val d).

(** One Intermediate, or one Senior, or one Senior with one Junior. *)
Definition covered (sch : OnCallScheduler) (W : list nat) : Prop :=
  (exists i, W = [i] /\ has_role sch i "Intermediate")
  \/ (exists s, W = [s] /\ has_role sch s "Senior")
  \/ (exists s j, W ≡ₚ [s; j] /\ has_role sch s "Senior" /\ has_role sch j "Junior").

(** The dates a schedule map implies: a string entry gives its date once,
    a pair record gives it twice. *)
Definition entry_dates (kv : string * ScheduleEntry) : list string :=
  match kv.2 with
  | EStr _ => [kv.1]
  | EPair _ _ _ => [kv.1; kv.1]
  end.

Definition implied_dates (schedule : gmap string ScheduleEntry) : gmultiset string :=
  list_to_set_disj (map_to_list schedule ≫= entry_dates).

(** The [days] lists of all entries of [staff_assignments], together. *)
Definition all_days (assignments : gmap string Tally) : gmultiset string :=
  list_to_set_disj (map_to_list assignments ≫= fun kv => days kv.2).

(** Largest minus smallest of a list of counts (0 for the empty list). *)
Definition spread (l : list Z) : Z :=
  foldr Z.max (hd 0 l) l - foldr Z.min (hd 0 l) l.

Definition weekend_counts (b : SuccessBody) : list Z :=
  weekend_shifts <$> (map_to_list (staff_assignments b)).*2.

Definition friday_counts (b : SuccessBody) : list Z :=
  friday_shifts <$> (map_to_list (staff_assignments b)).*2.

(** The last roster entry carrying the name [nm], with its index. *)
Definition last_named (nm : string) (staff : list StaffMember) : option (nat * StaffMember) :=
  last (filter (fun p => name p.2 = nm) (enumerate staff)).

End Spec.

(** ** Concrete rosters, valuations and engines *)

Module Examples.
Import Calendar CpSat Scheduler.

(** [datetime._ymd2ord]. *)
Definition is_leap (y : Z) : bool :=
  (y mod 4 =? 0) && (negb (y mod 100 =? 0) || (y mod 400 =? 0)).

Definition ymd2ord (y m d : Z) : Z :=
  let y1 := y - 1 in
  y1 * 365 + y1 / 4 - y1 / 100 + y1 / 400
  + DAYS_BEFORE_MONTH m + b2z ((2 <? m) && is_leap y) + d.

Definition digit_value (c : Ascii.ascii) : option Z :=
  let n := Z.of_nat (Ascii.nat_of_ascii c) in
  if (48 <=? n) && (n <=? 57) then Some (n - 48) else None.

Definition hyphen : Ascii.ascii := Ascii.ascii_of_nat 45.

Fixpoint number (acc : Z) (l : list Ascii.ascii) : option Z :=
  match l with
  | [] => Some acc
  | c :: rest => v ← digit_value c; number (10 * acc + v) rest
  end.

(** [strptime] on the zero-padded form YYYY-MM-DD of an existing date;
    the strings of the examples below are of that form. *)
Definition strptime_padded (s : string) : option date :=
  match String.list_ascii_of_string s with
  | [y1; y2; y3; y4; h1; m1; m2; h2; d1; d2] =>
    y ← number 0 [y1; y2; y3; y4];
    m ← number 0 [m1; m2];
    d ← number 0 [d1; d2];
    let n := ymd2ord y m d in
    if decide (h1 = hyphen /\ h2 = hyphen /\ 1 <= y /\ 1 <= m <= 12 /\ 1 <= d
               /\ ord2ymd n = (y, m, d))
    then Some n else None
  | _ => None
  end.

(** An engine that tries one valuation: it reports FEASIBLE with it when
    it satisfies the model, INFEASIBLE otherwise. *)
Definition solver_trying (val : Valuation) : Solver :=
  fun model _ => if satisfies val model then (FEASIBLE, val) else (INFEASIBLE, val).

(** An engine that reports FEASIBLE with the given valuation whatever
    the model. *)
Definition solver_returning (val : Valuation) : Solver :=
  fun _ _ => (FEASIBLE, val).

(** The valuation read off a table: row [d] lists the staff on call on
    day [d]; [pair_d] is 1 on the days with two staff; the four bound
    variables take the given values. *)
Definition valuation_of (table : list (list nat)) (bounds : Z * Z * Z * Z) : Valuation :=
  fun v =>
    match v with
    | Shift s d => if decide (s ∈ default [] (table !! d)) then 1 else 0
    | IsPair d => if decide (length (default [] (table !! d)) = 2%nat) then 1 else 0
    | MinWeekend => bounds.1.1.1
    | MaxWeekend => bounds.1.1.2
    | MinFriday => bounds.1.2
    | MaxFriday => bounds.2
    end.

Definition unwrap (r : PyError + OnCallScheduler) : OnCallScheduler :=
  match r with
  | inr sch => sch
  | inl _ => mkScheduler [] 0 0 0 [] ∅ [] [] [] [] []
  end.

(** A Senior, an Intermediate and a Junior over the week from Monday
    2024-12-02: the Senior and the Junior pair on Monday, Wednesday and
    Sunday. *)
Definition clinic_staff : list StaffMember :=
  [ mkStaff "Smith" "Senior" 4 [];
    mkStaff "Jones" "Intermediate" 3 [];
    mkStaff "Williams" "Junior" 3 [] ].

Definition clinic : OnCallScheduler :=
  unwrap (OnCallScheduler_init strptime_padded clinic_staff "2024-12-02" 7).

Definition clinic_week : Valuation :=
  valuation_of [ [0; 2]; [1]; [0; 2]; [1]; [0]; [1]; [0; 2] ]%nat (1, 1, 0, 1).

(** The same week with nobody on call on Tuesday. *)
Definition clinic_week_with_gap : Valuation :=
  valuation_of [ [0; 2]; []; [0; 2]; [1]; [0]; [1]; [0; 2] ]%nat (1, 1, 0, 1).

(** Scenario 5 of the specification: two Seniors with target 7 and a
    block of 7 days. *)
Definition two_seniors_staff : list StaffMember :=
  [ mkStaff "A" "Senior" 7 []; mkStaff "B" "Senior" 7 [] ].

Definition two_seniors : OnCallScheduler :=
  unwrap (OnCallScheduler_init strptime_padded two_seniors_staff "2024-12-02" 7).

(** Staff 0 on the even days, staff 1 on the odd days. *)
Definition alternating : Valuation :=
  valuation_of [ [0]; [1]; [0]; [1]; [0]; [1]; [0] ]%nat (1, 1, 0, 1).

(** Two Seniors who carry the same name. *)
Definition namesakes_staff : list StaffMember :=
  [ mkStaff "A" "Senior" 4 []; mkStaff "A" "Senior" 3 [] ].

Definition namesakes : OnCallScheduler :=
  unwrap (OnCallScheduler_init strptime_padded namesakes_staff "2024-12-02" 7).

(** Three Seniors with targets 3, 0 and 0, and a fourth with target 1
    who is unavailable on every day of the week. *)
Definition week_of_20241202 : list date :=
  [739222; 739223; 739224; 739225; 739226; 739227; 739228].

Definition idle_staff : list StaffMember :=
  [ mkStaff "A" "Senior" 3 [];
    mkStaff "B" "Senior" 0 [];
    mkStaff "C" "Senior" 0 [];
    mkStaff "D" "Senior" 1 week_of_20241202 ].

Definition idle : OnCallScheduler :=
  unwrap (OnCallScheduler_init strptime_padded idle_staff "2024-12-02" 7).

Definition idle_week : Valuation :=
  valuation_of [ [0]; [1]; [0]; [1]; [0]; [2]; [0] ]%nat (0, 1, 0, 1).

(** A block of minus one day. *)
Definition negative_block : OnCallScheduler :=
  unwrap (OnCallScheduler_init strptime_padded
            [ mkStaff "A" "Senior" 1 []; mkStaff "B" "Senior" 1 [] ] "2024-12-02" (-1)).

(** Nobody on call on any day. *)
Definition nobody : Valuation := valuation_of [] (0, 0, 0, 0).

(** What the decoder returns for the clinic's week, for the week with the
    gap, and for the namesakes' alternation. *)
Definition clinic_result : SuccessBody :=
  mkSuccess "2024-12-02" "2024-12-08"
    (build_schedule clinic clinic_week) (build_staff_assignments clinic clinic_week).

Definition clinic_gap_result : SuccessBody :=
  mkSuccess "2024-12-02" "2024-12-08"
    (build_schedule clinic clinic_week_with_gap)
    (build_staff_assignments clinic clinic_week_with_gap).

Definition namesakes_result : SuccessBody :=
  mkSuccess "2024-12-02" "2024-12-08"
    (build_schedule namesakes alternating) (build_staff_assignments namesakes alternating).

(** The scheduler of the second attempt on the roster with the idle
    member, and what the decoder returns for it. *)
Definition idle_relaxed : OnCallScheduler :=
  set_staff_members (relax_targets (staff_members idle)) idle.

Definition idle_result : SuccessBody :=
  mkSuccess "2024-12-02" "2024-12-08"
    (build_schedule idle_relaxed idle_week) (build_staff_assignments idle_relaxed idle_week).

End Examples.

(** ** Checks over runs of integers *)

Module Checks.
(** [test] on the [k] integers from [a] on. *)
Fixpoint all_from (test : Z -> bool) (k : nat) (a : Z) : bool :=
  match k with
  | O => true
  | S k => test a && all_from test k (a + 1)
  end.
End Checks.

(** ** Further rosters *)

Module Ward.
Import Calendar CpSat Scheduler Examples.
(** A Senior and an Intermediate who alternate over the week from Monday
    2024-12-02, each with days off inside and outside the block, and a
    third member whose role is none of the three. *)
Definition ward_staff : list StaffMember :=
  [ mkStaff "Adams" "Senior" 4 [739223; 739300];
    mkStaff "Baker" "Intermediate" 3 [739222];
    mkStaff "Clark" "Registrar" 1 [] ].

Definition ward : OnCallScheduler :=
  unwrap (OnCallScheduler_init strptime_padded ward_staff "2024-12-02" 7).

Definition ward_week : Valuation :=
  valuation_of [ [0]; [1]; [0]; [1]; [0]; [1]; [0] ]%nat (0, 1, 0, 1).

Definition ward_result : SuccessBody :=
  mkSuccess "2024-12-02" "2024-12-08"
    (build_schedule ward ward_week) (build_staff_assignments ward ward_week).
End Ward.

(** ** The schedule endpoints of [backend/main.py] *)

Module Endpoints.
Import Calendar CpSat Scheduler Api.

(** The [HTTPException]s the handlers raise: 400 and 404 with their
    detail, and the 500 that wraps an exception the handler caught, whose
    detail is "Internal server error: " followed by the exception's text. *)
Inductive HTTPException : Type :=
| BadRequest (detail : string)
| NotFound (detail : string)
| InternalServerError (cause : PyError).

Definition status_code (e : HTTPException) : Z :=
  match e with
  | BadRequest _ => 400
  | NotFound _ => 404
  | InternalServerError _ => 500
  end.

(** What a handler's body can raise: an [HTTPException] of its own, or a
    Python exception of the code it calls. *)
Inductive Raised : Type :=
| Http (e : HTTPException)
| Py (e : PyError).

(** A computation that returns or raises, with the sequencing of
    statements as its bind. *)
Definition Exc (A : Type) : Type := Raised + A.

#[global] Instance Exc_ret : MRet Exc := fun A a => inr a.

#[global] Instance Exc_bind : MBind Exc := fun A B f m =>
  match m with
  | inl e => inl e
  | inr a => f a
  end.

Definition raise {A : Type} (e : Raised) : Exc A := inl e.

(** [try: body / except ValueError: handler]. *)
Definition except_ValueError {A : Type} (body handler : Exc A) : Exc A :=
  match body with
  | inl (Py ValueError) => handler
  | r => r
  end.

(** [for a in l: body(a)]. *)
Fixpoint for_each {A : Type} (l : list A) (body : A -> Exc unit) : Exc unit :=
  match l with
  | [] => mret tt
  | a :: rest => body a;; for_each rest body
  end.

(** [[f(a) for a in l]]. *)
Fixpoint comprehension {A B : Type} (f : A -> Exc B) (l : list A) : Exc (list B) :=
  match l with
  | [] => mret []
  | a :: rest => b ← f a; bs ← comprehension f rest; mret (b :: bs)
  end.

(** A call of code that raises Python exceptions. *)
Definition call {A : Type} (r : PyError + A) : Exc A :=
  match r with
  | inl e => raise (Py e)
  | inr a => mret a
  end.

(** [ScheduleResponse]: all fields but [status] are optional. *)
Record ScheduleResponse : Type := mkResponse {
  resp_status : string;
  resp_start_date : option string;
  resp_end_date : option string;
  resp_schedule : option (gmap string ScheduleEntry);
  resp_staff_assignments : option (gmap string Tally);
  resp_message : option string
}.

Definition valid_roles : list string := ["Junior"; "Intermediate"; "Senior"].

(** The integers a signed field of 32 and of 64 bits holds.  The engine's
    Python layer raises on a seed outside the first range and on a
    constant of the model outside the second; SQLite raises on an INTEGER
    outside the second.  The handlers below are modelled on integers
    within these ranges. *)
Definition fits_int32 (z : Z) : Prop := - 2 ^ 31 <= z <= 2 ^ 31 - 1.
Definition fits_int64 (z : Z) : Prop := - 2 ^ 63 <= z <= 2 ^ 63 - 1.

(** The detail both schedule endpoints give for a role outside
    [valid_roles]. *)
Definition invalid_role_detail (staff_input : StaffInput) : string :=
  "Invalid role '" +:+ si_role staff_input +:+ "' for " +:+ si_name staff_input
  +:+ ". Must be one of: " +:+ join ", " valid_roles.

(** [any(s.role == r for s in staff)]. *)
Definition any_role (r : string) (staff : list StaffInput) : bool :=
  existsb (fun s => bool_decide (si_role s = r)) staff.

(** The response built from the scheduler's result: its fields for a
    success, and the error response with the message of any other
    result. *)
Definition schedule_response (result : Result) : ScheduleResponse :=
  match result with
  | Success b =>
    mkResponse "success" (Some (r_start_date b)) (Some (r_end_date b))
      (Some (schedule b)) (Some (staff_assignments b)) None
  | NoSolution message => mkResponse "error" None None None None (Some message)
  end.

(** The dict [validate_schedule_request] returns. *)
Record Validation : Type := mkValidation {
  valid : bool;
  message : string
}.

Section Handlers.
Context (strptime : string -> option date).

(** [datetime.strptime(s, "%Y-%m-%d")]. *)
Definition parse_date (s : string) : Exc date :=
  match strptime s with
  | Some d => mret d
  | None => raise (Py ValueError)
  end.

(** [StaffMember.__init__] of [scheduler.py]: every unavailable day is
    parsed, and a string that does not parse raises ValueError. *)
Definition StaffMember_init (name role : string) (target_shifts : Z)
    (unavailable_days : list string) : Exc StaffMember :=
  days ← comprehension parse_date unavailable_days;
  mret (mkStaff name role target_shifts days).

(** The checks of [generate_schedule] on one staff input. *)
Definition check_staff_input (staff_input : StaffInput) : Exc unit :=
  (if decide (si_role staff_input ∈ valid_roles) then mret tt
   else raise (Http (BadRequest (invalid_role_detail staff_input))));;
  for_each (si_unavailable_days staff_input) (fun day =>
    except_ValueError
      (parse_date day;; mret tt)
      (raise (Http (BadRequest ("Invalid date format in unavailable_days for "
                                +:+ si_name staff_input +:+ ". Use YYYY-MM-DD"))))).

(** The body of [generate_schedule]'s outer [try].  [now_ms] is
    [int(time.time() * 1000)]; the scheduler is called with a seed, so
    it does not read the clock itself. *)
Definition generate_schedule_body (solver : Solver) (now_ms : Z) (request : ScheduleRequest)
  : Exc ScheduleResponse :=
  except_ValueError
    (parse_date (req_start_date request);; mret tt)
    (raise (Http (BadRequest "Invalid start_date format. Use YYYY-MM-DD")));;
  for_each (staff request) check_staff_input;;
  let has_senior := any_role "Senior" (staff request) in
  let has_junior := any_role "Junior" (staff request) in
  (if has_junior && negb has_senior
   then raise (Http (BadRequest
          "At least one Senior staff member is required when Junior staff are present"))
   else mret tt);;
  (if (length (staff request) <? 2)%nat
   then raise (Http (BadRequest
          "At least 2 staff members are required to generate a schedule"))
   else mret tt);;
  staff_members ← comprehension
    (fun staff => StaffMember_init (si_name staff) (si_role staff) (si_target_shifts staff)
                    (si_unavailable_days staff))
    (staff request);
  scheduler ← call (OnCallScheduler_init strptime staff_members (req_start_date request)
                       (req_num_days request));
  let random_seed :=
    match req_random_seed request with
    | Some seed => seed
    | None => now_ms mod (2 ^ 31 - 1)
    end in
  let result :=
    (generate_schedule_with_relaxation solver scheduler (Some random_seed) now_ms now_ms).1 in
  mret (schedule_response result).

(** [generate_schedule], the handler of POST /api/schedule/generate: an
    [HTTPException] of the body is raised again, any other exception
    becomes a 500. *)
Definition generate_schedule (solver : Solver) (now_ms : Z) (request : ScheduleRequest)
  : HTTPException + ScheduleResponse :=
  match generate_schedule_body solver now_ms request with
  | inl (Http e) => inl e
  | inl (Py e) => inl (InternalServerError e)
  | inr response => inr response
  end.

(** [not name.strip()]. *)
Context (blank : string -> bool).

(** The first of the strings on which [strptime] raises. *)
Fixpoint first_unparsed (days : list string) : option string :=
  match days with
  | [] => None
  | day :: rest =>
    match strptime day with
    | None => Some day
    | Some _ => first_unparsed rest
    end
  end.

(** The loop of [validate_schedule_request] over the staff, with its two
    flags; [inl] is the message of an early return. *)
Fixpoint validate_staff (staff : list StaffInput) (has_senior has_junior : bool)
  : string + (bool * bool) :=
  match staff with
  | [] => inr (has_senior, has_junior)
  | staff_input :: rest =>
    if blank (si_name staff_input) then inl "Staff name cannot be empty"
    else if decide (si_role staff_input ∈ valid_roles) then
      let has_senior := if decide (si_role staff_input = "Senior") then true else has_senior in
      let has_junior := if decide (si_role staff_input = "Junior") then true else has_junior in
      if si_target_shifts staff_input <? 1
      then inl ("Target shifts must be at least 1 for " +:+ si_name staff_input)
      else
        match first_unparsed (si_unavailable_days staff_input) with
        | Some day => inl ("Invalid date format: " +:+ day)
        | None => validate_staff rest has_senior has_junior
        end
    else inl (invalid_role_detail staff_input)
  end.

(** [validate_schedule_request], the handler of POST
    /api/schedule/validate. *)
Definition validate_schedule_request (request : ScheduleRequest) : Validation :=
  match strptime (req_start_date request) with
  | None => mkValidation false "Invalid start_date format. Use YYYY-MM-DD"
  | Some _ =>
    if (length (staff request) <? 2)%nat
    then mkValidation false "At least 2 staff members are required"
    else
      match validate_staff (staff request) false false with
      | inl message => mkValidation false message
      | inr (has_senior, has_junior) =>
        if has_junior && negb has_senior
        then mkValidation false
               "At least one Senior staff member is required when Junior staff are present"
        else mkValidation true "Request is valid"
      end
  end.

End Handlers.

(** The staff inputs that pass the checks of [generate_schedule], and
    the requests it does not refuse with a 400, as predicates. *)
Definition input_accepted (strptime : string -> option date) (s : StaffInput) : Prop :=
  si_role s ∈ valid_roles
  /\ Forall (fun day => is_Some (strptime day)) (si_unavailable_days s).

#[global] Instance input_accepted_dec (strptime : string -> option date) (s : StaffInput) :
  Decision (input_accepted strptime s).
Proof. unfold input_accepted. apply _. Defined.

Definition accepted (strptime : string -> option date) (request : ScheduleRequest) : Prop :=
  is_Some (strptime (req_start_date request))
  /\ Forall (input_accepted strptime) (staff request)
  /\ ((exists s, s ∈ staff request /\ si_role s = "Junior") ->
      exists s, s ∈ staff request /\ si_role s = "Senior")
  /\ (2 <= length (staff request))%nat.

(** What [StaffMember.__init__] makes of a staff input. *)
Definition built_from (strptime : string -> option date) (s : StaffInput) (m : StaffMember)
  : Prop :=
  name m = si_name s /\ role m = si_role s /\ target_shifts m = si_target_shifts s
  /\ mapM strptime (si_unavailable_days s) = Some (unavailable_days m).

End Endpoints.

(** ** The staff roster: [backend/database.py] and the CRUD endpoints of
    [backend/main.py] *)

Module Roster.
Import Endpoints.

(** [StaffRole]: the members and their values. *)
Inductive StaffRole : Type := JUNIOR | INTERMEDIATE | SENIOR.

Definition value (r : StaffRole) : string :=
  match r with
  | JUNIOR => "Junior"
  | INTERMEDIATE => "Intermediate"
  | SENIOR => "Senior"
  end.

(** [StaffRole[key]], the member of that name; Python raises KeyError
    when there is none. *)
Definition StaffRole_getitem (key : string) : option StaffRole :=
  if decide (key = "JUNIOR") then Some JUNIOR
  else if decide (key = "INTERMEDIATE") then Some INTERMEDIATE
  else if decide (key = "SENIOR") then Some SENIOR
  else None.

(** [str.upper] on the letters a to z; the handlers call it on role
    strings only. *)
Definition upper (s : string) : string :=
  String.string_of_list_ascii
    ((fun c => let n := Ascii.nat_of_ascii c in
               if (97 <=? n)%nat && (n <=? 122)%nat then Ascii.ascii_of_nat (n - 32) else c)
       <$> String.list_ascii_of_string s).

(** A row of the table [staff]. *)
Record Staff : Type := mkRow {
  row_id : Z;
  row_name : string;
  row_role : StaffRole;
  row_default_target_shifts : Z
}.

(** The table, as the rows a query without filter returns.  Ids and
    targets are integers SQLite's INTEGER holds; on a larger one the
    query or the commit raises. *)
Definition Table : Type := list Staff.

(** [StaffCreate], [StaffUpdate] and [StaffResponse]. *)
Record StaffCreate : Type := mkCreate {
  sc_name : string;
  sc_role : string;
  sc_default_target_shifts : Z
}.

Record StaffUpdate : Type := mkUpdate {
  su_name : option string;
  su_role : option string;
  su_default_target_shifts : option Z
}.

Record StaffResponse : Type := mkStaffResponse {
  sr_id : Z;
  sr_name : string;
  sr_role : string;
  sr_default_target_shifts : Z
}.

(** What a CRUD handler can raise: an [HTTPException] of its own, or the
    KeyError of the enum lookup. *)
Inductive Failure : Type :=
| Refused (e : HTTPException)
| KeyError (key : string).

(** [Staff.to_dict], read into a [StaffResponse]. *)
Definition to_dict (s : Staff) : StaffResponse :=
  mkStaffResponse (row_id s) (row_name s) (value (row_role s)) (row_default_target_shifts s).

Definition invalid_role (role : string) : Failure :=
  Refused (BadRequest ("Invalid role '" +:+ role +:+ "'. Must be one of: "
                       +:+ Scheduler.join ", " valid_roles)).

Definition name_exists (name : string) : Failure :=
  Refused (BadRequest ("Staff member with name '" +:+ name +:+ "' already exists")).

Definition staff_not_found : Failure := Refused (NotFound "Staff member not found").

(** [get_staff]. *)
Definition get_staff (db : Table) : list StaffResponse := to_dict <$> db.

Section Session.
(** The id the database gives a row added to the table. *)
Context (new_id : Table -> Z).

(** [create_staff]: the response, and the table as the call leaves
    it. *)
Definition create_staff (staff_data : StaffCreate) (db : Table)
  : (Failure + StaffResponse) * Table :=
  if decide (sc_role staff_data ∈ valid_roles) then
    match head (filter (fun s => row_name s = sc_name staff_data) db) with
    | Some _ => (inl (name_exists (sc_name staff_data)), db)
    | None =>
      match StaffRole_getitem (upper (sc_role staff_data)) with
      | None => (inl (KeyError (upper (sc_role staff_data))), db)
      | Some role_enum =>
        let staff := mkRow (new_id db) (sc_name staff_data) role_enum
                       (sc_default_target_shifts staff_data) in
        (inr (to_dict staff), db ++ [staff])
      end
    end
  else (inl (invalid_role (sc_role staff_data)), db).

(** The three assignments of [update_staff] to the row it found; an
    exception leaves the assignments made before it uncommitted. *)
Definition assign_fields (staff_id : Z) (staff_data : StaffUpdate) (db : Table) (staff : Staff)
  : Failure + Staff :=
  match
    match su_name staff_data with
    | Some name =>
      match head (filter (fun s => row_name s = name /\ row_id s <> staff_id) db) with
      | Some _ => inl (name_exists name)
      | None => inr (mkRow (row_id staff) name (row_role staff)
                       (row_default_target_shifts staff))
      end
    | None => inr staff
    end
  with
  | inl e => inl e
  | inr staff =>
    match
      match su_role staff_data with
      | Some role =>
        if decide (role ∈ valid_roles) then
          match StaffRole_getitem (upper role) with
          | Some role_enum =>
            inr (mkRow (row_id staff) (row_name staff) role_enum
                   (row_default_target_shifts staff))
          | None => inl (KeyError (upper role))
          end
        else inl (invalid_role role)
      | None => inr staff
      end
    with
    | inl e => inl e
    | inr staff =>
      match su_default_target_shifts staff_data with
      | Some target =>
        inr (mkRow (row_id staff) (row_name staff) (row_role staff) target)
      | None => inr staff
      end
    end
  end.

(** [update_staff]: the commit writes the row back under its id. *)
Definition update_staff (staff_id : Z) (staff_data : StaffUpdate) (db : Table)
  : (Failure + StaffResponse) * Table :=
  match head (filter (fun s => row_id s = staff_id) db) with
  | None => (inl staff_not_found, db)
  | Some staff =>
    match assign_fields staff_id staff_data db staff with
    | inl e => (inl e, db)
    | inr staff =>
      (inr (to_dict staff),
       (fun s => if decide (row_id s = staff_id) then staff else s) <$> db)
    end
  end.

(** [delete_staff]. *)
Definition delete_staff (staff_id : Z) (db : Table) : (Failure + string) * Table :=
  match head (filter (fun s => row_id s = staff_id) db) with
  | None => (inl staff_not_found, db)
  | Some staff =>
    (inr "Staff member deleted successfully", filter (fun s => row_id s <> staff_id) db)
  end.

(** A call of one of the three handlers that write, and the table
    after it. *)
Inductive Call : Type :=
| Create (staff_data : StaffCreate)
| Update (staff_id : Z) (staff_data : StaffUpdate)
| Delete (staff_id : Z).

Definition table_after (db : Table) (c : Call) : Table :=
  match c with
  | Create staff_data => (create_staff staff_data db).2
  | Update staff_id staff_data => (update_staff staff_id staff_data db).2
  | Delete staff_id => (delete_staff staff_id db).2
  end.

End Session.

(** The bounds [StaffCreate] and [StaffUpdate] declare on
    [default_target_shifts], checked when the body is parsed. *)
Definition parsed (c : Call) : Prop :=
  match c with
  | Create staff_data => 1 <= sc_default_target_shifts staff_data
  | Update _ staff_data =>
    match su_default_target_shifts staff_data with
    | Some target => 1 <= target
    | None => True
    end
  | Delete _ => True
  end.

(** The row id SQLite gives: one above the largest in the table, 1 for
    an empty table. *)
Definition rowid (db : Table) : Z := 1 + foldr Z.max 0 (row_id <$> db).

End Roster.

(** ** Requests to the schedule endpoints *)

Module Requests.
Import Calendar CpSat Scheduler Api Endpoints Roster Examples.

(** The clinic's roster as a request, with a seed. *)
Definition clinic_request : ScheduleRequest :=
  mkRequest
    [ mkStaffInput "Smith" "Senior" 4 [];
      mkStaffInput "Jones" "Intermediate" 3 [];
      mkStaffInput "Williams" "Junior" 3 [] ]
    "2024-12-02" 7 (Some 1).

(** The same roster for the last two days of the calendar and five
    more. *)
Definition late_request : ScheduleRequest :=
  mkRequest (staff clinic_request) "9999-12-30" 7 (Some 1).

(** A Junior and an Intermediate, no Senior, and a day that is no date. *)
Definition juniors_request : ScheduleRequest :=
  mkRequest
    [ mkStaffInput "Jones" "Intermediate" 3 [];
      mkStaffInput "Williams" "Junior" 3 [] ]
    "2024-12-02" 7 None.

(** Two Seniors, one of them without a name. *)
Definition nameless_request : ScheduleRequest :=
  mkRequest
    [ mkStaffInput "A" "Senior" 4 [];
      mkStaffInput " " "Senior" 3 [] ]
    "2024-12-02" 7 (Some 1).

(** [not name.strip()] on strings of ASCII characters: every character
    is a blank, a tab, a line feed, a vertical tab, a form feed, a
    carriage return or one of the four separators 28 to 31. *)
Definition blank_ascii (s : string) : bool :=
  forallb (fun c => let n := Ascii.nat_of_ascii c in
                    (n =? 32)%nat || ((9 <=? n)%nat && (n <=? 13)%nat)
                    || ((28 <=? n)%nat && (n <=? 31)%nat))
          (String.list_ascii_of_string s).

(** A table of two rows. *)
Definition office : Table :=
  [ mkRow 1 "Smith" SENIOR 4; mkRow 2 "Jones" JUNIOR 3 ].

(** Calls on the roster: a second Smith and a rename to Smith are
    refused, a rename with a new role and a deletion go through. *)
Definition office_calls : list Call :=
  [ Create (mkCreate "Smith" "Senior" 4);
    Create (mkCreate "Smith" "Junior" 3);
    Create (mkCreate "Jones" "Junior" 3);
    Update 2 (mkUpdate (Some "Smith") None None);
    Update 2 (mkUpdate (Some "Williams") (Some "Intermediate") None);
    Delete 1;
    Create (mkCreate "Adams" "Senior" 5) ].

End Requests.

Import Calendar CpSat Scheduler Spec.

(** ** The calendar at known dates *)

Example strftime_20241202 : strftime 739222 = "2024-12-02".
Proof. reflexivity. Qed.
Example strftime_20240229 : strftime (739222 - 277) = "2024-02-29".
Proof. reflexivity. Qed.
Example strftime_20001231 : strftime 730485 = "2000-12-31".
Proof. reflexivity. Qed.
Example strftime_max : strftime MAXORDINAL = "9999-12-31".
Proof. reflexivity. Qed.
Example weekday_20241202 : weekday 739222 = 0.
Proof. reflexivity. Qed.
Example weekday_20241208 : weekday 739228 = 6.
Proof. reflexivity. Qed.

Import Checks.

(** ** Dates print differently *)

(** A check made on every item of a run of integers holds of each. *)
Lemma all_from_spec (test : Z → bool) (k : nat) (a z : Z) :
  all_from test k a = true → a <= z < a + Z.of_nat k → test z = true.
Proof.
  revert a. induction k as [|k IH]; intros a; simpl; [lia|].
  intros [Ha Hrest]%andb_true_iff Hz.
  destruct (decide (z = a)) as [->|Hne]; [done|]. apply (IH (a + 1)); [done|lia].
Qed.

(** The 400-year cycle of the calendar. *)
Lemma ord2ymd_cycle (q r : Z) :
  1 <= r <= DI400Y →
  ord2ymd (DI400Y * q + r) = let '(y, m, d) := ord2ymd r in (y + 400 * q, m, d).
Proof.
  intros Hr. unfold ord2ymd. cbv zeta.
  assert (Hq : (DI400Y * q + r - 1) / DI400Y = q).
  { unfold DI400Y in *. symmetry. apply (Z.div_unique _ _ q (r - 1)); lia. }
  assert (Hm : (DI400Y * q + r - 1) mod DI400Y = r - 1).
  { unfold DI400Y in *. symmetry. apply (Z.mod_unique _ _ q (r - 1)); lia. }
  assert (Hq0 : (r - 1) / DI400Y = 0) by (apply Z.div_small; lia).
  assert (Hm0 : (r - 1) mod DI400Y = r - 1) by (apply Z.mod_small; lia).
  rewrite Hq, Hm, Hq0, Hm0.
  repeat match goal with |- context [ if ?c then _ else _ ] => destruct c end;
    f_equal; try f_equal; lia.
Qed.

Lemma cycle_checked :
  all_from (λ r, let '(y, m, d) := ord2ymd r in
                 (Examples.ymd2ord y m d =? r)
                 && (1 <=? y) && (y <=? 400) && (1 <=? m) && (m <=? 12)
                 && (1 <=? d) && (d <=? 31)
                 && ((145731 <? r) || (y <=? 399)))
           (Z.to_nat 146097) 1 = true.
Proof. vm_cast_no_check (eq_refl true). Qed.

Lemma cycle_day (r : Z) :
  1 <= r <= DI400Y →
  ∃ y m d, ord2ymd r = (y, m, d) ∧ Examples.ymd2ord y m d = r
           ∧ 1 <= y <= 400 ∧ 1 <= m <= 12 ∧ 1 <= d <= 31
           ∧ (r <= 145731 → y <= 399).
Proof.
  intros Hr. pose proof (all_from_spec _ _ _ r cycle_checked) as Hc.
  unfold DI400Y in Hr. specialize (Hc ltac:(rewrite Z2Nat.id by lia; lia)).
  cbv beta in Hc. destruct (ord2ymd r) as [[y m] d]. exists y, m, d.
  rewrite !andb_true_iff, orb_true_iff, !Z.leb_le, Z.eqb_eq, Z.ltb_lt in Hc.
  repeat split; try tauto; try lia.
Qed.

(** Every date of the calendar has a year from 1 to 9999, a month and a
    day, and no two dates have the same. *)
Lemma ord2ymd_range (n : Z) :
  MINORDINAL <= n <= MAXORDINAL →
  ∃ y m d, ord2ymd n = (y, m, d) ∧ 1 <= y <= 9999 ∧ 1 <= m <= 12 ∧ 1 <= d <= 31.
Proof.
  unfold MINORDINAL, MAXORDINAL. intros Hn.
  pose proof (Z.div_mod (n - 1) DI400Y ltac:(done)) as Hdiv.
  pose proof (Z.mod_pos_bound (n - 1) DI400Y ltac:(done)) as Hmod.
  unfold DI400Y in *.
  destruct (cycle_day ((n - 1) mod 146097 + 1) ltac:(unfold DI400Y; lia))
    as (y & m & d & Hymd & _ & Hy & Hm & Hd & Hlast).
  pose proof (ord2ymd_cycle ((n - 1) / 146097) ((n - 1) mod 146097 + 1)
                ltac:(unfold DI400Y; lia)) as Hcycle.
  unfold DI400Y in Hcycle. rewrite Hymd in Hcycle.
  replace (146097 * ((n - 1) / 146097) + ((n - 1) mod 146097 + 1)) with n in Hcycle by lia.
  exists (y + 400 * ((n - 1) / 146097)), m, d. split; [done|].
  assert (0 <= (n - 1) / 146097 <= 24) by lia.
  repeat split; lia.
Qed.

Lemma ord2ymd_inj (a b : Z) :
  MINORDINAL <= a <= MAXORDINAL → MINORDINAL <= b <= MAXORDINAL →
  ord2ymd a = ord2ymd b → a = b.
Proof.
  unfold MINORDINAL, MAXORDINAL. intros Ha Hb.
  pose proof (Z.div_mod (a - 1) DI400Y ltac:(done)) as Hda.
  pose proof (Z.mod_pos_bound (a - 1) DI400Y ltac:(done)) as Hma.
  pose proof (Z.div_mod (b - 1) DI400Y ltac:(done)) as Hdb.
  pose proof (Z.mod_pos_bound (b - 1) DI400Y ltac:(done)) as Hmb.
  unfold DI400Y in *.
  destruct (cycle_day ((a - 1) mod 146097 + 1) ltac:(unfold DI400Y; lia))
    as (ya & ma & da & Hymda & Hinva & Hya & _).
  destruct (cycle_day ((b - 1) mod 146097 + 1) ltac:(unfold DI400Y; lia))
    as (yb & mb & db & Hymdb & Hinvb & Hyb & _).
  pose proof (ord2ymd_cycle ((a - 1) / 146097) ((a - 1) mod 146097 + 1)
                ltac:(unfold DI400Y; lia)) as Hca.
  pose proof (ord2ymd_cycle ((b - 1) / 146097) ((b - 1) mod 146097 + 1)
                ltac:(unfold DI400Y; lia)) as Hcb.
  unfold DI400Y in Hca, Hcb. rewrite Hymda in Hca. rewrite Hymdb in Hcb.
  replace (146097 * ((a - 1) / 146097) + ((a - 1) mod 146097 + 1)) with a in Hca by lia.
  replace (146097 * ((b - 1) / 146097) + ((b - 1) mod 146097 + 1)) with b in Hcb by lia.
  rewrite Hca, Hcb. intros [= Hy Hm Hd].
  assert (Hq : (a - 1) / 146097 = (b - 1) / 146097) by lia.
  assert (ya = yb) by lia. subst.
  assert (Hr : (a - 1) mod 146097 + 1 = (b - 1) mod 146097 + 1) by congruence.
  lia.
Qed.

(** The printed form: a string that ends in six characters has one
    beginning. *)
Lemma string_length_app (s t : string) :
  String.length (s +:+ t) = (String.length s + String.length t)%nat.
Proof. induction s as [|c s IH]; simpl; [done|by rewrite IH]. Qed.

Lemma string_app_inj (s1 s2 t1 t2 : string) :
  String.length t1 = String.length t2 → s1 +:+ t1 = s2 +:+ t2 → s1 = s2 ∧ t1 = t2.
Proof.
  revert s2. induction s1 as [|c s1 IH]; intros [|c' s2] Hlen Heq; simpl in Heq.
  - done.
  - apply (f_equal String.length) in Heq.
    rewrite !string_length_app in Heq. simpl in Heq. lia.
  - apply (f_equal String.length) in Heq.
    rewrite !string_length_app in Heq. simpl in Heq. lia.
  - injection Heq as -> Heq. destruct (IH s2 Hlen Heq) as [-> ->]. done.
Qed.

Lemma year_checked :
  all_from (λ y, bool_decide (Examples.number 0 (String.list_ascii_of_string (year_digits y))
                              = Some y))
           (Z.to_nat 9999) 1 = true.
Proof. vm_compute. reflexivity. Qed.

Lemma pad2_checked :
  all_from (λ k, bool_decide (Examples.number 0 (String.list_ascii_of_string (pad2 k))
                              = Some k))
           100 0 = true.
Proof. vm_compute. reflexivity. Qed.

Lemma year_digits_inj (a b : Z) :
  1 <= a <= 9999 → 1 <= b <= 9999 → year_digits a = year_digits b → a = b.
Proof.
  intros Ha Hb Heq.
  pose proof (all_from_spec _ _ _ a year_checked ltac:(rewrite Z2Nat.id by lia; lia)) as Hca.
  pose proof (all_from_spec _ _ _ b year_checked ltac:(rewrite Z2Nat.id by lia; lia)) as Hcb.
  apply bool_decide_eq_true in Hca, Hcb. rewrite Heq in Hca. congruence.
Qed.

Lemma pad2_inj (a b : Z) :
  0 <= a <= 99 → 0 <= b <= 99 → pad2 a = pad2 b → a = b.
Proof.
  intros Ha Hb Heq.
  pose proof (all_from_spec _ _ _ a pad2_checked ltac:(lia)) as Hca.
  pose proof (all_from_spec _ _ _ b pad2_checked ltac:(lia)) as Hcb.
  apply bool_decide_eq_true in Hca, Hcb. rewrite Heq in Hca. congruence.
Qed.

(** Two dates of the calendar that print alike are one date. *)
Lemma strftime_inj (a b : date) :
  MINORDINAL <= a <= MAXORDINAL → MINORDINAL <= b <= MAXORDINAL →
  strftime a = strftime b → a = b.
Proof.
  intros Ha Hb Heq. apply ord2ymd_inj; [done..|].
  destruct (ord2ymd_range a Ha) as (ya & ma & da & Hymda & Hya & Hma & Hda).
  destruct (ord2ymd_range b Hb) as (yb & mb & db & Hymdb & Hyb & Hmb & Hdb).
  unfold strftime in Heq. rewrite Hymda, Hymdb in *.
  apply string_app_inj in Heq as [Hy Htail]; [|done].
  apply year_digits_inj in Hy as ->; [|done..].
  assert (pad2 ma = pad2 mb ∧ pad2 da = pad2 db) as [Hm Hd].
  { unfold pad2, digit in *. simpl in Htail. injection Htail as H1 H2 H3 H4.
    simpl. by rewrite H1, H2, H3, H4. }
  apply pad2_inj in Hm as ->; [|lia..]. apply pad2_inj in Hd as ->; [|lia..]. done.
Qed.

(** ** Lists, sums and dictionaries *)

Lemma filter_ext_in {A : Type} (P Q : A → Prop) `{!∀ a, Decision (P a)} `{!∀ a, Decision (Q a)}
    (l : list A) :
  (∀ a, a ∈ l → P a ↔ Q a) → filter P l = filter Q l.
Proof.
  induction l as [|a l IH]; intros HPQ; [done|].
  rewrite !filter_cons.
  rewrite IH by (intros; apply HPQ; by right).
  destruct (decide (P a)) as [HP|HP], (decide (Q a)) as [HQ|HQ]; try done;
    exfalso; apply (HPQ a (list_elem_of_here _ _)) in HP || apply (HPQ a (list_elem_of_here _ _)) in HQ; done.
Qed.

Section Lists.
Context {A : Type}.

Lemma enumerate_snoc (l : list A) (a : A) :
  enumerate (l ++ [a]) = enumerate l ++ [(length l, a)].
Proof.
  unfold enumerate. rewrite imap_app. simpl. by rewrite Nat.add_0_r.
Qed.

Lemma elem_of_enumerate (l : list A) (i : nat) (a : A) :
  (i, a) ∈ enumerate l ↔ l !! i = Some a.
Proof.
  unfold enumerate. rewrite elem_of_lookup_imap. split.
  - intros (j & b & Heq & Hl). by simplify_eq.
  - intros Hl. eauto.
Qed.

Lemma enumerate_fst (l : list A) : (enumerate l).*1 = seq 0 (length l).
Proof.
  induction l as [|a l IH] using rev_ind; [done|].
  rewrite enumerate_snoc, fmap_app, IH, length_app. simpl.
  by rewrite Nat.add_1_r, seq_S.
Qed.

Lemma enumerate_snd (l : list A) : (enumerate l).*2 = l.
Proof.
  induction l as [|a l IH] using rev_ind; [done|].
  by rewrite enumerate_snoc, fmap_app, IH.
Qed.

Lemma length_enumerate (l : list A) : length (enumerate l) = length l.
Proof. unfold enumerate. apply length_imap. Qed.

(** Filtering the enumeration on a feature of the item is filtering
    the indices on the feature of the item they hold. *)
Lemma enumerate_filter_fst {B : Type} `{!EqDecision B} (g : A → B) (b : B) (l : list A) :
  (filter (λ p, g p.2 = b) (enumerate l)).*1
  = filter (λ i, g <$> l !! i = Some b) (seq 0 (length l)).
Proof.
  induction l as [|a l IH] using rev_ind; [done|].
  rewrite enumerate_snoc, filter_app, fmap_app, IH, length_app. simpl.
  rewrite Nat.add_1_r, seq_S, filter_app. simpl. f_equal.
  - apply filter_ext_in. intros i Hi.
    apply elem_of_seq in Hi. rewrite lookup_app_l by lia. done.
  - rewrite !filter_cons, !filter_nil. simpl.
    rewrite lookup_app_r, Nat.sub_diag by lia. simpl.
    destruct (decide (g a = b)), (decide (Some (g a) = Some b)); try done; congruence.
Qed.
End Lists.

Lemma indices_with_role_filter (r : string) (staff : list StaffMember) :
  indices_with_role r staff
  = filter (λ i, role <$> staff !! i = Some r) (seq 0 (length staff)).
Proof. apply (enumerate_filter_fst role r staff). Qed.

Lemma indices_with_weekday_filter (p : Z → bool) (ds : list date) :
  indices_with_weekday p ds
  = filter (λ i, (λ d, p (weekday d)) <$> ds !! i = Some true) (seq 0 (length ds)).
Proof. apply (enumerate_filter_fst (λ d, p (weekday d)) true ds). Qed.

(** Sums *)

Lemma foldl_add (z : Z) (l : list Z) : foldl Z.add z l = z + foldr Z.add 0 l.
Proof.
  revert z. induction l as [|a l IH]; intros z; simpl; [lia|].
  rewrite IH. lia.
Qed.

Lemma sumZ_foldr (l : list Z) : sumZ l = foldr Z.add 0 l.
Proof. unfold sumZ. rewrite foldl_add. lia. Qed.

Lemma eval_foldl_Add (val : Valuation) (e : LinearExpr) (es : list LinearExpr) :
  eval val (foldl Add e es) = eval val e + foldr Z.add 0 (eval val <$> es).
Proof.
  revert e. induction es as [|a es IH]; intros e; csimpl; [lia|].
  rewrite IH. simpl. lia.
Qed.

Lemma eval_py_sum (val : Valuation) (es : list LinearExpr) :
  eval val (py_sum es) = foldr Z.add 0 (eval val <$> es).
Proof. unfold py_sum. rewrite eval_foldl_Add. simpl. lia. Qed.

Lemma eval_working_on (val : Valuation) (idxs : list nat) (d : nat) :
  eval val (working_on idxs d) = foldr Z.add 0 ((λ i, val (Shift i d)) <$> idxs).
Proof.
  unfold working_on. rewrite eval_py_sum, <- list_fmap_compose. done.
Qed.

Lemma eval_shifts_over (val : Valuation) (s : nat) (ds : list nat) :
  eval val (shifts_over s ds) = count_shifts val s ds.
Proof.
  unfold shifts_over, count_shifts.
  rewrite eval_py_sum, sumZ_foldr, <- list_fmap_compose. done.
Qed.

(** A sum of 0/1 values over the items that pass a filter counts the
    items with value 1 that pass it. *)
Lemma sum_indicator {A : Type} (f : A → Z) (P : A → Prop) `{!∀ a, Decision (P a)}
    (l : list A) :
  (∀ a, a ∈ l → f a = 0 ∨ f a = 1) →
  foldr Z.add 0 (f <$> filter P l)
  = Z.of_nat (length (filter P (filter (λ a, f a = 1) l))).
Proof.
  induction l as [|a l IH]; intros Hf; [done|].
  assert (Hl : ∀ b, b ∈ l → f b = 0 ∨ f b = 1) by (intros; apply Hf; by right).
  specialize (IH Hl).
  destruct (Hf a (list_elem_of_here _ _)) as [Ha|Ha];
    rewrite !filter_cons; destruct (decide (P a)); csimpl;
    destruct (decide (f a = 1)); try lia; csimpl;
    rewrite ?filter_cons; try destruct (decide (P a)); try done; csimpl; lia.
Qed.

Lemma sum_indicator_all {A : Type} (f : A → Z) (l : list A) :
  (∀ a, a ∈ l → f a = 0 ∨ f a = 1) →
  foldr Z.add 0 (f <$> l) = Z.of_nat (length (filter (λ a, f a = 1) l)).
Proof.
  intros Hf. 
  induction l as [|a l IH]; [done|].
  assert (Hl : ∀ b, b ∈ l → f b = 0 ∨ f b = 1) by (intros; apply Hf; by right).
  specialize (IH Hl). csimpl. rewrite filter_cons.
  destruct (Hf a (list_elem_of_here _ _)) as [Ha|Ha];
    destruct (decide (f a = 1)); simpl; lia.
Qed.

(** *** Binds of lists, up to permutation *)

Lemma bind_ext_in {A B : Type} (f g : A → list B) (l : list A) :
  (∀ a, a ∈ l → f a = g a) → l ≫= f = l ≫= g.
Proof.
  induction l as [|a l IH]; intros Hfg; [done|].
  rewrite !bind_cons, IH, (Hfg a) by (by left || (intros; apply Hfg; by right)). done.
Qed.

Lemma bind_nil_r {A B : Type} (l : list A) : l ≫= (λ _, @nil B) = [].
Proof. induction l as [|a l IH]; [done|]. by rewrite bind_cons, IH. Qed.

Lemma bind_app_r {A B : Type} (g h : A → list B) (l : list A) :
  l ≫= (λ a, g a ++ h a) ≡ₚ (l ≫= g) ++ (l ≫= h).
Proof.
  induction l as [|a l IH]; [done|].
  rewrite !bind_cons, IH, <- !(assoc_L (++)).
  apply Permutation_app_head.
  rewrite !(assoc_L (++)). apply Permutation_app_tail, Permutation_app_comm.
Qed.

Lemma bind_swap {A B C : Type} (f : A → B → list C) (l1 : list A) (l2 : list B) :
  l1 ≫= (λ a, l2 ≫= f a) ≡ₚ l2 ≫= (λ b, l1 ≫= (λ a, f a b)).
Proof.
  induction l1 as [|a l1 IH].
  - change (l2 ≫= (λ b, [] ≫= (λ a, f a b))) with (l2 ≫= (λ _ : B, @nil C)).
    by rewrite bind_nil_r.
  - rewrite bind_cons, IH.
    rewrite (bind_ext_in (λ b, (a :: l1) ≫= (λ a', f a' b))
                         (λ b, f a b ++ (l1 ≫= (λ a', f a' b))) l2) by done.
    by rewrite bind_app_r.
Qed.

Lemma filter_bind {A B : Type} (P : A → Prop) `{!∀ a, Decision (P a)} (g : A → list B)
    (l : list A) :
  filter P l ≫= g = l ≫= (λ a, if decide (P a) then g a else []).
Proof.
  induction l as [|a l IH]; [done|].
  rewrite filter_cons, bind_cons. destruct (decide (P a)); [|done].
  by rewrite bind_cons, IH.
Qed.

Lemma fmap_bind_singleton {A B : Type} (f : A → B) (l : list A) :
  f <$> l = l ≫= (λ a, [f a]).
Proof. induction l as [|a l IH]; [done|]. by rewrite fmap_cons, bind_cons, IH. Qed.

Lemma filter_fmap {A B : Type} (f : A → B) (P : B → Prop) `{!∀ b, Decision (P b)}
    (l : list A) :
  filter P (f <$> l) = f <$> filter (λ a, P (f a)) l.
Proof.
  induction l as [|a l IH]; [done|].
  rewrite fmap_cons, !filter_cons, IH. by destruct (decide (P (f a))).
Qed.

Section AssignAll.
Context {V : Type}.
Implicit Types (kvs : list (string * V)) (k : string) (v : V).

Lemma assign_all_snoc kvs k v :
  assign_all (kvs ++ [(k, v)]) = <[k := v]> (assign_all kvs).
Proof. unfold assign_all. by rewrite foldl_app. Qed.

Lemma assign_all_list_to_map kvs : assign_all kvs = list_to_map (reverse kvs).
Proof.
  induction kvs as [|[k v] kvs IH] using rev_ind; [done|].
  by rewrite assign_all_snoc, reverse_snoc, list_to_map_cons, IH.
Qed.

(** Reading a key gives the value of the last assignment to it. *)
Lemma assign_all_lookup kvs k :
  assign_all kvs !! k = snd <$> last (filter (λ kv, kv.1 = k) kvs).
Proof.
  induction kvs as [|[k' v] kvs IH] using rev_ind; [done|].
  rewrite assign_all_snoc, filter_app, filter_cons, filter_nil. simpl.
  destruct (decide (k' = k)) as [->|Hne].
  - by rewrite lookup_insert_eq, last_snoc.
  - by rewrite lookup_insert_ne, app_nil_r.
Qed.

Lemma assign_all_lookup_Some kvs k v :
  assign_all kvs !! k = Some v → (k, v) ∈ kvs.
Proof.
  rewrite assign_all_lookup. intros Hl.
  destruct (last _) as [[k' v']|] eqn:Hlast; simplify_eq/=.
  apply last_Some_elem_of, list_elem_of_filter in Hlast as [Hk Hin]. by simplify_eq/=.
Qed.

Lemma assign_all_dom kvs : dom (assign_all kvs) = list_to_set kvs.*1.
Proof.
  induction kvs as [|[k v] kvs IH] using rev_ind; [done|].
  rewrite assign_all_snoc, dom_insert_L, IH, fmap_app.
  change ([(k, v)].*1) with [k]. rewrite list_to_set_snoc_L.
  apply (comm_L (∪)).
Qed.

Lemma assign_all_size kvs : (size (assign_all kvs) ≤ length kvs)%nat.
Proof.
  induction kvs as [|[k v] kvs IH] using rev_ind; [done|].
  rewrite assign_all_snoc, length_app. simpl.
  destruct (assign_all kvs !! k) eqn:Hk.
  - rewrite map_size_insert_Some by eauto. lia.
  - rewrite map_size_insert_None by done. lia.
Qed.

(** As many entries as assignments: no key was assigned twice. *)
Lemma assign_all_size_NoDup kvs :
  size (assign_all kvs) = length kvs → NoDup kvs.*1.
Proof.
  induction kvs as [|[k v] kvs IH] using rev_ind; [constructor|].
  rewrite assign_all_snoc, length_app, fmap_app. simpl.
  pose proof (assign_all_size kvs) as Hle.
  destruct (assign_all kvs !! k) eqn:Hk.
  - rewrite map_size_insert_Some by eauto. lia.
  - rewrite map_size_insert_None by done. intros Hsz.
    apply NoDup_app. split; [apply IH; lia|]. split; [|apply NoDup_singleton].
    intros k' Hk' ->%list_elem_of_singleton.
    apply not_elem_of_dom in Hk. apply Hk. rewrite assign_all_dom.
    by apply elem_of_list_to_set.
Qed.

Lemma assign_all_NoDup_perm kvs :
  NoDup kvs.*1 → map_to_list (assign_all kvs) ≡ₚ kvs.
Proof.
  intros Hnd. rewrite assign_all_list_to_map.
  rewrite map_to_list_to_map.
  - apply reverse_Permutation.
  - rewrite fmap_reverse. by rewrite reverse_Permutation.
Qed.

Lemma assign_all_lookup_NoDup kvs k v :
  NoDup kvs.*1 → (k, v) ∈ kvs → assign_all kvs !! k = Some v.
Proof.
  intros Hnd Hin. rewrite assign_all_list_to_map.
  apply elem_of_list_to_map.
  - rewrite fmap_reverse. by rewrite reverse_Permutation.
  - by apply elem_of_reverse.
Qed.

Lemma assign_all_NoDup_size kvs :
  NoDup kvs.*1 → size (assign_all kvs) = length kvs.
Proof.
  intros Hnd. rewrite <- (length_map_to_list (assign_all kvs)).
  by rewrite (assign_all_NoDup_perm kvs Hnd).
Qed.

End AssignAll.

(** ** Satisfaction, fragment by fragment *)

Lemma elem_of_range (i : nat) (k : Z) : i ∈ range k ↔ (i < Z.to_nat k)%nat.
Proof. unfold range. rewrite elem_of_seq. lia. Qed.

Lemma forallb_elem_of {A : Type} (f : A → bool) (l : list A) :
  forallb f l = true ↔ ∀ a, a ∈ l → f a = true.
Proof.
  rewrite forallb_forall. split; intros H a Ha; apply H; by apply list_elem_of_In.
Qed.

Lemma satisfies_post (val : Valuation) (a b : CpModel) :
  satisfies val (post a b) = satisfies val a && satisfies val b.
Proof.
  unfold satisfies, post. simpl. rewrite !forallb_app.
  repeat match goal with |- context [forallb ?f ?l] => destruct (forallb f l) end; done.
Qed.

Lemma satisfies_post_all (val : Valuation) (ms : list CpModel) :
  satisfies val (post_all ms) = forallb (satisfies val) ms.
Proof.
  induction ms as [|m ms IH]; [done|].
  simpl. by rewrite satisfies_post, IH.
Qed.

Lemma satisfies_add_all (val : Valuation) (cs : list Constraint) :
  satisfies val (add_all cs) = forallb (constraint_holds val) cs.
Proof. done. Qed.

Lemma satisfies_declare (val : Valuation) (ds : list VarDecl) :
  satisfies val (declare ds) = forallb (in_domain val) ds.
Proof. unfold satisfies. simpl. by rewrite andb_true_r. Qed.

Lemma holds_plain (val : Valuation) (a b : LinearExpr) (r : Rel) :
  constraint_holds val (AddC (Bounded a r b)) = rel_holds r (eval val a) (eval val b).
Proof. done. Qed.

Lemma holds_enforced (val : Valuation) (a b : LinearExpr) (r : Rel) (l : Literal) :
  constraint_holds val (OnlyEnforceIf (AddC (Bounded a r b)) l)
  = implb (lit_true val l) (rel_holds r (eval val a) (eval val b)).
Proof. unfold constraint_holds. simpl. by rewrite andb_true_r. Qed.

(** Membership in a list given by its items. *)
Ltac elem_of_literal :=
  simpl; repeat first [ apply list_elem_of_here | apply list_elem_of_further ].

(** A staff member has one role. *)
Ltac role_clash :=
  match goal with
  | H1 : has_role _ ?a ?r1, H2 : has_role _ ?a ?r2 |- _ =>
    unfold has_role in H1, H2; rewrite H1 in H2; discriminate
  end.

Section Init.
Context (strptime : string → option date) (staff : list StaffMember)
        (start : string) (n : Z) (sch : OnCallScheduler).
Hypothesis Hinit : OnCallScheduler_init strptime staff start n = inr sch.

Lemma mapM_add_days (d0 : date) (l : list nat) (ds : list date) :
  mapM (λ i, add_days d0 (Z.of_nat i)) l = Some ds →
  ds = (λ i, d0 + Z.of_nat i) <$> l.
Proof.
  rewrite mapM_Some. induction 1 as [|i d l ds Hd _ IH]; [done|].
  csimpl. rewrite <- IH. f_equal.
  unfold add_days in Hd. by case_match; simplify_eq.
Qed.

Lemma init_inv :
  ∃ d0, strptime start = Some d0
    ∧ staff_members sch = staff
    ∧ num_days sch = n
    ∧ start_date sch = d0
    ∧ end_date sch = d0 + (n - 1)
    ∧ dates sch = (λ i, d0 + Z.of_nat i) <$> range n
    ∧ junior_indices sch = indices_with_role "Junior" staff
    ∧ intermediate_indices sch = indices_with_role "Intermediate" staff
    ∧ senior_indices sch = indices_with_role "Senior" staff
    ∧ weekend_day_indices sch = indices_with_weekday is_weekend (dates sch)
    ∧ friday_day_indices sch = indices_with_weekday is_friday (dates sch).
Proof.
  unfold OnCallScheduler_init in Hinit.
  destruct (strptime start) as [d0|]; [|done].
  destruct (add_days d0 (n - 1)) as [e|] eqn:He; [|done].
  destruct (mapM _ _) as [ds|] eqn:Hds; [|done].
  apply mapM_add_days in Hds. injection Hinit as <-. simpl.
  exists d0. repeat split; try done.
  unfold add_days in He. by case_match; simplify_eq.
Qed.

Lemma init_staff : staff_members sch = staff.
Proof. destruct init_inv as (d0 & ? & ? & _). done. Qed.

Lemma init_num_days : num_days sch = n.
Proof. destruct init_inv as (d0 & ? & ? & ? & _). done. Qed.

Lemma length_dates : length (dates sch) = Z.to_nat (num_days sch).
Proof.
  destruct init_inv as (d0 & ? & ? & Hn & ? & ? & Hd & _).
  rewrite Hd, Hn, length_fmap. unfold range. by rewrite length_seq.
Qed.

Lemma date_at_in_range (d : nat) :
  (d < Z.to_nat (num_days sch))%nat → date_at sch d = start_date sch + Z.of_nat d.
Proof.
  destruct init_inv as (d0 & ? & ? & Hn & Hs & ? & Hd & _). intros Hlt.
  unfold date_at. rewrite Hd, Hs, <- Hn.
  apply list_lookup_total_correct. rewrite list_lookup_fmap.
  unfold range. rewrite lookup_seq_lt by done. done.
Qed.

Lemma range_num_staff : range (num_staff sch) = seq 0 (length (staff_members sch)).
Proof. unfold range, num_staff. by rewrite Nat2Z.id. Qed.

Lemma role_indices (r : string) :
  indices_with_role r staff = filter (λ s, has_role sch s r) (seq 0 (length (staff_members sch))).
Proof.
  rewrite indices_with_role_filter, <- init_staff.
  by apply filter_ext_in.
Qed.

Lemma senior_indices_filter :
  senior_indices sch = filter (λ s, has_role sch s "Senior") (seq 0 (length (staff_members sch))).
Proof. destruct init_inv as (d0 & _ & _ & _ & _ & _ & _ & _ & _ & -> & _). apply role_indices. Qed.

Lemma junior_indices_filter :
  junior_indices sch = filter (λ s, has_role sch s "Junior") (seq 0 (length (staff_members sch))).
Proof. destruct init_inv as (d0 & _ & _ & _ & _ & _ & _ & -> & _). apply role_indices. Qed.

Lemma intermediate_indices_filter :
  intermediate_indices sch
  = filter (λ s, has_role sch s "Intermediate") (seq 0 (length (staff_members sch))).
Proof. destruct init_inv as (d0 & _ & _ & _ & _ & _ & _ & _ & -> & _). apply role_indices. Qed.

(** With 0/1 values on day [d], the sums the builder forms are counts. *)
Section Day.
Context (val : Valuation) (d : nat).
Hypothesis Hbits :
  ∀ s, (s < length (staff_members sch))%nat → val (Shift s d) = 0 ∨ val (Shift s d) = 1.

Lemma bits_seq (s : nat) :
  s ∈ seq 0 (length (staff_members sch)) → val (Shift s d) = 0 ∨ val (Shift s d) = 1.
Proof. intros Hs. apply elem_of_seq in Hs. apply Hbits. lia. Qed.

Lemma total_working_count :
  eval val (working_on (range (num_staff sch)) d)
  = Z.of_nat (length (working_set sch val d)).
Proof.
  rewrite eval_working_on, range_num_staff.
  apply (sum_indicator_all (λ s, val (Shift s d))), bits_seq.
Qed.

Lemma role_working_count (r : string) :
  eval val (working_on (filter (λ s, has_role sch s r) (seq 0 (length (staff_members sch)))) d)
  = Z.of_nat (length (working_with_role sch val d r)).
Proof.
  rewrite eval_working_on.
  apply (sum_indicator (λ s, val (Shift s d))), bits_seq.
Qed.

Lemma implb_true_iff (a b : bool) : implb a b = true ↔ (a = true → b = true).
Proof. destruct a, b; simpl; intuition congruence. Qed.

Lemma satisfies_juniors_day :
  forallb (constraint_holds val) ((λ j_idx, junior_not_alone sch j_idx d) <$> junior_indices sch)
  = true
  ↔ ∀ j, j ∈ junior_indices sch →
      val (Shift j d) <= Z.of_nat (length (working_with_role sch val d "Senior")).
Proof.
  rewrite forallb_elem_of. split.
  - intros Hj j Hjun.
    specialize (Hj (junior_not_alone sch j d)).
    unfold junior_not_alone in Hj. rewrite holds_plain in Hj. cbn [eval rel_holds] in Hj.
    rewrite senior_indices_filter, role_working_count in Hj.
    apply Z.leb_le, Hj, list_elem_of_fmap. eauto.
  - intros Hj c (j & -> & Hjun)%list_elem_of_fmap.
    unfold junior_not_alone. rewrite holds_plain. cbn [eval rel_holds].
    rewrite senior_indices_filter, role_working_count.
    by apply Z.leb_le, Hj.
Qed.

Lemma satisfies_day_model :
  satisfies val (day_model sch d) = true ↔
    0 <= val (IsPair d) <= 1
    ∧ 1 <= Z.of_nat (length (working_set sch val d)) <= 2
    ∧ (val (IsPair d) = 1 →
         Z.of_nat (length (working_set sch val d)) = 2
         ∧ Z.of_nat (length (working_with_role sch val d "Senior")) = 1
         ∧ Z.of_nat (length (working_with_role sch val d "Junior")) = 1
         ∧ Z.of_nat (length (working_with_role sch val d "Intermediate")) = 0)
    ∧ (val (IsPair d) = 0 →
         Z.of_nat (length (working_set sch val d)) = 1
         ∧ Z.of_nat (length (working_with_role sch val d "Intermediate"))
           + Z.of_nat (length (working_with_role sch val d "Senior")) = 1
         ∧ Z.of_nat (length (working_with_role sch val d "Junior")) = 0)
    ∧ (∀ j, j ∈ junior_indices sch →
         val (Shift j d) <= Z.of_nat (length (working_with_role sch val d "Senior"))).
Proof.
  unfold day_model, coverage_day.
  rewrite satisfies_post, satisfies_post_all. cbn [forallb].
  rewrite !satisfies_add_all, satisfies_declare. cbn [forallb].
  rewrite !holds_plain, !holds_enforced.
  cbn [eval rel_holds lit_true in_domain var lb ub NewBoolVar].
  rewrite total_working_count.
  rewrite senior_indices_filter at 1 2. rewrite junior_indices_filter at 1 2.
  rewrite intermediate_indices_filter.
  rewrite !role_working_count.
  unfold in_domain, NewBoolVar. cbn [var lb ub].
  rewrite !andb_true_iff, !implb_true_iff, !Z.leb_le, !Z.eqb_eq, satisfies_juniors_day.
  generalize (Z.of_nat (length (working_set sch val d))).
  generalize (Z.of_nat (length (working_with_role sch val d "Senior"))).
  generalize (Z.of_nat (length (working_with_role sch val d "Junior"))).
  generalize (Z.of_nat (length (working_with_role sch val d "Intermediate"))).
  intros ni nj ns nt. intuition lia.
Qed.

(** A day whose constraints hold is covered as the rule says. *)
Lemma covered_of_day_model :
  satisfies val (day_model sch d) = true → covered sch (working_set sch val d).
Proof.
  intros ([Hlo Hhi] & [Hge Hle] & Hpair & Hsolo & _)%satisfies_day_model.
  unfold covered, working_with_role in *.
  destruct (working_set sch val d) as [|a [|b [|c W]]]; simpl in *; try lia.
  - assert (val (IsPair d) = 0) as Hp
      by (destruct (decide (val (IsPair d) = 1)) as [Hp|]; [specialize (Hpair Hp)|]; lia).
    destruct (Hsolo Hp) as (_ & HIS & HJ). clear Hsolo Hpair.
    rewrite !filter_cons, !filter_nil in HIS.
    repeat case_decide; simpl in *; try lia; eauto.
  - assert (val (IsPair d) = 1) as Hp
      by (destruct (decide (val (IsPair d) = 0)) as [Hp|]; [specialize (Hsolo Hp)|]; lia).
    destruct (Hpair Hp) as (_ & HS & HJ & HI). clear Hsolo Hpair HI.
    rewrite !filter_cons, !filter_nil in HS, HJ.
    right; right.
    repeat case_decide; simpl in *; try lia; try role_clash;
      first [ by exists a, b | exists b, a; split; [apply Permutation_swap|done] ].
Qed.

End Day.

Lemma variables_post_all (ms : list CpModel) :
  variables (post_all ms) = ms ≫= variables.
Proof. induction ms as [|m ms IH]; [done|]. simpl. by rewrite IH. Qed.

Lemma constraints_post_all (ms : list CpModel) :
  constraints (post_all ms) = ms ≫= constraints.
Proof. induction ms as [|m ms IH]; [done|]. simpl. by rewrite IH. Qed.

(** The constraints and the indicator of day [d] are among those the
    builder posts. *)
Lemma day_model_posted (d : nat) :
  (d < Z.to_nat (num_days sch))%nat →
  (∀ c, c ∈ constraints (day_model sch d) → c ∈ constraints (build_model sch))
  ∧ (∀ v, v ∈ variables (day_model sch d) → v ∈ variables (build_model sch)).
Proof.
  intros Hd%elem_of_range.
  assert (Hcov : coverage_day sch d ∈ coverage_day sch <$> range (num_days sch))
    by (apply list_elem_of_fmap; eauto).
  split.
  - intros c Hc. unfold build_model. rewrite constraints_post_all.
    unfold day_model, post in Hc. cbn [constraints] in Hc.
    apply elem_of_app in Hc as [Hc|Hc].
    + apply list_elem_of_bind. exists (coverage sch). split; [|elem_of_literal].
      unfold coverage. rewrite constraints_post_all.
      apply list_elem_of_bind. eauto.
    + apply list_elem_of_bind. exists (juniors_not_alone sch). split; [|elem_of_literal].
      simpl. apply list_elem_of_fmap in Hc as (j & -> & Hj).
      apply list_elem_of_bind. exists j. split; [|done].
      apply list_elem_of_bind. exists d. split; [by left|done].
  - intros v Hv. unfold build_model. rewrite variables_post_all.
    unfold day_model, post in Hv. cbn [variables add_all] in Hv. rewrite app_nil_r in Hv.
    apply list_elem_of_bind. exists (coverage sch). split; [|elem_of_literal].
    unfold coverage. rewrite variables_post_all.
    apply list_elem_of_bind. eauto.
Qed.

Lemma working_set_insert_pair (val : Valuation) (d d' : nat) (p : Z) :
  working_set sch (assign (IsPair d') p val) d = working_set sch val d.
Proof. unfold working_set. by apply filter_ext_in. Qed.

Lemma satisfies_day_model_assign (val : Valuation) (d : nat) (p : Z) :
  (∀ s, (s < length (staff_members sch))%nat → val (Shift s d) = 0 ∨ val (Shift s d) = 1) →
  satisfies (assign (IsPair d) p val) (day_model sch d) = true ↔
    0 <= p <= 1
    ∧ 1 <= Z.of_nat (length (working_set sch val d)) <= 2
    ∧ (p = 1 →
         Z.of_nat (length (working_set sch val d)) = 2
         ∧ Z.of_nat (length (filter (λ s, has_role sch s "Senior") (working_set sch val d))) = 1
         ∧ Z.of_nat (length (filter (λ s, has_role sch s "Junior") (working_set sch val d))) = 1
         ∧ Z.of_nat (length (filter (λ s, has_role sch s "Intermediate") (working_set sch val d))) = 0)
    ∧ (p = 0 →
         Z.of_nat (length (working_set sch val d)) = 1
         ∧ Z.of_nat (length (filter (λ s, has_role sch s "Intermediate") (working_set sch val d)))
           + Z.of_nat (length (filter (λ s, has_role sch s "Senior") (working_set sch val d))) = 1
         ∧ Z.of_nat (length (filter (λ s, has_role sch s "Junior") (working_set sch val d))) = 0)
    ∧ (∀ j, j ∈ junior_indices sch →
         val (Shift j d)
         <= Z.of_nat (length (filter (λ s, has_role sch s "Senior") (working_set sch val d)))).
Proof.
  intros Hbits.
  rewrite satisfies_day_model by
    (intros s Hs; unfold assign; rewrite decide_False by done; by apply Hbits).
  unfold working_with_role. rewrite working_set_insert_pair.
  unfold assign. rewrite decide_True by done.
  by setoid_rewrite (decide_False (P := Shift _ d = IsPair d)).
Qed.

(** C2: for a day of the block and 0/1 values of the day's variables,
    the constraints the builder posts for the day can be met by some
    value of [pair_d] exactly when the staff on call are one
    Intermediate, or one Senior, or one Senior and one Junior. *)
Theorem coverage_rule_exact (val : Valuation) (d : nat) :
  (d < Z.to_nat (num_days sch))%nat →
  (∀ s, (s < length (staff_members sch))%nat → val (Shift s d) = 0 ∨ val (Shift s d) = 1) →
  ((∀ c, c ∈ constraints (day_model sch d) → c ∈ constraints (build_model sch))
   ∧ (∀ v, v ∈ variables (day_model sch d) → v ∈ variables (build_model sch)))
  ∧ ((∃ p, satisfies (assign (IsPair d) p val) (day_model sch d) = true)
     ↔ covered sch (working_set sch val d)).
Proof.
  intros Hd Hbits. split; [by apply day_model_posted|].
  pose proof (λ p, satisfies_day_model_assign val d p Hbits) as Hsat.
  assert (Hjun : ∀ j, j ∈ junior_indices sch →
            has_role sch j "Junior"
            ∧ (val (Shift j d) = 1 → j ∈ working_set sch val d)
            ∧ (val (Shift j d) = 0 ∨ val (Shift j d) = 1)).
  { intros j Hj. rewrite junior_indices_filter in Hj.
    apply list_elem_of_filter in Hj as [Hr Hj]. split; [done|]. split.
    - intros Hv. by apply list_elem_of_filter.
    - apply elem_of_seq in Hj. apply Hbits. lia. }
  split.
  - intros [p Hp]. apply covered_of_day_model in Hp.
    + by rewrite working_set_insert_pair in Hp.
    + intros s Hs. unfold assign. rewrite decide_False by done. by apply Hbits.
  - intros [(i & HW & Hi)|[(s & HW & Hs)|(s & j & HW & Hs & Hj)]].
    + exists 0. apply Hsat. rewrite HW. simpl.
      rewrite !filter_cons, !filter_nil.
      repeat case_decide; try role_clash; try contradiction; simpl;
        repeat split; try lia.
      intros j' Hj'. destruct (Hjun j' Hj') as (Hr & Hin & [Hv|Hv]); [lia|].
      apply Hin in Hv. rewrite HW in Hv. apply list_elem_of_singleton in Hv as ->. role_clash.
    + exists 0. apply Hsat. rewrite HW. simpl.
      rewrite !filter_cons, !filter_nil.
      repeat case_decide; try role_clash; try contradiction; simpl;
        repeat split; try lia.
      intros j' Hj'. destruct (Hjun j' Hj') as (Hr & Hin & [Hv|Hv]); lia.
    + exists 1. apply Hsat.
      assert (HS : length (filter (λ s, has_role sch s "Senior") (working_set sch val d)) = 1%nat).
      { rewrite HW. rewrite !filter_cons, !filter_nil.
        repeat case_decide; try role_clash; try contradiction; done. }
      assert (HJ : length (filter (λ s, has_role sch s "Junior") (working_set sch val d)) = 1%nat).
      { rewrite HW. rewrite !filter_cons, !filter_nil.
        repeat case_decide; try role_clash; try contradiction; done. }
      assert (HI : length (filter (λ s, has_role sch s "Intermediate") (working_set sch val d)) = 0%nat).
      { rewrite HW. rewrite !filter_cons, !filter_nil.
        repeat case_decide; try role_clash; try contradiction; done. }
      rewrite HS, HJ, HI, HW. simpl. repeat split; try lia.
      intros j' Hj'. destruct (Hjun j' Hj') as (Hr & Hin & [Hv|Hv]); lia.
Qed.

(** *** What a valuation that satisfies the whole model satisfies *)

Lemma satisfies_build_model (val : Valuation) :
  satisfies val (build_model sch) = true ↔
    satisfies val (shift_variables sch) = true
    ∧ satisfies val (coverage sch) = true
    ∧ satisfies val (back_to_back sch) = true
    ∧ satisfies val (unavailability sch) = true
    ∧ satisfies val (juniors_not_alone sch) = true
    ∧ satisfies val (target_band sch) = true
    ∧ satisfies val (weekend_balance sch) = true
    ∧ satisfies val (friday_balance sch) = true.
Proof.
  unfold build_model. rewrite satisfies_post_all. cbn [forallb].
  rewrite !andb_true_iff. tauto.
Qed.

Lemma satisfies_shift_bits (val : Valuation) (s d : nat) :
  satisfies val (shift_variables sch) = true →
  (s < length (staff_members sch))%nat → (d < Z.to_nat (num_days sch))%nat →
  val (Shift s d) = 0 ∨ val (Shift s d) = 1.
Proof.
  unfold shift_variables. rewrite satisfies_declare, forallb_elem_of.
  intros Hdom Hs Hd.
  specialize (Hdom (NewBoolVar (Shift s d))).
  unfold in_domain, NewBoolVar in Hdom. cbn [var lb ub] in Hdom.
  rewrite andb_true_iff, !Z.leb_le in Hdom.
  cut (0 <= val (Shift s d) <= 1); [lia|]. apply Hdom.
  apply list_elem_of_bind. exists s. split.
  - apply list_elem_of_bind. exists d. split; [by left|by apply elem_of_range].
  - rewrite range_num_staff. apply elem_of_seq. lia.
Qed.

Lemma satisfies_coverage_day (val : Valuation) (d : nat) :
  satisfies val (coverage sch) = true → (d < Z.to_nat (num_days sch))%nat →
  satisfies val (coverage_day sch d) = true.
Proof.
  unfold coverage. rewrite satisfies_post_all, forallb_elem_of.
  intros Hall Hd. apply Hall, list_elem_of_fmap. exists d.
  split; [done|by apply elem_of_range].
Qed.

Lemma satisfies_juniors_on_day (val : Valuation) (d : nat) :
  satisfies val (juniors_not_alone sch) = true → (d < Z.to_nat (num_days sch))%nat →
  satisfies val (add_all ((λ j_idx, junior_not_alone sch j_idx d) <$> junior_indices sch)) = true.
Proof.
  unfold juniors_not_alone. rewrite !satisfies_add_all, !forallb_elem_of.
  intros Hall Hd c (j & -> & Hj)%list_elem_of_fmap. apply Hall.
  apply list_elem_of_bind. exists j. split; [|done].
  apply list_elem_of_bind. exists d. split; [by left|by apply elem_of_range].
Qed.

(** The day's constraints are among those posted. *)
Lemma satisfies_build_day (val : Valuation) (d : nat) :
  satisfies val (build_model sch) = true → (d < Z.to_nat (num_days sch))%nat →
  satisfies val (day_model sch d) = true.
Proof.
  intros (_ & Hcov & _ & _ & Hjun & _)%satisfies_build_model Hd.
  unfold day_model. rewrite satisfies_post, andb_true_iff. split.
  - by apply satisfies_coverage_day.
  - by apply satisfies_juniors_on_day.
Qed.

Lemma covered_of_build_model (val : Valuation) (d : nat) :
  satisfies val (build_model sch) = true → (d < Z.to_nat (num_days sch))%nat →
  covered sch (working_set sch val d).
Proof.
  intros Hsat Hd. apply covered_of_day_model; [|by apply satisfies_build_day].
  intros s Hs. apply satisfies_shift_bits; [|done..].
  by apply satisfies_build_model in Hsat as (? & _).
Qed.

(** *** The decoded schedule map *)

Lemma dates_fmap_date_at : date_at sch <$> range (num_days sch) = dates sch.
Proof.
  destruct init_inv as (d0 & _ & _ & Hn & Hs & _ & Hd & _).
  rewrite Hd, <- Hn. apply Forall_fmap_ext_1, Forall_forall.
  intros d Hd'%elem_of_range. rewrite date_at_in_range by done. by rewrite Hs.
Qed.

Lemma schedule_keys (val : Valuation) :
  ((λ d, (strftime (date_at sch d), format_entry (working_staff sch val d)))
     <$> range (num_days sch)).*1
  = strftime <$> dates sch.
Proof.
  rewrite <- dates_fmap_date_at, <- !list_fmap_compose. done.
Qed.

Lemma decode_Success (val : Valuation) (b : SuccessBody) :
  decode sch val = Success b →
  Z.of_nat (size (build_schedule sch val)) = num_days sch
  ∧ schedule b = build_schedule sch val
  ∧ staff_assignments b = build_staff_assignments sch val.
Proof.
  unfold decode. case_decide as Hsz; [done|]. intros [= <-]. simpl.
  split; [|done]. by destruct (decide (Z.of_nat (size (build_schedule sch val)) = num_days sch)).
Qed.

Lemma generate_schedule_Success (solver : Solver) (random_seed : option Z) (now_ms : Z)
    (b : SuccessBody) :
  generate_schedule solver sch random_seed now_ms = Success b →
  ∃ status val,
    solver (build_model sch) (solver_seed random_seed now_ms) = (status, val)
    ∧ is_solution status = true
    ∧ decode sch val = Success b.
Proof.
  unfold generate_schedule.
  destruct (solver _ _) as [status val]. destruct (is_solution status) eqn:Hst; [|done].
  intros Hdec. by exists status, val.
Qed.

(** A success has one entry per date of the block, and the dates' keys
    are pairwise distinct. *)
Lemma success_schedule (val : Valuation) (b : SuccessBody) :
  decode sch val = Success b →
  dom (schedule b) = list_to_set (strftime <$> dates sch)
  ∧ Z.of_nat (size (schedule b)) = num_days sch
  ∧ NoDup (strftime <$> dates sch).
Proof.
  intros (Hsz & Hsched & _)%decode_Success. rewrite Hsched.
  unfold build_schedule in *. rewrite assign_all_dom, schedule_keys.
  repeat split; [done|].
  rewrite <- (schedule_keys val). apply assign_all_size_NoDup.
  rewrite length_fmap. unfold range at 2. rewrite length_seq.
  apply Nat2Z.inj. rewrite Hsz, Z2Nat.id; [done|]. rewrite <- Hsz. apply Nat2Z.is_nonneg.
Qed.

(** C3: a successful result has every date of the block as a key, each
    once, so exactly [num_days] entries; and a solver answer whose
    schedule map has another number of entries is returned as
    no_solution. *)
Theorem success_has_every_date_once (solver : Solver) (random_seed : option Z) (now_ms : Z) :
  (∀ b, generate_schedule solver sch random_seed now_ms = Success b →
     dates sch = (λ i, start_date sch + Z.of_nat i) <$> range (num_days sch)
     ∧ dom (schedule b) = list_to_set (strftime <$> dates sch)
     ∧ NoDup (strftime <$> dates sch)
     ∧ Z.of_nat (size (schedule b)) = num_days sch)
  ∧ (∀ status val,
       solver (build_model sch) (solver_seed random_seed now_ms) = (status, val) →
       is_solution status = true →
       Z.of_nat (size (build_schedule sch val)) ≠ num_days sch →
       generate_schedule solver sch random_seed now_ms
       = NoSolution ("Schedule generation error: Expected " +:+ pretty (num_days sch)
                     +:+ " days, got " +:+ pretty (Z.of_nat (size (build_schedule sch val))))).
Proof.
  split.
  - intros b (status & val & _ & _ & Hdec)%generate_schedule_Success.
    destruct (success_schedule val b Hdec) as (Hdom & Hsz & Hnd).
    repeat split; try done.
    destruct init_inv as (d0 & _ & _ & Hn & Hs & _ & Hd & _). by rewrite Hs, Hn.
  - intros status val Hsolve Hst Hsz. unfold generate_schedule.
    rewrite Hsolve, Hst. unfold decode. by rewrite decide_True.
Qed.

(** *** The balance of weekend and Friday counts *)

Lemma satisfies_balance (val : Valuation) (ds : list nat) (vmin vmax : Var) (s : nat) :
  satisfies val (balance sch ds vmin vmax) = true →
  ds ≠ [] → (2 ≤ length (staff_members sch))%nat → (s < length (staff_members sch))%nat →
  val vmin <= count_shifts val s ds <= val vmax ∧ val vmax - val vmin <= 1.
Proof.
  intros Hsat Hds Hstaff Hs. unfold balance in Hsat.
  assert (Hcond : (0 <? Z.of_nat (length ds)) && (1 <? num_staff sch) = true).
  { apply andb_true_iff. rewrite !Z.ltb_lt. unfold num_staff.
    destruct ds; [done|]. simpl. lia. }
  rewrite Hcond, satisfies_post_all in Hsat. cbn [forallb] in Hsat.
  rewrite !andb_true_iff, !satisfies_add_all in Hsat.
  destruct Hsat as (_ & Hall & Hdiff & _).
  cbn [forallb] in Hdiff. rewrite andb_true_r, holds_plain in Hdiff.
  cbn [eval rel_holds] in Hdiff. apply Z.leb_le in Hdiff.
  rewrite forallb_elem_of in Hall.
  assert (Hin : ∀ c, c ∈ [ V vmin <== shifts_over s ds; V vmax >== shifts_over s ds ] →
                constraint_holds val c = true).
  { intros c Hc. apply Hall, list_elem_of_bind. exists s. split; [done|].
    rewrite range_num_staff. apply elem_of_seq. lia. }
  pose proof (Hin _ (list_elem_of_here _ _)) as Hlo.
  pose proof (Hin _ (list_elem_of_further _ _ _ (list_elem_of_here _ _))) as Hhi.
  rewrite holds_plain in Hlo, Hhi. cbn [eval rel_holds] in Hlo, Hhi.
  rewrite eval_shifts_over in Hlo, Hhi. apply Z.leb_le in Hlo, Hhi. lia.
Qed.

Lemma weekday_indices_nonempty (p : Z → bool) (d : date) :
  d ∈ dates sch → p (weekday d) = true → indices_with_weekday p (dates sch) ≠ [].
Proof.
  intros (i & Hi)%list_elem_of_lookup Hp Hnil.
  assert (Hin : i ∈ indices_with_weekday p (dates sch)).
  { rewrite indices_with_weekday_filter. apply list_elem_of_filter. split.
    - by rewrite Hi; simpl; rewrite Hp.
    - apply elem_of_seq. apply lookup_lt_Some in Hi. lia. }
  rewrite Hnil in Hin. by apply not_elem_of_nil in Hin.
Qed.

(** Every entry of [staff_assignments] is the tally of some roster index. *)
Lemma staff_assignments_entry (val : Valuation) (nm : string) (t : Tally) :
  build_staff_assignments sch val !! nm = Some t →
  ∃ s st, staff_members sch !! s = Some st ∧ name st = nm ∧ t = tally_of sch val s st.
Proof.
  intros Hl%assign_all_lookup_Some.
  apply list_elem_of_fmap in Hl as ([s st] & [= -> ->] & Hin).
  apply elem_of_enumerate in Hin. eauto.
Qed.

Lemma foldr_max_elem (z : Z) (l : list Z) : foldr Z.max z l = z ∨ foldr Z.max z l ∈ l.
Proof.
  induction l as [|a l IH]; simpl; [by left|].
  destruct (Z.max_spec a (foldr Z.max z l)) as [[_ ->]|[_ ->]].
  - destruct IH as [->|IH]; [by left|]. right. by right.
  - right. by left.
Qed.

Lemma foldr_min_elem (z : Z) (l : list Z) : foldr Z.min z l = z ∨ foldr Z.min z l ∈ l.
Proof.
  induction l as [|a l IH]; simpl; [by left|].
  destruct (Z.min_spec a (foldr Z.min z l)) as [[_ ->]|[_ ->]].
  - right. by left.
  - destruct IH as [->|IH]; [by left|]. right. by right.
Qed.

(** Counts that pairwise differ by at most one have spread at most one. *)
Lemma spread_le_1 (l : list Z) :
  (∀ a b, a ∈ l → b ∈ l → a - b <= 1) → spread l <= 1.
Proof.
  intros Hpair. unfold spread. destruct l as [|c l]; [simpl; lia|].
  cbn [hd].
  assert (Hmax : foldr Z.max c (c :: l) ∈ c :: l)
    by (destruct (foldr_max_elem c (c :: l)) as [->|?]; [by left|done]).
  assert (Hmin : foldr Z.min c (c :: l) ∈ c :: l)
    by (destruct (foldr_min_elem c (c :: l)) as [->|?]; [by left|done]).
  by apply Hpair.
Qed.

(** C5: in a successful result the weekend counts of the staff differ by
    at most one when the block has a weekend day and there are at least
    two staff, and likewise the Friday counts when the block has a
    Friday. *)
Theorem success_balances_weekends_and_fridays (solver : Solver) (random_seed : option Z)
    (now_ms : Z) (status : Status) (val : Valuation) (b : SuccessBody) :
  solver (build_model sch) (solver_seed random_seed now_ms) = (status, val) →
  satisfies val (build_model sch) = true →
  generate_schedule solver sch random_seed now_ms = Success b →
  (2 ≤ length (staff_members sch))%nat →
  ((∃ d, d ∈ dates sch ∧ (weekday d = 5 ∨ weekday d = 6)) → spread (weekend_counts b) <= 1)
  ∧ ((∃ d, d ∈ dates sch ∧ weekday d = 4) → spread (friday_counts b) <= 1).
Proof.
  intros Hsolve Hsat Hgen Hstaff.
  apply generate_schedule_Success in Hgen as (status' & val' & Hsolve' & _ & Hdec).
  rewrite Hsolve in Hsolve'. injection Hsolve' as <- <-.
  apply decode_Success in Hdec as (_ & _ & Hsa).
  apply satisfies_build_model in Hsat as (_ & _ & _ & _ & _ & _ & Hwk & Hfr).
  destruct init_inv as (d0 & _ & _ & _ & _ & _ & _ & _ & _ & _ & Hwi & Hfi).
  assert (Hentry : ∀ t, t ∈ (map_to_list (staff_assignments b)).*2 →
            ∃ s st, (s < length (staff_members sch))%nat ∧ t = tally_of sch val s st).
  { intros t ([nm t'] & -> & Hin)%list_elem_of_fmap.
    apply elem_of_map_to_list in Hin. rewrite Hsa in Hin.
    apply staff_assignments_entry in Hin as (s & st & Hs & _ & ->).
    exists s, st. split; [by apply lookup_lt_Some in Hs|done]. }
  split.
  - intros (d & Hd & Hwd). apply spread_le_1.
    intros x y (tx & -> & Hx)%list_elem_of_fmap (ty & -> & Hy)%list_elem_of_fmap.
    apply Hentry in Hx as (sx & stx & Hsx & ->), Hy as (sy & sty & Hsy & ->). simpl.
    assert (Hne : weekend_day_indices sch ≠ []).
    { rewrite Hwi. apply (weekday_indices_nonempty _ d Hd).
      unfold is_weekend. destruct Hwd as [-> | ->]; done. }
    pose proof (satisfies_balance val _ _ _ sx Hwk Hne Hstaff Hsx).
    pose proof (satisfies_balance val _ _ _ sy Hwk Hne Hstaff Hsy). lia.
  - intros (d & Hd & Hwd). apply spread_le_1.
    intros x y (tx & -> & Hx)%list_elem_of_fmap (ty & -> & Hy)%list_elem_of_fmap.
    apply Hentry in Hx as (sx & stx & Hsx & ->), Hy as (sy & sty & Hsy & ->). simpl.
    assert (Hne : friday_day_indices sch ≠ []).
    { rewrite Hfi. apply (weekday_indices_nonempty _ d Hd).
      unfold is_friday, is_weekend. by rewrite Hwd. }
    pose proof (satisfies_balance val _ _ _ sx Hfr Hne Hstaff Hsx).
    pose proof (satisfies_balance val _ _ _ sy Hfr Hne Hstaff Hsy). lia.
Qed.

(** *** The staff on call, by record and by index *)

Lemma working_staff_set (val : Valuation) (d : nat) :
  Forall2 (λ w s, ∃ st, staff_members sch !! s = Some st ∧ w = (name st, role st))
          (working_staff sch val d) (working_set sch val d).
Proof.
  unfold working_staff, working_set.
  induction (staff_members sch) as [|a l IH] using rev_ind; [constructor|].
  rewrite enumerate_snoc, bind_app, length_app. simpl.
  rewrite Nat.add_1_r, seq_S, filter_app. simpl.
  apply Forall2_app.
  - eapply Forall2_impl; [exact IH|]. intros w s (st & Hst & ->).
    exists st. split; [|done]. by apply lookup_app_l_Some.
  - rewrite filter_cons, filter_nil, app_nil_r.
    destruct (decide (val (Shift (length l) d) = 1)); [|constructor].
    repeat constructor. exists a. split; [|done].
    by rewrite lookup_app_r, Nat.sub_diag.
Qed.

Lemma first_with_role_cons (r : string) (w : string * string) (ws : list (string * string)) :
  first_with_role r (w :: ws) = if decide (w.2 = r) then Some w else first_with_role r ws.
Proof. unfold first_with_role. rewrite filter_cons. by destruct (decide (w.2 = r)). Qed.

(** On a covered day the entry gives the date once per staff on call. *)
Lemma entry_dates_covered (val : Valuation) (d : nat) (k : string) :
  covered sch (working_set sch val d) →
  entry_dates (k, format_entry (working_staff sch val d))
  = (λ _, k) <$> working_set sch val d.
Proof.
  intros Hcov. pose proof (working_staff_set val d) as Hws.
  assert (Hpair : ∀ s j ws, has_role sch s "Senior" → has_role sch j "Junior" →
            Forall2 (λ w s, ∃ st, staff_members sch !! s = Some st ∧ w = (name st, role st))
                    ws [s; j] ∨
            Forall2 (λ w s, ∃ st, staff_members sch !! s = Some st ∧ w = (name st, role st))
                    ws [j; s] →
            entry_dates (k, format_entry ws) = [k; k]).
  { intros s j ws Hs Hj Hf. unfold has_role in Hs, Hj.
    destruct Hf as [Hf|Hf];
      apply Forall2_cons_inv_r in Hf as (w1 & ws1 & (st1 & Hst1 & ->) & Hf & ->);
      apply Forall2_cons_inv_r in Hf as (w2 & ws2 & (st2 & Hst2 & ->) & Hf & ->);
      apply Forall2_nil_inv_r in Hf as ->;
      rewrite Hst1 in *; rewrite Hst2 in *; simplify_eq/=;
      unfold format_entry; rewrite !first_with_role_cons; simpl;
      repeat match goal with H : role _ = _ |- _ => rewrite H end; simpl; done. }
  destruct Hcov as [(i & HW & _)|[(s & HW & _)|(s & j & HW & Hs & Hj)]].
  - rewrite HW in *.
    apply Forall2_cons_inv_r in Hws as (w & ws & _ & Hws & ->).
    by apply Forall2_nil_inv_r in Hws as ->.
  - rewrite HW in *.
    apply Forall2_cons_inv_r in Hws as (w & ws & _ & Hws & ->).
    by apply Forall2_nil_inv_r in Hws as ->.
  - symmetry in HW. apply Permutation.Permutation_length_2_inv in HW as [HW|HW];
      rewrite HW in *; simpl.
    + apply (Hpair s j); auto.
    + apply (Hpair s j); auto.
Qed.

(** *** The days lists against the schedule map *)

(** The dates of the days on which staff [s] is on call, day by day. *)
Lemma days_as_bind (val : Valuation) (s : nat) (st : StaffMember) :
  days (tally_of sch val s st)
  = range (num_days sch)
      ≫= (λ d, if decide (val (Shift s d) = 1) then [strftime (date_at sch d)] else []).
Proof. simpl. by rewrite fmap_bind_singleton, filter_bind. Qed.

Lemma all_days_by_staff (val : Valuation) :
  ((λ p, (name p.2, tally_of sch val p.1 p.2)) <$> enumerate (staff_members sch))
    ≫= (λ kv, days kv.2)
  = seq 0 (length (staff_members sch))
      ≫= (λ s, range (num_days sch)
                 ≫= (λ d, if decide (val (Shift s d) = 1)
                          then [strftime (date_at sch d)] else [])).
Proof.
  rewrite list_fmap_bind, <- enumerate_fst, list_fmap_bind.
  apply bind_ext_in. intros [s st] _. apply days_as_bind.
Qed.

Lemma implied_dates_by_day (val : Valuation) :
  satisfies val (build_model sch) = true →
  ((λ d, (strftime (date_at sch d), format_entry (working_staff sch val d)))
     <$> range (num_days sch))
    ≫= entry_dates
  = range (num_days sch)
      ≫= (λ d, seq 0 (length (staff_members sch))
                 ≫= (λ s, if decide (val (Shift s d) = 1)
                          then [strftime (date_at sch d)] else [])).
Proof.
  intros Hsat. rewrite list_fmap_bind.
  apply bind_ext_in. intros d Hd%elem_of_range. simpl.
  rewrite entry_dates_covered by by apply covered_of_build_model.
  unfold working_set. by rewrite fmap_bind_singleton, filter_bind.
Qed.

(** Taken per roster index, the days lists match the schedule map
    whatever the names are. *)
Lemma days_by_index_match_schedule (val : Valuation) (b : SuccessBody) :
  satisfies val (build_model sch) = true →
  decode sch val = Success b →
  list_to_set_disj (enumerate (staff_members sch) ≫= (λ p, days (tally_of sch val p.1 p.2)))
  =@{gmultiset string} implied_dates (schedule b).
Proof.
  intros Hsat Hdec.
  destruct (success_schedule val b Hdec) as (_ & _ & Hkeys).
  apply decode_Success in Hdec as (_ & -> & _).
  unfold implied_dates, build_schedule. apply leibniz_equiv.
  rewrite (assign_all_NoDup_perm (V := ScheduleEntry)) by by rewrite schedule_keys.
  rewrite implied_dates_by_day by done.
  rewrite <- bind_swap, <- all_days_by_staff. by rewrite list_fmap_bind.
Qed.

(** C4, for rosters without repeated names: the [days] lists of a
    successful result, taken together, are the dates the schedule map
    implies, a string entry counting once and a pair record twice. *)
Theorem days_match_schedule_when_names_differ (solver : Solver) (random_seed : option Z)
    (now_ms : Z) (status : Status) (val : Valuation) (b : SuccessBody) :
  NoDup (name <$> staff_members sch) →
  solver (build_model sch) (solver_seed random_seed now_ms) = (status, val) →
  satisfies val (build_model sch) = true →
  generate_schedule solver sch random_seed now_ms = Success b →
  all_days (staff_assignments b) = implied_dates (schedule b).
Proof.
  intros Hnames Hsolve Hsat Hgen.
  apply generate_schedule_Success in Hgen as (status' & val' & Hsolve' & _ & Hdec).
  rewrite Hsolve in Hsolve'. injection Hsolve' as <- <-.
  rewrite <- (days_by_index_match_schedule val b Hsat Hdec).
  apply decode_Success in Hdec as (_ & _ & ->).
  unfold all_days, build_staff_assignments. apply leibniz_equiv.
  rewrite (assign_all_NoDup_perm (V := Tally)).
  - by rewrite list_fmap_bind.
  - rewrite <- list_fmap_compose.
    change (fst ∘ _) with (name ∘ (snd : nat * StaffMember → StaffMember)).
    by rewrite list_fmap_compose, enumerate_snd.
Qed.

(** *** Rosters with repeated names *)

Lemma shift_variable_declared (s d : nat) :
  (s < length (staff_members sch))%nat → (d < Z.to_nat (num_days sch))%nat →
  NewBoolVar (Shift s d) ∈ variables (build_model sch).
Proof.
  intros Hs Hd. unfold build_model. rewrite variables_post_all, bind_cons.
  apply elem_of_app. left. simpl.
  apply list_elem_of_bind. exists s. split.
  - apply list_elem_of_bind. exists d. split; [by left|by apply elem_of_range].
  - rewrite range_num_staff. apply elem_of_seq. lia.
Qed.

Lemma staff_assignments_lookup (val : Valuation) (nm : string) :
  build_staff_assignments sch val !! nm
  = (λ p, tally_of sch val p.1 p.2) <$> last_named nm (staff_members sch).
Proof.
  unfold build_staff_assignments, last_named.
  rewrite assign_all_lookup, filter_fmap, fmap_last, <- option_fmap_compose. done.
Qed.

(** C7, as the code has it: repeated names are accepted and every roster
    index keeps its own variables, but [staff_assignments] is keyed by
    name, so the records that share a name share one entry, the tally of
    the last of them. *)
Theorem same_name_staff_share_one_entry (solver : Solver) (random_seed : option Z)
    (now_ms : Z) (status : Status) (val : Valuation) (b : SuccessBody) :
  solver (build_model sch) (solver_seed random_seed now_ms) = (status, val) →
  generate_schedule solver sch random_seed now_ms = Success b →
  (∀ s d, (s < length (staff_members sch))%nat → (d < Z.to_nat (num_days sch))%nat →
     NewBoolVar (Shift s d) ∈ variables (build_model sch))
  ∧ dom (staff_assignments b) = list_to_set (name <$> staff_members sch)
  ∧ (∀ nm, staff_assignments b !! nm
           = (λ p, tally_of sch val p.1 p.2) <$> last_named nm (staff_members sch)).
Proof.
  intros Hsolve Hgen.
  apply generate_schedule_Success in Hgen as (status' & val' & Hsolve' & _ & Hdec).
  rewrite Hsolve in Hsolve'. injection Hsolve' as <- <-.
  apply decode_Success in Hdec as (_ & _ & ->).
  split; [apply shift_variable_declared|]. split.
  - unfold build_staff_assignments. rewrite assign_all_dom, <- list_fmap_compose.
    change (fst ∘ _) with (name ∘ (snd : nat * StaffMember → StaffMember)).
    by rewrite list_fmap_compose, enumerate_snd.
  - apply staff_assignments_lookup.
Qed.

(** *** Days the valuation leaves uncovered *)

Lemma format_entry_unassigned (ws : list (string * string)) :
  (length ws = 0 ∨ 2 < length ws)%nat → format_entry ws = EStr "Unassigned".
Proof. destruct ws as [|? [|? [|? ?]]]; simpl; intros [?|?]; done || lia. Qed.

(** *** The personal constraints *)

Lemma satisfies_back_to_back (val : Valuation) (s d : nat) :
  satisfies val (back_to_back sch) = true →
  (s < length (staff_members sch))%nat → (d < Z.to_nat (num_days sch - 1))%nat →
  val (Shift s d) + val (Shift s (d + 1)) <= 1.
Proof.
  unfold back_to_back. rewrite satisfies_add_all, forallb_elem_of. intros Hall Hs Hd.
  specialize (Hall (Add (x s d) (x s (d + 1)) <== Const 1)).
  rewrite holds_plain in Hall. cbn [eval rel_holds x] in Hall.
  apply Z.leb_le, Hall, list_elem_of_bind. exists s. split.
  - apply list_elem_of_bind. exists d. split; [by left|by apply elem_of_range].
  - rewrite range_num_staff. apply elem_of_seq. lia.
Qed.

Lemma satisfies_unavailability (val : Valuation) (s d : nat) (st : StaffMember) (day : date) :
  satisfies val (unavailability sch) = true →
  staff_members sch !! s = Some st → day ∈ unavailable_days st →
  date_to_index sch !! day = Some d →
  val (Shift s d) = 0.
Proof.
  unfold unavailability. rewrite satisfies_add_all, forallb_elem_of. intros Hall Hs Hday Hidx.
  specialize (Hall (x s d === Const 0)).
  rewrite holds_plain in Hall. cbn [eval rel_holds x] in Hall.
  apply Z.eqb_eq, Hall, list_elem_of_bind. exists (s, st). split.
  - apply list_elem_of_bind. exists day. split; [|done]. rewrite Hidx. by left.
  - by apply elem_of_enumerate.
Qed.

(** The band the builder posts: target minus one, but not below zero, to
    target plus one. *)
Lemma satisfies_target_band (val : Valuation) (s : nat) (st : StaffMember) :
  satisfies val (target_band sch) = true →
  staff_members sch !! s = Some st →
  Z.max 0 (target_shifts st - 1) <= count_shifts val s (range (num_days sch))
  <= target_shifts st + 1.
Proof.
  unfold target_band. rewrite satisfies_add_all, forallb_elem_of. intros Hall Hs.
  assert (Hin : ∀ c,
            c ∈ [ shifts_over s (range (num_days sch)) >== Const (Z.max 0 (target_shifts st - 1));
                  shifts_over s (range (num_days sch)) <== Const (target_shifts st + 1) ] →
            constraint_holds val c = true).
  { intros c Hc. apply Hall, list_elem_of_bind. exists (s, st).
    split; [done|by apply elem_of_enumerate]. }
  pose proof (Hin _ (list_elem_of_here _ _)) as Hlo.
  pose proof (Hin _ (list_elem_of_further _ _ _ (list_elem_of_here _ _))) as Hhi.
  rewrite holds_plain in Hlo, Hhi. cbn [eval rel_holds] in Hlo, Hhi.
  rewrite eval_shifts_over in Hlo, Hhi. apply Z.leb_le in Hlo, Hhi. lia.
Qed.

(** When the dates of the block print differently and the block is not
    negative, the count check passes and the decoder returns a success. *)
Lemma decode_succeeds (val : Valuation) :
  NoDup (strftime <$> dates sch) → 0 <= num_days sch →
  decode sch val
  = Success (mkSuccess (strftime (start_date sch)) (strftime (end_date sch))
               (build_schedule sch val) (build_staff_assignments sch val)).
Proof.
  intros Hnd Hn. unfold decode. rewrite decide_False; [done|].
  intros Hne. apply Hne. unfold build_schedule.
  rewrite assign_all_NoDup_size by by rewrite schedule_keys.
  rewrite length_fmap. unfold range. rewrite length_seq. lia.
Qed.

(** The dates of the block lie in the calendar, so their keys differ. *)
Lemma dates_in_calendar :
  Forall (λ day, MINORDINAL <= day <= MAXORDINAL) (dates sch).
Proof.
  unfold OnCallScheduler_init in Hinit.
  destruct (strptime start) as [d0|]; [|done].
  destruct (add_days d0 (n - 1)) as [e|]; [|done].
  destruct (mapM _ _) as [ds|] eqn:Hds; [|done].
  injection Hinit as <-. simpl. apply mapM_Some in Hds.
  induction Hds as [|i day l ds Hday _ IH]; constructor; [|done].
  unfold add_days in Hday. case_match; [|done]. simplify_eq.
  apply andb_true_iff in H as [?%Z.leb_le ?%Z.leb_le]. done.
Qed.

Lemma keys_NoDup : NoDup (strftime <$> dates sch).
Proof.
  pose proof dates_in_calendar as Hcal. rewrite Forall_forall in Hcal.
  apply NoDup_fmap_2_strong.
  - intros a b Ha Hb. apply strftime_inj; by apply Hcal.
  - destruct init_inv as (d0 & _ & _ & _ & _ & _ & -> & _).
    apply NoDup_fmap_2; [|apply NoDup_seq]. intros i j Hij. lia.
Qed.

(** C8, as the code has it: when the engine reports a solution in which
    a day has nobody, or more than two staff, on call, the decoder does
    not fail; the call returns a success, and the success carries the
    string "Unassigned" for that day. *)
Theorem uncovered_day_reads_unassigned (solver : Solver) (random_seed : option Z)
    (now_ms : Z) (status : Status) (val : Valuation) (d : nat) :
  solver (build_model sch) (solver_seed random_seed now_ms) = (status, val) →
  is_solution status = true →
  (d < Z.to_nat (num_days sch))%nat →
  (length (working_set sch val d) = 0 ∨ 2 < length (working_set sch val d))%nat →
  ∃ b, generate_schedule solver sch random_seed now_ms = Success b
       ∧ schedule b !! strftime (date_at sch d) = Some (EStr "Unassigned").
Proof.
  intros Hsolve Hst Hd Hlen. unfold generate_schedule. rewrite Hsolve, Hst.
  rewrite (decode_succeeds val keys_NoDup) by lia.
  eexists. split; [done|]. simpl.
  unfold build_schedule. apply assign_all_lookup_NoDup.
  - rewrite schedule_keys. apply keys_NoDup.
  - apply list_elem_of_fmap. exists d. split; [|by apply elem_of_range].
    rewrite format_entry_unassigned; [done|].
    by rewrite (Forall2_length _ _ _ (working_staff_set val d)).
Qed.

End Init.

(** ** The relaxation pass *)

Lemma set_target_shifts_id (s : StaffMember) : set_target_shifts (target_shifts s) s = s.
Proof. by destruct s. Qed.

Lemma set_staff_members_id (sch : OnCallScheduler) :
  set_staff_members (staff_members sch) sch = sch.
Proof. by destruct sch. Qed.

(** Raising the targets to at least 1 changes nothing when they already
    are at least 1. *)
Lemma relax_targets_id (staff : list StaffMember) :
  Forall (λ s, 1 <= target_shifts s) staff → relax_targets staff = staff.
Proof.
  unfold relax_targets. induction 1 as [|s staff Hs _ IH]; [done|].
  rewrite fmap_cons, IH. f_equal.
  rewrite Z.max_r by done. apply set_target_shifts_id.
Qed.

(** Writing the saved targets back gives the staff their first targets. *)
Lemma restore_relaxed_targets (staff : list StaffMember) :
  restore_targets (relax_targets staff) (target_shifts <$> staff) = staff.
Proof.
  unfold restore_targets, relax_targets.
  induction staff as [|s staff IH]; [done|].
  rewrite !fmap_cons. simpl. rewrite IH. f_equal. by destruct s.
Qed.

(** The call leaves the scheduler as it found it. *)
Lemma relaxation_restores_scheduler (solver : Solver) (sch : OnCallScheduler)
    (random_seed : option Z) (now_ms1 now_ms2 : Z) :
  (generate_schedule_with_relaxation solver sch random_seed now_ms1 now_ms2).2 = sch.
Proof.
  unfold generate_schedule_with_relaxation.
  destruct (is_success _); [done|]. simpl.
  rewrite restore_relaxed_targets. by destruct sch.
Qed.

(** What the two-phase call returns is what [generate_schedule] returns,
    on the scheduler as given or, when that fails, on the scheduler with
    the targets raised. *)
Lemma two_phase_result (solver : Solver) (sch : OnCallScheduler)
    (random_seed : option Z) (now_ms1 now_ms2 : Z) :
  (generate_schedule_with_relaxation solver sch random_seed now_ms1 now_ms2).1
  = if is_success (generate_schedule solver sch random_seed now_ms1)
    then generate_schedule solver sch random_seed now_ms1
    else generate_schedule solver
           (set_staff_members (relax_targets (staff_members sch)) sch) random_seed now_ms2.
Proof.
  unfold generate_schedule_with_relaxation. by destruct (is_success _).
Qed.

(** Roles are not touched by the relaxation: the constructor run on the
    relaxed staff gives the scheduler of the second attempt. *)
Lemma init_relaxed (strptime : string → option date) (staff : list StaffMember)
    (start : string) (n : Z) (sch : OnCallScheduler) :
  OnCallScheduler_init strptime staff start n = inr sch →
  OnCallScheduler_init strptime (relax_targets staff) start n
  = inr (set_staff_members (relax_targets (staff_members sch)) sch).
Proof.
  unfold OnCallScheduler_init.
  destruct (strptime start) as [d0|]; [|done].
  destruct (add_days d0 (n - 1)) as [e|]; [|done].
  destruct (mapM _ _) as [ds|]; [|done].
  intros [= <-]. unfold set_staff_members. simpl.
  assert (Hrole : ∀ r, indices_with_role r (relax_targets staff) = indices_with_role r staff).
  { intros r. rewrite !indices_with_role_filter. unfold relax_targets.
    rewrite length_fmap. apply filter_ext_in. intros i _.
    rewrite list_lookup_fmap. by destruct (staff !! i). }
  by rewrite !Hrole.
Qed.

(** C10, for rosters whose targets are all at least 1: the second
    attempt posts the model of the first, so for a given seed the
    two-phase call returns what the strict call returns, and reports
    no_solution exactly when the strict call does. *)
Theorem relaxed_attempt_repeats_strict_attempt (solver : Solver) (sch : OnCallScheduler)
    (seed now_ms1 now_ms2 : Z) :
  Forall (λ s, 1 <= target_shifts s) (staff_members sch) →
  relax_targets (staff_members sch) = staff_members sch
  ∧ relaxed_attempt_model sch = build_model sch
  ∧ generate_schedule_with_relaxation solver sch (Some seed) now_ms1 now_ms2
    = (generate_schedule solver sch (Some seed) now_ms1, sch)
  ∧ (is_success (generate_schedule_with_relaxation solver sch (Some seed) now_ms1 now_ms2).1
     = is_success (generate_schedule solver sch (Some seed) now_ms1)).
Proof.
  intros Htargets.
  pose proof (relax_targets_id _ Htargets) as Hid.
  assert (Hmodel : relaxed_attempt_model sch = build_model sch)
    by (unfold relaxed_attempt_model; by rewrite Hid, set_staff_members_id).
  assert (Hcall : generate_schedule_with_relaxation solver sch (Some seed) now_ms1 now_ms2
                  = (generate_schedule solver sch (Some seed) now_ms1, sch)).
  { unfold generate_schedule_with_relaxation.
    destruct (is_success _) eqn:Hs; [done|].
    rewrite Hid, !set_staff_members_id.
    rewrite <- Hid at 1. rewrite restore_relaxed_targets, set_staff_members_id. done. }
  by rewrite Hcall.
Qed.

(** ** The calendar and the request gate *)

Lemma mapM_add_days_Some (d0 : date) (l : list nat) :
  (∀ i, i ∈ l → MINORDINAL <= d0 + Z.of_nat i <= MAXORDINAL) →
  mapM (λ i, add_days d0 (Z.of_nat i)) l = Some ((λ i, d0 + Z.of_nat i) <$> l).
Proof.
  intros Hl. apply mapM_Some, Forall2_fmap_r, Forall_Forall2_diag, Forall_forall.
  intros i Hi. unfold add_days.
  destruct (Hl i Hi) as [Hlo Hhi].
  apply Z.leb_le in Hlo, Hhi. by rewrite Hlo, Hhi.
Qed.

(** The constructor succeeds on any block that stays within the dates
    Python has, whatever its length. *)
Lemma init_succeeds (strptime : string → option date) (staff : list StaffMember)
    (start : string) (n : Z) (d0 : date) :
  strptime start = Some d0 → 1 <= n → MINORDINAL <= d0 → d0 + n - 1 <= MAXORDINAL →
  ∃ sch, OnCallScheduler_init strptime staff start n = inr sch
         ∧ start_date sch = d0
         ∧ dates sch = (λ i, d0 + Z.of_nat i) <$> range n
         ∧ Z.of_nat (length (dates sch)) = n.
Proof.
  intros Hparse Hn Hlo Hhi. unfold OnCallScheduler_init. rewrite Hparse.
  unfold add_days at 1.
  assert (Hend : (MINORDINAL <=? d0 + (n - 1)) && (d0 + (n - 1) <=? MAXORDINAL) = true)
    by (apply andb_true_iff; rewrite !Z.leb_le; lia).
  rewrite Hend, mapM_add_days_Some.
  - eexists. split; [done|]. simpl. repeat split.
    rewrite length_fmap. unfold range. rewrite length_seq. lia.
  - intros i Hi%elem_of_range. lia.
Qed.

(** C9, as the code has it: the bounds 7 and 90 are checked when the
    request is parsed, not by the calendar's constructor, which builds
    the consecutive dates of a block of any length that ends by
    9999-12-31. *)
Theorem num_days_is_checked_by_the_request :
  (∀ req, Api.req_num_days req < 7 ∨ 90 < Api.req_num_days req →
     ∃ errors, Api.ScheduleRequest_validate req = inl errors
               ∧ Api.NumDaysOutOfRange ∈ errors)
  ∧ (∀ req, 7 <= Api.req_num_days req <= 90 →
       Api.NumDaysOutOfRange ∉ Api.ScheduleRequest_errors req)
  ∧ (∀ strptime staff start n d0,
       strptime start = Some d0 → 1 <= n → MINORDINAL <= d0 → d0 + n - 1 <= MAXORDINAL →
       ∃ sch, OnCallScheduler_init strptime staff start n = inr sch
              ∧ start_date sch = d0
              ∧ dates sch = (λ i, d0 + Z.of_nat i) <$> range n
              ∧ Z.of_nat (length (dates sch)) = n).
Proof.
  split; [|split].
  - intros req Hout. unfold Api.ScheduleRequest_validate, Api.ScheduleRequest_errors.
    assert (Hrange : (7 <=? Api.req_num_days req) && (Api.req_num_days req <=? 90) = false)
      by (apply andb_false_iff; rewrite !Z.leb_gt; lia).
    rewrite Hrange. destruct (forallb _ _); simpl; eexists; (split; [done|elem_of_literal]).
  - intros req [Hlo Hhi]. unfold Api.ScheduleRequest_errors.
    apply Z.leb_le in Hlo, Hhi. rewrite Hlo, Hhi. simpl. rewrite app_nil_r.
    destruct (forallb _ _); [apply not_elem_of_nil|].
    intros Hin%list_elem_of_singleton. discriminate.
  - apply init_succeeds.
Qed.

Import Examples.

(** ** Scenario 5: two Seniors with target 7 over 7 days *)

Lemma two_seniors_init :
  OnCallScheduler_init strptime_padded two_seniors_staff "2024-12-02" 7 = inr two_seniors.
Proof. reflexivity. Qed.

(** Nobody can work six of seven days without working two days running. *)
Lemma two_seniors_strict_infeasible (val : Valuation) :
  satisfies val (build_model two_seniors) = false.
Proof.
  apply not_true_is_false. intros Hsat.
  pose proof (satisfies_build_model two_seniors val) as [Hparts _].
  destruct (Hparts Hsat) as (Hbits & _ & Hb2b & _ & _ & Hband & _).
  pose proof (λ d, satisfies_shift_bits two_seniors val 0 d Hbits) as Hbit.
  pose proof (λ d, satisfies_back_to_back two_seniors val 0 d Hb2b) as Hbb.
  pose proof (satisfies_target_band two_seniors val 0 _ Hband eq_refl) as Hlo.
  change (range (num_days two_seniors)) with [0; 1; 2; 3; 4; 5; 6]%nat in Hlo.
  unfold count_shifts, sumZ in Hlo. cbn [fmap list_fmap foldl target_shifts] in Hlo.
  change (length (staff_members two_seniors)) with 2%nat in Hbit, Hbb.
  change (Z.to_nat (num_days two_seniors - 1)) with 6%nat in Hbb.
  change (Z.to_nat (num_days two_seniors)) with 7%nat in Hbit.
  pose proof (Hbb 0%nat ltac:(lia) ltac:(lia)).
  pose proof (Hbb 2%nat ltac:(lia) ltac:(lia)).
  pose proof (Hbb 4%nat ltac:(lia) ltac:(lia)).
  pose proof (Hbit 6%nat ltac:(lia) ltac:(lia)).
  simpl in *. lia.
Qed.

Lemma sound_answer_is_no_solution (solver : Solver) (sch : OnCallScheduler)
    (random_seed : option Z) (now_ms : Z) :
  (∀ val, satisfies val (build_model sch) = false) →
  (∀ st val, solver (build_model sch) (solver_seed random_seed now_ms) = (st, val) →
             is_solution st = true → satisfies val (build_model sch) = true) →
  generate_schedule solver sch random_seed now_ms
  = NoSolution "Could not find a valid schedule that satisfies all constraints".
Proof.
  intros Hunsat Hsound. unfold generate_schedule.
  destruct (solver _ _) as [st val] eqn:Hsolve.
  destruct (is_solution st) eqn:Hst; [|done].
  specialize (Hsound st val eq_refl Hst). by rewrite Hunsat in Hsound.
Qed.

(** C1 at Scenario 5: the second attempt posts the model of the first,
    target band included and no lower bound of one shift, so the split
    of four and three days that the specification's relaxed model
    accepts is refused and the call ends in no_solution. *)
Theorem relaxation_keeps_target_band_two_seniors :
  relaxed_attempt_model two_seniors = build_model two_seniors
  ∧ satisfies alternating (Spec.relaxed_model two_seniors) = true
  ∧ (∀ val, satisfies val (relaxed_attempt_model two_seniors) = false)
  ∧ (∀ solver random_seed now_ms1 now_ms2,
       (∀ m seed st val, solver m seed = (st, val) → is_solution st = true →
                         satisfies val m = true) →
       (generate_schedule_with_relaxation solver two_seniors random_seed now_ms1 now_ms2).1
       = NoSolution "Could not find a valid schedule that satisfies all constraints").
Proof.
  assert (Hsame : relaxed_attempt_model two_seniors = build_model two_seniors) by reflexivity.
  split; [done|]. split; [reflexivity|]. split.
  - intros val. rewrite Hsame. apply two_seniors_strict_infeasible.
  - intros solver random_seed now_ms1 now_ms2 Hsound.
    unfold generate_schedule_with_relaxation.
    rewrite (sound_answer_is_no_solution solver two_seniors random_seed now_ms1)
      by (apply two_seniors_strict_infeasible || (intros; by eapply Hsound)).
    cbn [is_success fst].
    apply sound_answer_is_no_solution.
    + intros val. fold (relaxed_attempt_model two_seniors). rewrite Hsame.
      apply two_seniors_strict_infeasible.
    + intros; by eapply Hsound.
Qed.

(** ** A roster whose relaxed success leaves one member idle *)

Lemma idle_init :
  OnCallScheduler_init strptime_padded idle_staff "2024-12-02" 7 = inr idle.
Proof. reflexivity. Qed.

Lemma idle_relaxed_init :
  OnCallScheduler_init strptime_padded (relax_targets idle_staff) "2024-12-02" 7
  = inr (set_staff_members (relax_targets (staff_members idle)) idle).
Proof. apply init_relaxed, idle_init. Qed.

(** The strict band lets A work at most four days, B and C one each, and
    D is unavailable all week: six shifts at most for seven days. *)
Lemma idle_strict_infeasible (val : Valuation) :
  satisfies val (build_model idle) = false.
Proof.
  apply not_true_is_false. intros Hsat.
  pose proof (satisfies_build_model idle val) as [Hparts _].
  destruct (Hparts Hsat) as (Hbits & Hcov & _ & Hun & _ & Hband & _).
  pose proof (satisfies_target_band idle val 0 _ Hband eq_refl) as HA.
  pose proof (satisfies_target_band idle val 1 _ Hband eq_refl) as HB.
  pose proof (satisfies_target_band idle val 2 _ Hband eq_refl) as HC.
  pose proof (λ d day, satisfies_unavailability idle val 3 d _ day Hun eq_refl) as HD.
  assert (Hday : ∀ d, (d < 7)%nat →
            1 <= val (Shift 0 d) + val (Shift 1 d) + val (Shift 2 d) + val (Shift 3 d)).
  { intros d Hd.
    pose proof (satisfies_coverage_day idle val d Hcov Hd) as Hc.
    unfold coverage_day in Hc. rewrite satisfies_post_all in Hc. cbn [forallb] in Hc.
    rewrite !andb_true_iff, satisfies_add_all in Hc. destruct Hc as (Hc & _).
    cbn [forallb] in Hc. rewrite !andb_true_iff, holds_plain in Hc.
    destruct Hc as (Hc & _). cbn [rel_holds] in Hc. apply Z.leb_le in Hc.
    rewrite eval_working_on in Hc. simpl in Hc. lia. }
  change (range (num_days idle)) with [0; 1; 2; 3; 4; 5; 6]%nat in HA, HB, HC.
  unfold count_shifts, sumZ in HA, HB, HC. cbn [fmap list_fmap foldl target_shifts] in HA, HB, HC.
  pose proof (HD 0%nat 739222 ltac:(elem_of_literal) eq_refl).
  pose proof (HD 1%nat 739223 ltac:(elem_of_literal) eq_refl).
  pose proof (HD 2%nat 739224 ltac:(elem_of_literal) eq_refl).
  pose proof (HD 3%nat 739225 ltac:(elem_of_literal) eq_refl).
  pose proof (HD 4%nat 739226 ltac:(elem_of_literal) eq_refl).
  pose proof (HD 5%nat 739227 ltac:(elem_of_literal) eq_refl).
  pose proof (HD 6%nat 739228 ltac:(elem_of_literal) eq_refl).
  pose proof (Hday 0%nat ltac:(lia)). pose proof (Hday 1%nat ltac:(lia)).
  pose proof (Hday 2%nat ltac:(lia)). pose proof (Hday 3%nat ltac:(lia)).
  pose proof (Hday 4%nat ltac:(lia)). pose proof (Hday 5%nat ltac:(lia)).
  pose proof (Hday 6%nat ltac:(lia)).
  simpl in *. lia.
Qed.

Lemma idle_relaxed_unavailable (val : Valuation) (d : nat) :
  satisfies val (relaxed_attempt_model idle) = true → (d < 7)%nat →
  val (Shift 3 d) = 0.
Proof.
  intros Hsat Hd. unfold relaxed_attempt_model in Hsat.
  apply satisfies_build_model in Hsat as (_ & _ & _ & Hun & _).
  pose proof (λ d day, satisfies_unavailability _ val 3 d _ day Hun eq_refl) as HD.
  destruct d as [|[|[|[|[|[|[|d]]]]]]]; [| | | | | | |lia].
  - apply (HD 0%nat 739222); [elem_of_literal|reflexivity].
  - apply (HD 1%nat 739223); [elem_of_literal|reflexivity].
  - apply (HD 2%nat 739224); [elem_of_literal|reflexivity].
  - apply (HD 3%nat 739225); [elem_of_literal|reflexivity].
  - apply (HD 4%nat 739226); [elem_of_literal|reflexivity].
  - apply (HD 5%nat 739227); [elem_of_literal|reflexivity].
  - apply (HD 6%nat 739228); [elem_of_literal|reflexivity].
Qed.

(** C6 at a roster with targets 3, 0, 0 and 1: the strict model has no
    solution, the model of the second attempt has one, and in every
    success of the second attempt the member who is unavailable all
    week is reported with no shift. *)
Theorem relaxed_success_with_idle_member :
  (∀ val, satisfies val (build_model idle) = false)
  ∧ satisfies idle_week (relaxed_attempt_model idle) = true
  ∧ (∀ solver seed now_ms1 now_ms2 st0 val0 st1 val1,
       solver (build_model idle) seed = (st0, val0) →
       (is_solution st0 = true → satisfies val0 (build_model idle) = true) →
       solver (relaxed_attempt_model idle) seed = (st1, val1) →
       is_solution st1 = true →
       satisfies val1 (relaxed_attempt_model idle) = true →
       ∃ b t,
         generate_schedule_with_relaxation solver idle (Some seed) now_ms1 now_ms2
         = (Success b, idle)
         ∧ staff_assignments b !! "D" = Some t
         ∧ target t = 1
         ∧ actual t = 0).
Proof.
  split; [apply idle_strict_infeasible|]. split; [reflexivity|].
  intros solver seed now_ms1 now_ms2 st0 val0 st1 val1 Hsolve0 Hsound0 Hsolve1 Hst1 Hsat1.
  assert (Hst0 : is_solution st0 = false).
  { destruct (is_solution st0); [|done].
    specialize (Hsound0 eq_refl). by rewrite idle_strict_infeasible in Hsound0. }
  unfold generate_schedule_with_relaxation, generate_schedule.
  cbn [solver_seed]. rewrite Hsolve0, Hst0. cbn [is_success].
  fold (relaxed_attempt_model idle). rewrite Hsolve1, Hst1.
  rewrite (decode_succeeds _ _ _ _ _ idle_relaxed_init val1);
    [|by apply (bool_decide_unpack _); vm_compute|done].
  eexists _, _. split; [reflexivity|]. cbn [staff_assignments].
  split; [by rewrite staff_assignments_lookup|].
  split; [done|]. cbn [actual fmap option_fmap option_map tally_of].
  change (range (num_days _)) with [0; 1; 2; 3; 4; 5; 6]%nat.
  unfold count_shifts, sumZ. cbn [fmap list_fmap foldl fst snd].
  rewrite !(idle_relaxed_unavailable val1 _ Hsat1) by lia. done.
Qed.

(** ** The theorems at the example rosters *)

Lemma clinic_init :
  OnCallScheduler_init strptime_padded clinic_staff "2024-12-02" 7 = inr clinic.
Proof. vm_compute; reflexivity. Qed.

Lemma namesakes_init :
  OnCallScheduler_init strptime_padded namesakes_staff "2024-12-02" 7 = inr namesakes.
Proof. vm_compute; reflexivity. Qed.

Lemma negative_block_init :
  OnCallScheduler_init strptime_padded
    [ mkStaff "A" "Senior" 1 []; mkStaff "B" "Senior" 1 [] ] "2024-12-02" (-1)
  = inr negative_block.
Proof. vm_compute; reflexivity. Qed.

(** The clinic's week satisfies the model, and the decoder returns it. *)
Lemma clinic_run :
  solver_trying clinic_week (build_model clinic) 1 = (FEASIBLE, clinic_week)
  ∧ satisfies clinic_week (build_model clinic) = true
  ∧ generate_schedule (solver_trying clinic_week) clinic (Some 1) 0 = Success clinic_result.
Proof. repeat split; vm_compute; reflexivity. Qed.

Lemma namesakes_run :
  solver_trying alternating (build_model namesakes) 1 = (FEASIBLE, alternating)
  ∧ satisfies alternating (build_model namesakes) = true
  ∧ generate_schedule (solver_trying alternating) namesakes (Some 1) 0
    = Success namesakes_result.
Proof. repeat split; vm_compute; reflexivity. Qed.

Lemma clinic_gap_run :
  solver_returning clinic_week_with_gap (build_model clinic) 1
  = (FEASIBLE, clinic_week_with_gap)
  ∧ generate_schedule (solver_returning clinic_week_with_gap) clinic (Some 1) 0
    = Success clinic_gap_result.
Proof. repeat split; vm_compute; reflexivity. Qed.

Lemma coverage_rule_exact_witness :
  (∃ p, satisfies (assign (IsPair 0) p clinic_week) (day_model clinic 0) = true)
  ↔ covered clinic (working_set clinic clinic_week 0).
Proof.
  apply (coverage_rule_exact strptime_padded clinic_staff "2024-12-02" 7 clinic
           clinic_init clinic_week 0%nat).
  - vm_compute. lia.
  - intros s Hs. destruct s as [|[|[|s]]]; vm_compute; auto.
Defined.

Lemma success_has_every_date_once_witness :
  (dom (schedule clinic_result) = list_to_set (strftime <$> dates clinic)
   ∧ Z.of_nat (size (schedule clinic_result)) = 7)
  ∧ generate_schedule (solver_trying nobody) negative_block (Some 1) 0
    = NoSolution "Schedule generation error: Expected -1 days, got 0".
Proof.
  split.
  - destruct (success_has_every_date_once strptime_padded clinic_staff "2024-12-02" 7 clinic
                clinic_init (solver_trying clinic_week) (Some 1) 0) as [Hsucc _].
    destruct (Hsucc clinic_result (proj2 (proj2 clinic_run))) as (_ & Hdom & _ & Hsz).
    split; [exact Hdom|exact Hsz].
  - destruct (success_has_every_date_once strptime_padded
                [ mkStaff "A" "Senior" 1 []; mkStaff "B" "Senior" 1 [] ] "2024-12-02" (-1)
                negative_block negative_block_init (solver_trying nobody) (Some 1) 0)
      as [_ Hre].
    apply (Hre FEASIBLE nobody).
    + vm_compute; reflexivity.
    + reflexivity.
    + vm_compute. discriminate.
Defined.

(** C4 fails for namesakes: the alternation satisfies the model and is
    returned as a success whose schedule map implies seven dates, while
    the one entry the two staff share lists three. *)
Lemma days_do_not_match_schedule_for_namesakes :
  satisfies alternating (build_model namesakes) = true
  ∧ generate_schedule (solver_trying alternating) namesakes (Some 1) 0
    = Success namesakes_result
  ∧ size (all_days (staff_assignments namesakes_result)) = 3%nat
  ∧ size (implied_dates (schedule namesakes_result)) = 7%nat
  ∧ all_days (staff_assignments namesakes_result)
    ≠ implied_dates (schedule namesakes_result).
Proof.
  assert (H3 : size (all_days (staff_assignments namesakes_result)) = 3%nat)
    by (vm_compute; reflexivity).
  assert (H7 : size (implied_dates (schedule namesakes_result)) = 7%nat)
    by (vm_compute; reflexivity).
  repeat split; try (vm_compute; reflexivity).
  intros Heq. apply (f_equal size) in Heq. rewrite H3, H7 in Heq. lia.
Qed.

Lemma days_match_schedule_when_names_differ_witness :
  all_days (staff_assignments clinic_result) = implied_dates (schedule clinic_result).
Proof.
  apply (days_match_schedule_when_names_differ strptime_padded clinic_staff "2024-12-02" 7
           clinic clinic_init (solver_trying clinic_week) (Some 1) 0 FEASIBLE clinic_week).
  - apply (bool_decide_unpack _). vm_compute; reflexivity.
  - exact (proj1 clinic_run).
  - exact (proj1 (proj2 clinic_run)).
  - exact (proj2 (proj2 clinic_run)).
Defined.

Lemma success_balances_weekends_and_fridays_witness :
  spread (weekend_counts clinic_result) <= 1 ∧ spread (friday_counts clinic_result) <= 1.
Proof.
  destruct (success_balances_weekends_and_fridays strptime_padded clinic_staff "2024-12-02" 7
              clinic clinic_init (solver_trying clinic_week) (Some 1) 0 FEASIBLE clinic_week
              clinic_result (proj1 clinic_run) (proj1 (proj2 clinic_run))
              (proj2 (proj2 clinic_run))) as [Hwk Hfr].
  - vm_compute. lia.
  - split.
    + apply Hwk. exists 739227. split; [elem_of_literal|left; reflexivity].
    + apply Hfr. exists 739226. split; [elem_of_literal|reflexivity].
Defined.

(** C7 fails for namesakes: two staff records, one entry, and the entry
    is the second record's tally; the first record's four days are in no
    entry. *)
Lemma namesakes_get_one_entry :
  length (staff_members namesakes) = 2%nat
  ∧ generate_schedule (solver_trying alternating) namesakes (Some 1) 0
    = Success namesakes_result
  ∧ size (staff_assignments namesakes_result) = 1%nat
  ∧ staff_assignments namesakes_result !! "A"
    = Some (mkTally "Senior" 3 3 1 0 ["2024-12-03"; "2024-12-05"; "2024-12-07"])
  ∧ count_shifts alternating 0 (range (num_days namesakes)) = 4.
Proof. repeat split; vm_compute; reflexivity. Qed.

Lemma same_name_staff_share_one_entry_witness :
  dom (staff_assignments namesakes_result) = list_to_set (name <$> staff_members namesakes)
  ∧ staff_assignments namesakes_result !! "A"
    = (λ p, tally_of namesakes alternating p.1 p.2) <$> last_named "A" (staff_members namesakes).
Proof.
  destruct (same_name_staff_share_one_entry namesakes (solver_trying alternating) (Some 1) 0 FEASIBLE
              alternating namesakes_result (proj1 namesakes_run) (proj2 (proj2 namesakes_run)))
    as (_ & Hdom & Hentry).
  split; [exact Hdom|exact (Hentry "A")].
Defined.

(** C8 fails on the week with nobody on call on Tuesday: the decoder
    returns a success, and Tuesday's entry is the string "Unassigned". *)
Lemma gap_day_is_decoded :
  working_set clinic clinic_week_with_gap 1 = []
  ∧ generate_schedule (solver_returning clinic_week_with_gap) clinic (Some 1) 0
    = Success clinic_gap_result
  ∧ schedule clinic_gap_result !! "2024-12-03" = Some (EStr "Unassigned")
  ∧ size (schedule clinic_gap_result) = 7%nat.
Proof. repeat split; vm_compute; reflexivity. Qed.

Lemma uncovered_day_reads_unassigned_witness :
  ∃ b, generate_schedule (solver_returning clinic_week_with_gap) clinic (Some 1) 0 = Success b
       ∧ schedule b !! strftime (date_at clinic 1) = Some (EStr "Unassigned").
Proof.
  apply (uncovered_day_reads_unassigned strptime_padded clinic_staff "2024-12-02" 7 clinic
           clinic_init (solver_returning clinic_week_with_gap) (Some 1) 0 FEASIBLE
           clinic_week_with_gap 1%nat).
  - exact (proj1 clinic_gap_run).
  - reflexivity.
  - vm_compute. lia.
  - left. vm_compute; reflexivity.
Defined.

(** C9 fails at the constructor: a block of three days is built without
    complaint; and a block of seven days from 9999-12-30 is not built. *)
Lemma short_block_is_constructed :
  (∃ sch, OnCallScheduler_init strptime_padded clinic_staff "2024-12-02" 3 = inr sch
          ∧ num_days sch = 3
          ∧ dates sch = [739222; 739223; 739224])
  ∧ OnCallScheduler_init strptime_padded clinic_staff "9999-12-30" 7 = inl OverflowError.
Proof.
  split; [|vm_compute; reflexivity].
  eexists. split; [vm_compute; reflexivity|]. split; reflexivity.
Qed.

Lemma num_days_is_checked_by_the_request_witness :
  (∃ errors, Api.ScheduleRequest_validate (Api.mkRequest [] "2024-12-02" 3 None) = inl errors
             ∧ Api.NumDaysOutOfRange ∈ errors)
  ∧ ∃ sch, OnCallScheduler_init strptime_padded clinic_staff "2024-12-02" 28 = inr sch
           ∧ start_date sch = 739222
           ∧ dates sch = (λ i, 739222 + Z.of_nat i) <$> range 28
           ∧ Z.of_nat (length (dates sch)) = 28.
Proof.
  destruct num_days_is_checked_by_the_request as (Hreq & _ & Hinit).
  split.
  - apply Hreq. simpl. lia.
  - apply Hinit; [vm_compute; reflexivity|lia|vm_compute; discriminate|vm_compute; discriminate].
Defined.

Lemma relaxed_attempt_repeats_strict_attempt_witness :
  relaxed_attempt_model clinic = build_model clinic
  ∧ generate_schedule_with_relaxation (solver_trying clinic_week) clinic (Some 1) 0 5
    = (generate_schedule (solver_trying clinic_week) clinic (Some 1) 0, clinic).
Proof.
  destruct (relaxed_attempt_repeats_strict_attempt (solver_trying clinic_week) clinic 1 0 5)
    as (_ & Hmodel & Hcall & _).
  - repeat constructor; simpl; lia.
  - split; [exact Hmodel|exact Hcall].
Defined.

(** An engine that only answers FEASIBLE with a valuation it has checked
    answers soundly, whatever the model. *)
Lemma solver_trying_sound (val0 : Valuation) (m : CpModel) (seed : Z) (st : Status)
    (val : Valuation) :
  solver_trying val0 m seed = (st, val) → is_solution st = true → satisfies val m = true.
Proof.
  unfold solver_trying. destruct (satisfies val0 m) eqn:Hsat; intros [= <- <-]; [done|].
  discriminate.
Qed.

(** The two-phase call on Scenario 5, with the engine that tries the
    split of four and three days. *)
Example two_seniors_run :
  generate_schedule_with_relaxation (solver_trying alternating) two_seniors (Some 1) 0 0
  = (NoSolution "Could not find a valid schedule that satisfies all constraints",
     two_seniors).
Proof. vm_compute; reflexivity. Qed.

(** The two-phase call on the roster with the idle member: the strict
    attempt fails, the second succeeds, and D is reported with no shift. *)
Example idle_run :
  generate_schedule (solver_trying idle_week) idle (Some 1) 0
  = NoSolution "Could not find a valid schedule that satisfies all constraints"
  ∧ generate_schedule_with_relaxation (solver_trying idle_week) idle (Some 1) 0 0
    = (Success idle_result, idle)
  ∧ staff_assignments idle_result !! "D" = Some (mkTally "Senior" 1 0 0 0 []).
Proof. repeat split; vm_compute; reflexivity. Qed.

(** C10 fails when a target is below 1: on the roster with targets 3, 0,
    0 and 1 the second model differs from the first, and the two-phase
    call succeeds where the strict call returns no_solution. *)
Lemma relaxed_attempt_differs_below_target_1 :
  relaxed_attempt_model idle ≠ build_model idle
  ∧ generate_schedule (solver_trying idle_week) idle (Some 1) 0
    = NoSolution "Could not find a valid schedule that satisfies all constraints"
  ∧ generate_schedule_with_relaxation (solver_trying idle_week) idle (Some 1) 0 0
    = (Success idle_result, idle).
Proof.
  split; [|split; [exact (proj1 idle_run)|exact (proj1 (proj2 idle_run))]].
  intros Heq.
  assert (Hrel : satisfies idle_week (relaxed_attempt_model idle) = true)
    by (vm_compute; reflexivity).
  rewrite Heq, idle_strict_infeasible in Hrel. discriminate Hrel.
Qed.

(** ** What every solution and every decoded success has *)

(** A key that is not repeated in a list of keys stands for one item. *)
Lemma NoDup_fmap_inj_on {A B : Type} (f : A → B) (l : list A) (x y : A) :
  NoDup (f <$> l) → x ∈ l → y ∈ l → f x = f y → x = y.
Proof.
  induction l as [|a l IH]; [by intros _ ?%elem_of_nil|].
  rewrite fmap_cons, NoDup_cons. intros [Hna Hnd] Hx Hy Hf.
  apply elem_of_cons in Hx as [->|Hx], Hy as [->|Hy]; [done| | |by apply IH].
  - exfalso. apply Hna. rewrite Hf. by apply list_elem_of_fmap_2.
  - exfalso. apply Hna. rewrite <- Hf. by apply list_elem_of_fmap_2.
Qed.

Lemma foldr_add_app (l1 l2 : list Z) :
  foldr Z.add 0 (l1 ++ l2) = foldr Z.add 0 l1 + foldr Z.add 0 l2.
Proof. induction l1 as [|a l1 IH]; simpl; lia. Qed.

(** Sums of non-negative values over two disjoint selections stay below
    the sum over the whole list. *)
Lemma sum_disjoint_filters {A : Type} (f : A → Z) (P Q : A → Prop)
    `{!∀ a, Decision (P a)} `{!∀ a, Decision (Q a)} (l : list A) :
  (∀ a, a ∈ l → 0 <= f a) → (∀ a, a ∈ l → P a → Q a → False) →
  foldr Z.add 0 (f <$> filter P l) + foldr Z.add 0 (f <$> filter Q l)
  <= foldr Z.add 0 (f <$> l).
Proof.
  induction l as [|a l IH]; intros Hf HPQ; [done|].
  assert (IH' := IH (λ b Hb, Hf b (list_elem_of_further _ _ _ Hb))
                    (λ b Hb, HPQ b (list_elem_of_further _ _ _ Hb))).
  pose proof (Hf a (list_elem_of_here _ _)) as Ha.
  pose proof (HPQ a (list_elem_of_here _ _)) as Hd.
  rewrite !filter_cons. destruct (decide (P a)), (decide (Q a)); csimpl; try lia.
  by exfalso; apply Hd.
Qed.

Lemma foldr_add_nonneg {A : Type} (f : A → Z) (l : list A) :
  (∀ a, a ∈ l → 0 <= f a) → 0 <= foldr Z.add 0 (f <$> l).
Proof.
  induction l as [|a l IH]; intros Hl; csimpl; [lia|].
  pose proof (Hl a (list_elem_of_here _ _)).
  pose proof (IH (λ a' Ha', Hl a' (list_elem_of_further _ _ _ Ha'))). lia.
Qed.

(** Of 0/1 values of which no two neighbours are both 1, at most every
    other one is 1. *)
Lemma sum_no_neighbours (v : nat → Z) (k : nat) :
  (∀ d, (d < k)%nat → v d = 0 ∨ v d = 1) →
  (∀ d, (d + 1 < k)%nat → v d + v (d + 1)%nat <= 1) →
  2 * foldr Z.add 0 (v <$> seq 0 k) <= Z.of_nat k + 1.
Proof.
  intros Hbit Hnb.
  cut (∀ j, (j ≤ k)%nat →
         2 * foldr Z.add 0 (v <$> seq 0 j)
         <= Z.of_nat j + match j with O => 0 | S i => v i end).
  { intros Hcut. specialize (Hcut k (le_n _)). destruct k as [|i]; [simpl in *; lia|].
    destruct (Hbit i ltac:(lia)); lia. }
  induction j as [|j IH]; intros Hj; [simpl; lia|].
  specialize (IH ltac:(lia)).
  rewrite seq_S, fmap_app, foldr_add_app. csimpl.
  destruct j as [|i].
  - simpl in *. destruct (Hbit 0%nat ltac:(lia)); lia.
  - pose proof (Hnb i ltac:(lia)) as Hi. rewrite Nat.add_1_r in Hi. lia.
Qed.

(** A sum over rows of sums over columns is the sum over columns of the
    sums over rows. *)
Lemma sum_swap {A B : Type} (f : A → B → Z) (l1 : list A) (l2 : list B) :
  foldr Z.add 0 ((λ a, foldr Z.add 0 (f a <$> l2)) <$> l1)
  = foldr Z.add 0 ((λ b, foldr Z.add 0 ((λ a, f a b) <$> l1)) <$> l2).
Proof.
  induction l1 as [|a l1 IH]; csimpl.
  - induction l2 as [|b l2 IH2]; csimpl; lia.
  - rewrite IH. clear IH. induction l2 as [|b l2 IH2]; csimpl; lia.
Qed.

(** The dict [date_to_index], filled in list order, read at a key of a
    list without repeats. *)
Lemma index_dict_lookup `{Countable K} (l : list K) (k : K) (i : nat) :
  NoDup l →
  foldl (λ (m : gmap K nat) (p : nat * K), <[p.2 := p.1]> m) ∅ (enumerate l) !! k = Some i
  ↔ l !! i = Some k.
Proof.
  revert i. induction l as [|a l IH] using rev_ind; intros i Hnd.
  - simpl. by rewrite lookup_empty, lookup_nil.
  - apply NoDup_app in Hnd as (Hnd & Hna & _).
    rewrite enumerate_snoc, foldl_app. simpl.
    destruct (decide (a = k)) as [->|Hne].
    + rewrite lookup_insert_eq. split.
      * intros [= <-]. by rewrite lookup_app_r, Nat.sub_diag.
      * intros Hl. destruct (decide (i < length l)%nat) as [Hlt|Hge].
        -- rewrite lookup_app_l in Hl by done. apply list_elem_of_lookup_2 in Hl.
           exfalso. apply (Hna k Hl). by left.
        -- apply lookup_lt_Some in Hl. rewrite length_app in Hl. simpl in Hl.
           f_equal. lia.
    + rewrite lookup_insert_ne by done. rewrite IH by done. split.
      * apply lookup_app_l_Some.
      * intros Hl. destruct (decide (i < length l)%nat) as [Hlt|Hge].
        -- by rewrite lookup_app_l in Hl.
        -- pose proof (lookup_lt_Some _ _ _ Hl) as Hlen. rewrite length_app in Hlen.
           simpl in Hlen. assert (i = length l) as -> by lia.
           rewrite lookup_app_r, Nat.sub_diag in Hl by lia. by simplify_eq/=.
Qed.

Section Block.
Context (strptime : string → option date) (staff : list StaffMember)
        (start : string) (n : Z) (sch : OnCallScheduler).
Hypothesis Hinit : OnCallScheduler_init strptime staff start n = inr sch.

Lemma dates_NoDup : NoDup (dates sch).
Proof.
  destruct (init_inv _ _ _ _ _ Hinit) as (d0 & _ & _ & _ & _ & _ & -> & _).
  apply NoDup_fmap_2; [|apply NoDup_seq]. intros i j Hij. lia.
Qed.

(** X1: the constructor's [date_to_index] inverts [dates]: a date has
    index [d] exactly when it is the date at position [d], and dates
    outside the block have no index. *)
Theorem date_to_index_inverts_dates (day : date) (d : nat) :
  date_to_index sch !! day = Some d ↔ dates sch !! d = Some day.
Proof.
  pose proof dates_NoDup as Hnd.
  unfold OnCallScheduler_init in Hinit.
  destruct (strptime start) as [d0|]; [|done].
  destruct (add_days d0 (n - 1)) as [e|]; [|done].
  destruct (mapM _ _) as [ds|]; [|done].
  injection Hinit as <-. simpl in *. by apply index_dict_lookup.
Qed.

End Block.

Section Solutions.
Context (strptime : string → option date) (staff : list StaffMember)
        (start : string) (n : Z) (sch : OnCallScheduler).
Hypothesis Hinit : OnCallScheduler_init strptime staff start n = inr sch.
Context (solver : Solver) (random_seed : option Z) (now_ms : Z)
        (status : Status) (val : Valuation) (b : SuccessBody).
Hypothesis Hsolve : solver (build_model sch) (solver_seed random_seed now_ms) = (status, val).
Hypothesis Hsat : satisfies val (build_model sch) = true.
Hypothesis Hgen : generate_schedule solver sch random_seed now_ms = Success b.

Lemma solution_decoded : decode sch val = Success b.
Proof.
  apply generate_schedule_Success in Hgen as (status' & val' & Hsolve' & _ & Hdec).
  rewrite Hsolve in Hsolve'. by injection Hsolve' as <- <-.
Qed.

Lemma solution_num_days : 0 <= num_days sch.
Proof.
  destruct (decode_Success _ _ _ solution_decoded) as (<- & _). lia.
Qed.


Lemma solution_bits (s d : nat) :
  (s < length (staff_members sch))%nat → (d < Z.to_nat (num_days sch))%nat →
  val (Shift s d) = 0 ∨ val (Shift s d) = 1.
Proof.
  apply satisfies_shift_bits. by apply satisfies_build_model in Hsat as (? & _).
Qed.

Lemma count_shifts_length (s : nat) (ds : list nat) :
  (s < length (staff_members sch))%nat → (∀ d, d ∈ ds → (d < Z.to_nat (num_days sch))%nat) →
  count_shifts val s ds = Z.of_nat (length (filter (λ d, val (Shift s d) = 1) ds)).
Proof.
  intros Hs Hds. unfold count_shifts. rewrite sumZ_foldr.
  apply (sum_indicator_all (λ d, val (Shift s d))).
  intros d Hd. apply solution_bits; auto.
Qed.

(** The date of day [d] is in the days list exactly when the staff is on
    call on day [d]. *)
Lemma day_in_days (s : nat) (st : StaffMember) (d : nat) :
  (d < Z.to_nat (num_days sch))%nat →
  strftime (date_at sch d) ∈ days (tally_of sch val s st) ↔ val (Shift s d) = 1.
Proof.
  intros Hd. simpl. rewrite list_elem_of_fmap. split.
  - intros (d' & Hkey & [Hv Hd']%list_elem_of_filter).
    destruct (success_schedule _ _ _ _ _ Hinit val b solution_decoded) as (_ & _ & Hnd).
    rewrite <- (dates_fmap_date_at _ _ _ _ _ Hinit), <- list_fmap_compose in Hnd.
    rewrite (NoDup_fmap_inj_on _ _ d d' Hnd); [done|by apply elem_of_range|done|done].
  - intros Hv. exists d. split; [done|]. apply list_elem_of_filter.
    split; [done|by apply elem_of_range].
Qed.

Lemma entry_is_tally (nm : string) (t : Tally) :
  staff_assignments b !! nm = Some t →
  ∃ s st, staff_members sch !! s = Some st ∧ (s < length (staff_members sch))%nat
          ∧ name st = nm ∧ t = tally_of sch val s st.
Proof.
  destruct (decode_Success _ _ _ solution_decoded) as (_ & _ & ->).
  intros (s & st & Hs & Hnm & ->)%staff_assignments_entry.
  exists s, st. split; [done|]. split; [by apply lookup_lt_Some in Hs|done].
Qed.

Lemma date_to_index_lookup (day : date) (d : nat) :
  dates sch !! d = Some day → date_to_index sch !! day = Some d.
Proof.
  intros Hd. pose proof (dates_NoDup _ _ _ _ _ Hinit) as Hnd.
  unfold OnCallScheduler_init in Hinit.
  destruct (strptime start) as [d0|]; [|done].
  destruct (add_days d0 (n - 1)) as [e|]; [|done].
  destruct (mapM _ _) as [ds|]; [|done].
  injection Hinit as <-. simpl in *. by apply index_dict_lookup.
Qed.

(** X2: every tally of a decoded solution has its actual count within
    one of the reported target, and never below zero. *)
Theorem reported_actual_within_band (nm : string) (t : Tally) :
  staff_assignments b !! nm = Some t →
  Z.max 0 (target t - 1) <= actual t <= target t + 1.
Proof.
  intros (s & st & Hs & _ & _ & ->)%entry_is_tally. simpl.
  apply satisfies_target_band; [|done].
  by apply satisfies_build_model in Hsat as (_ & _ & _ & _ & _ & ? & _).
Qed.

(** X3: in every tally of a decoded solution the actual count is the
    length of the days list, and the weekend and Friday counts are parts
    of it. *)
Theorem tally_counts_agree (nm : string) (t : Tally) :
  staff_assignments b !! nm = Some t →
  actual t = Z.of_nat (length (days t))
  ∧ 0 <= weekend_shifts t
  ∧ 0 <= friday_shifts t
  ∧ weekend_shifts t + friday_shifts t <= actual t.
Proof.
  intros (s & st & _ & Hs & _ & ->)%entry_is_tally. simpl.
  destruct (init_inv _ _ _ _ _ Hinit) as (d0 & _ & _ & _ & _ & _ & _ & _ & _ & _ & Hwk & Hfr).
  pose proof (length_dates _ _ _ _ _ Hinit) as Hlen.
  rewrite Hwk, Hfr, !indices_with_weekday_filter, Hlen.
  change (seq 0 (Z.to_nat (num_days sch))) with (range (num_days sch)).
  assert (Hpos : ∀ d, d ∈ range (num_days sch) → 0 <= val (Shift s d)).
  { intros d Hd%elem_of_range. destruct (solution_bits s d Hs Hd); lia. }
  assert (Hsum : ∀ l : list nat, (∀ d, d ∈ l → 0 <= val (Shift s d)) →
            0 <= foldr Z.add 0 ((λ d, val (Shift s d)) <$> l)).
  { induction l as [|d l IH]; intros Hl; csimpl; [lia|].
    pose proof (Hl d (list_elem_of_here _ _)).
    pose proof (IH (λ d' Hd', Hl d' (list_elem_of_further _ _ _ Hd'))). lia. }
  split; [|unfold count_shifts; rewrite !sumZ_foldr; split; [|split]].
  - rewrite length_fmap. apply count_shifts_length; [done|]. by intros d ?%elem_of_range.
  - apply Hsum. intros d [_ Hd]%list_elem_of_filter. by apply Hpos.
  - apply Hsum. intros d [_ Hd]%list_elem_of_filter. by apply Hpos.
  - apply (sum_disjoint_filters (λ d, val (Shift s d))); [done|].
    intros d _ Hw Hf. destruct (dates sch !! d) as [day|]; [|done].
    simpl in Hw, Hf. injection Hw as Hw. injection Hf as Hf.
    unfold is_friday in Hf. by rewrite Hw in Hf.
Qed.

(** X4: no days list of a decoded solution holds the dates of two days
    running. *)
Theorem no_two_days_running (nm : string) (t : Tally) (d : nat) :
  staff_assignments b !! nm = Some t →
  (d + 1 < Z.to_nat (num_days sch))%nat →
  strftime (date_at sch d) ∈ days t →
  strftime (date_at sch (d + 1)) ∈ days t →
  False.
Proof.
  intros (s & st & _ & Hs & _ & ->)%entry_is_tally Hd Hin1 Hin2.
  apply day_in_days in Hin1; [|lia]. apply day_in_days in Hin2; [|lia].
  assert (Hbb : satisfies val (back_to_back sch) = true)
    by by apply satisfies_build_model in Hsat as (_ & _ & ? & _).
  pose proof (satisfies_back_to_back sch val s d Hbb Hs ltac:(lia)). lia.
Qed.


(** X5: every reported entry is the tally of a member of that name, and
    none of that member's unavailable dates of the block is in its days
    list. *)
Theorem unavailable_days_stay_free (nm : string) (t : Tally) :
  staff_assignments b !! nm = Some t →
  ∃ s st, staff_members sch !! s = Some st ∧ name st = nm ∧ t_role t = role st
          ∧ ∀ day, day ∈ unavailable_days st → day ∈ dates sch →
                   strftime day ∉ days t.
Proof.
  intros (s & st & Hst & Hs & Hnm & ->)%entry_is_tally.
  exists s, st. repeat split; try done.
  intros day Hday (d & Hd)%list_elem_of_lookup_1 Hin.
  pose proof (lookup_lt_Some _ _ _ Hd) as Hlt.
  rewrite (length_dates _ _ _ _ _ Hinit) in Hlt.
  assert (day = date_at sch d) as ->.
  { unfold date_at. by rewrite (list_lookup_total_correct _ _ _ Hd). }
  apply day_in_days in Hin; [|done].
  apply date_to_index_lookup in Hd.
  assert (Hun : satisfies val (unavailability sch) = true)
    by by apply satisfies_build_model in Hsat as (_ & _ & _ & ? & _).
  pose proof (satisfies_unavailability sch val s d st _ Hun Hst Hday Hd). lia.
Qed.

Lemma on_call_has_role (s d : nat) :
  (d < Z.to_nat (num_days sch))%nat → (s < length (staff_members sch))%nat →
  val (Shift s d) = 1 →
  has_role sch s "Senior" ∨ has_role sch s "Intermediate" ∨ has_role sch s "Junior".
Proof.
  intros Hd Hs Hv.
  assert (Hin : s ∈ working_set sch val d).
  { apply list_elem_of_filter. split; [done|]. apply elem_of_seq. lia. }
  destruct (covered_of_build_model _ _ _ _ _ Hinit val d Hsat Hd)
    as [(i & HW & Hi)|[(i & HW & Hi)|(i & j & HW & Hi & Hj)]].
  - rewrite HW in Hin. apply list_elem_of_singleton in Hin as ->. auto.
  - rewrite HW in Hin. apply list_elem_of_singleton in Hin as ->. auto.
  - rewrite HW in Hin. apply elem_of_cons in Hin as [->|Hin]; [auto|].
    apply list_elem_of_singleton in Hin as ->. auto.
Qed.

(** X6: a member whose role is none of Junior, Intermediate and Senior
    is reported with no shift at all. *)
Theorem unlisted_role_is_never_on_call (nm : string) (t : Tally) :
  staff_assignments b !! nm = Some t →
  t_role t ≠ "Junior" → t_role t ≠ "Intermediate" → t_role t ≠ "Senior" →
  actual t = 0 ∧ days t = [].
Proof.
  intros (s & st & Hst & Hs & _ & ->)%entry_is_tally. simpl. intros Hj Hi Hsr.
  assert (Hnone : filter (λ d, val (Shift s d) = 1) (range (num_days sch)) = []).
  { apply elem_of_nil_inv. intros d [Hv Hd%elem_of_range]%list_elem_of_filter.
    destruct (on_call_has_role s d Hd Hs Hv) as [H|[H|H]];
      unfold has_role in H; rewrite Hst in H; simpl in H; congruence. }
  rewrite count_shifts_length, Hnone; [done|done|].
  by intros d ?%elem_of_range.
Qed.

(** X7: no reported count is above every other day of the block, so a
    target above that by more than one is never met. *)
Theorem nobody_works_more_than_every_other_day (nm : string) (t : Tally) :
  staff_assignments b !! nm = Some t →
  2 * actual t <= num_days sch + 1 ∧ 2 * (target t - 1) <= num_days sch + 1.
Proof.
  intros (s & st & Hst & Hs & _ & ->)%entry_is_tally. simpl.
  assert (Hband : Z.max 0 (target_shifts st - 1) <= count_shifts val s (range (num_days sch))).
  { apply satisfies_target_band; [|done].
    by apply satisfies_build_model in Hsat as (_ & _ & _ & _ & _ & ? & _). }
  cut (2 * count_shifts val s (range (num_days sch)) <= num_days sch + 1); [lia|].
  pose proof solution_num_days as Hn.
  unfold count_shifts, range. rewrite sumZ_foldr.
  assert (Hbb : satisfies val (back_to_back sch) = true)
    by by apply satisfies_build_model in Hsat as (_ & _ & ? & _).
  pose proof (sum_no_neighbours (λ d, val (Shift s d)) (Z.to_nat (num_days sch))) as Hsum.
  rewrite Z2Nat.id in Hsum by done. apply Hsum.
  - intros d Hd. by apply solution_bits.
  - intros d Hd. apply (satisfies_back_to_back sch val s d Hbb Hs). lia.
Qed.

(** X8: counted over the roster, the shifts are one or two for every day
    of the block. *)
Theorem shifts_cover_the_block :
  num_days sch
  <= sumZ ((λ p, actual (tally_of sch val p.1 p.2)) <$> enumerate (staff_members sch))
  <= 2 * num_days sch.
Proof.
  pose proof solution_num_days as Hn.
  assert (Hsum : sumZ ((λ p, actual (tally_of sch val p.1 p.2)) <$> enumerate (staff_members sch))
                 = foldr Z.add 0 ((λ d, Z.of_nat (length (working_set sch val d)))
                                    <$> range (num_days sch))).
  { rewrite sumZ_foldr.
    transitivity (foldr Z.add 0
                    ((λ s, foldr Z.add 0 ((λ d, val (Shift s d)) <$> range (num_days sch)))
                       <$> seq 0 (length (staff_members sch)))).
    - rewrite <- (enumerate_fst (staff_members sch)), <- list_fmap_compose.
      f_equal. apply list_fmap_ext. intros i [s st] _. simpl.
      unfold count_shifts. by rewrite sumZ_foldr.
    - rewrite (sum_swap (λ s d, val (Shift s d))). f_equal.
      apply Forall_fmap_ext_1, Forall_forall. intros d Hd%elem_of_range.
      apply (sum_indicator_all (λ s, val (Shift s d))).
      intros s Hs%elem_of_seq. apply solution_bits; [lia|done]. }
  rewrite Hsum.
  assert (Hday : ∀ d, d ∈ range (num_days sch) →
            1 <= Z.of_nat (length (working_set sch val d)) <= 2).
  { intros d Hd%elem_of_range.
    destruct (covered_of_build_model _ _ _ _ _ Hinit val d Hsat Hd)
      as [(i & -> & _)|[(i & -> & _)|(i & j & HW & _)]]; simpl; try lia.
    apply Permutation_length in HW. rewrite HW. simpl. lia. }
  unfold range in *. rewrite <- (Z2Nat.id (num_days sch)) at 1 4 by done.
  revert Hday. generalize (Z.to_nat (num_days sch)) as k.
  induction k as [|k IH]; intros Hday; [simpl; lia|].
  rewrite seq_S, fmap_app, foldr_add_app. csimpl.
  pose proof (Hday k ltac:(apply elem_of_seq; lia)).
  assert (IH' := IH (λ d Hd, Hday d ltac:(apply elem_of_seq; apply elem_of_seq in Hd; lia))).
  lia.
Qed.

(** X9: every entry of the schedule map is the name of a Senior or an
    Intermediate of the roster, or the record of a Senior with a Junior
    and its display string. *)
Theorem schedule_entries_are_solo_or_pair (k : string) (e : ScheduleEntry) :
  schedule b !! k = Some e →
  (∃ st, st ∈ staff_members sch ∧ (role st = "Senior" ∨ role st = "Intermediate")
         ∧ e = EStr (name st))
  ∨ (∃ sr jr, sr ∈ staff_members sch ∧ jr ∈ staff_members sch
              ∧ role sr = "Senior" ∧ role jr = "Junior"
              ∧ e = EPair (name sr) (name jr)
                      (name sr +:+ " (Sr) + " +:+ name jr +:+ " (Jr)")).
Proof.
  destruct (decode_Success _ _ _ solution_decoded) as (_ & -> & _).
  intros Hl%assign_all_lookup_Some.
  apply list_elem_of_fmap in Hl as (d & [= -> ->] & Hd%elem_of_range).
  pose proof (working_staff_set sch val d) as Hws.
  assert (Hrole : ∀ s r, has_role sch s r →
            ∃ st, staff_members sch !! s = Some st ∧ st ∈ staff_members sch ∧ role st = r).
  { intros s r Hr. unfold has_role in Hr.
    destruct (staff_members sch !! s) as [st|] eqn:Hst; [|done].
    exists st. split; [done|]. split; [by eapply list_elem_of_lookup_2|].
    simpl in Hr. congruence. }
  destruct (covered_of_build_model _ _ _ _ _ Hinit val d Hsat Hd)
    as [(i & HW & Hi)|[(i & HW & Hi)|(i & j & HW & Hi & Hj)]].
  - rewrite HW in Hws.
    apply Forall2_cons_inv_r in Hws as (w & ws & (st & Hst & ->) & Hws & ->).
    apply Forall2_nil_inv_r in Hws as ->.
    apply Hrole in Hi as (st' & Hst' & Hin & Hr). simplify_eq. left. eauto.
  - rewrite HW in Hws.
    apply Forall2_cons_inv_r in Hws as (w & ws & (st & Hst & ->) & Hws & ->).
    apply Forall2_nil_inv_r in Hws as ->.
    apply Hrole in Hi as (st' & Hst' & Hin & Hr). simplify_eq. left. eauto.
  - right. apply Hrole in Hi as (sr & Hsr & Hinr & Hrs).
    apply Hrole in Hj as (jr & Hjr & Hinj & Hrj).
    exists sr, jr. repeat split; try done.
    symmetry in HW. apply Permutation.Permutation_length_2_inv in HW as [HW|HW];
      rewrite HW in Hws;
      apply Forall2_cons_inv_r in Hws as (w1 & ws1 & (st1 & Hst1 & ->) & Hws & ->);
      apply Forall2_cons_inv_r in Hws as (w2 & ws2 & (st2 & Hst2 & ->) & Hws & ->);
      apply Forall2_nil_inv_r in Hws as ->; simplify_eq;
      unfold format_entry; rewrite !first_with_role_cons; simpl;
      rewrite Hrs, Hrj; simpl; done.
Qed.

End Solutions.

(** *** The ward's week *)

Import Ward.

Lemma ward_init :
  OnCallScheduler_init strptime_padded ward_staff "2024-12-02" 7 = inr ward.
Proof. vm_compute; reflexivity. Qed.

Lemma ward_run :
  solver_trying ward_week (build_model ward) 1 = (FEASIBLE, ward_week)
  ∧ satisfies ward_week (build_model ward) = true
  ∧ generate_schedule (solver_trying ward_week) ward (Some 1) 0 = Success ward_result.
Proof. repeat split; vm_compute; reflexivity. Qed.

Lemma reported_actual_within_band_witness :
  ∃ t, staff_assignments ward_result !! "Adams" = Some t
       ∧ Z.max 0 (target t - 1) <= actual t <= target t + 1.
Proof.
  exists (mkTally "Senior" 4 4 1 1 ["2024-12-02"; "2024-12-04"; "2024-12-06"; "2024-12-08"]).
  split; [vm_compute; reflexivity|].
  apply (reported_actual_within_band ward (solver_trying ward_week) (Some 1) 0 FEASIBLE
           ward_week ward_result (proj1 ward_run) (proj1 (proj2 ward_run))
           (proj2 (proj2 ward_run)) "Adams").
  vm_compute; reflexivity.
Defined.

Lemma tally_counts_agree_witness :
  ∃ t, staff_assignments ward_result !! "Baker" = Some t
       ∧ actual t = Z.of_nat (length (days t))
       ∧ 0 <= weekend_shifts t
       ∧ 0 <= friday_shifts t
       ∧ weekend_shifts t + friday_shifts t <= actual t.
Proof.
  exists (mkTally "Intermediate" 3 3 1 0 ["2024-12-03"; "2024-12-05"; "2024-12-07"]).
  split; [vm_compute; reflexivity|].
  apply (tally_counts_agree strptime_padded ward_staff "2024-12-02" 7 ward ward_init
           (solver_trying ward_week) (Some 1) 0 FEASIBLE ward_week ward_result
           (proj1 ward_run) (proj1 (proj2 ward_run)) (proj2 (proj2 ward_run)) "Baker").
  vm_compute; reflexivity.
Defined.

Lemma no_two_days_running_witness :
  ∃ t, staff_assignments ward_result !! "Adams" = Some t
       ∧ strftime (date_at ward 0) ∈ days t
       ∧ strftime (date_at ward 1) ∉ days t.
Proof.
  exists (mkTally "Senior" 4 4 1 1 ["2024-12-02"; "2024-12-04"; "2024-12-06"; "2024-12-08"]).
  assert (Hin : strftime (date_at ward 0)
                ∈ ["2024-12-02"; "2024-12-04"; "2024-12-06"; "2024-12-08"])
    by (vm_compute; apply list_elem_of_here).
  split; [vm_compute; reflexivity|]. split; [exact Hin|]. intros Hnext.
  apply (no_two_days_running strptime_padded ward_staff "2024-12-02" 7 ward ward_init
           (solver_trying ward_week) (Some 1) 0 FEASIBLE ward_week ward_result
           (proj1 ward_run) (proj1 (proj2 ward_run)) (proj2 (proj2 ward_run)) "Adams"
           (mkTally "Senior" 4 4 1 1 ["2024-12-02"; "2024-12-04"; "2024-12-06"; "2024-12-08"])
           0%nat).
  - vm_compute; reflexivity.
  - vm_compute. lia.
  - exact Hin.
  - exact Hnext.
Defined.

Lemma date_to_index_inverts_dates_witness :
  (date_to_index ward !! 739224 = Some 2%nat ↔ dates ward !! 2%nat = Some 739224)
  ∧ (date_to_index ward !! 739300 = Some 2%nat ↔ dates ward !! 2%nat = Some 739300).
Proof.
  split; apply (date_to_index_inverts_dates strptime_padded ward_staff "2024-12-02" 7 ward
                  ward_init).
Defined.

Lemma unavailable_days_stay_free_witness :
  ∃ s st, staff_members ward !! s = Some st ∧ name st = "Adams" ∧ "Senior" = role st
          ∧ ∀ day, day ∈ unavailable_days st → day ∈ dates ward →
                   strftime day ∉ ["2024-12-02"; "2024-12-04"; "2024-12-06"; "2024-12-08"].
Proof.
  apply (unavailable_days_stay_free strptime_padded ward_staff "2024-12-02" 7 ward ward_init
           (solver_trying ward_week) (Some 1) 0 FEASIBLE ward_week ward_result
           (proj1 ward_run) (proj1 (proj2 ward_run)) (proj2 (proj2 ward_run)) "Adams"
           (mkTally "Senior" 4 4 1 1 ["2024-12-02"; "2024-12-04"; "2024-12-06"; "2024-12-08"])).
  vm_compute; reflexivity.
Defined.

Lemma unlisted_role_is_never_on_call_witness :
  ∃ t, staff_assignments ward_result !! "Clark" = Some t ∧ actual t = 0 ∧ days t = [].
Proof.
  exists (mkTally "Registrar" 1 0 0 0 []).
  split; [vm_compute; reflexivity|].
  apply (unlisted_role_is_never_on_call strptime_padded ward_staff "2024-12-02" 7 ward
           ward_init (solver_trying ward_week) (Some 1) 0 FEASIBLE ward_week ward_result
           (proj1 ward_run) (proj1 (proj2 ward_run)) (proj2 (proj2 ward_run)) "Clark").
  - vm_compute; reflexivity.
  - discriminate.
  - discriminate.
  - discriminate.
Defined.

Lemma nobody_works_more_than_every_other_day_witness :
  ∃ t, staff_assignments ward_result !! "Adams" = Some t
       ∧ 2 * actual t <= num_days ward + 1 ∧ 2 * (target t - 1) <= num_days ward + 1.
Proof.
  exists (mkTally "Senior" 4 4 1 1 ["2024-12-02"; "2024-12-04"; "2024-12-06"; "2024-12-08"]).
  split; [vm_compute; reflexivity|].
  apply (nobody_works_more_than_every_other_day ward (solver_trying ward_week) (Some 1) 0
           FEASIBLE ward_week ward_result (proj1 ward_run) (proj1 (proj2 ward_run))
           (proj2 (proj2 ward_run)) "Adams").
  vm_compute; reflexivity.
Defined.

Lemma shifts_cover_the_block_witness :
  num_days clinic
  <= sumZ ((λ p, actual (tally_of clinic clinic_week p.1 p.2))
             <$> enumerate (staff_members clinic))
  <= 2 * num_days clinic.
Proof.
  apply (shifts_cover_the_block strptime_padded clinic_staff "2024-12-02" 7 clinic clinic_init
           (solver_trying clinic_week) (Some 1) 0 FEASIBLE clinic_week clinic_result
           (proj1 clinic_run) (proj1 (proj2 clinic_run)) (proj2 (proj2 clinic_run))).
Defined.

Lemma schedule_entries_are_solo_or_pair_witness :
  (∃ st, st ∈ staff_members clinic ∧ (role st = "Senior" ∨ role st = "Intermediate")
         ∧ EPair "Smith" "Williams" "Smith (Sr) + Williams (Jr)" = EStr (name st))
  ∨ (∃ sr jr, sr ∈ staff_members clinic ∧ jr ∈ staff_members clinic
              ∧ role sr = "Senior" ∧ role jr = "Junior"
              ∧ EPair "Smith" "Williams" "Smith (Sr) + Williams (Jr)"
                = EPair (name sr) (name jr)
                    (name sr +:+ " (Sr) + " +:+ name jr +:+ " (Jr)")).
Proof.
  apply (schedule_entries_are_solo_or_pair strptime_padded clinic_staff "2024-12-02" 7 clinic
           clinic_init (solver_trying clinic_week) (Some 1) 0 FEASIBLE clinic_week
           clinic_result (proj1 clinic_run) (proj1 (proj2 clinic_run))
           (proj2 (proj2 clinic_run)) "2024-12-02").
  vm_compute; reflexivity.
Defined.

(** ** The constructor's outcomes *)

(** X10: on a start date that parses, the constructor raises no
    ValueError; it raises OverflowError exactly when the end date leaves
    the calendar, and otherwise builds [max(0, num_days)] dates, also for
    a block of no or negatively many days. *)
Theorem constructor_outcome (strptime : string → option date) (staff : list StaffMember)
    (start : string) (n : Z) (d0 : date) :
  strptime start = Some d0 → MINORDINAL <= d0 <= MAXORDINAL →
  match OnCallScheduler_init strptime staff start n with
  | inl ValueError => False
  | inl OverflowError => d0 + (n - 1) < MINORDINAL ∨ MAXORDINAL < d0 + (n - 1)
  | inr sch => MINORDINAL <= d0 + (n - 1) <= MAXORDINAL
               ∧ end_date sch = d0 + (n - 1)
               ∧ Z.of_nat (length (dates sch)) = Z.max 0 n
  end.
Proof.
  intros Hparse Hd0. unfold OnCallScheduler_init. rewrite Hparse. unfold add_days at 1.
  destruct ((MINORDINAL <=? d0 + (n - 1)) && (d0 + (n - 1) <=? MAXORDINAL)) eqn:Hend.
  - apply andb_true_iff in Hend as [Hlo%Z.leb_le Hhi%Z.leb_le].
    rewrite mapM_add_days_Some.
    + simpl. repeat split; try done.
      rewrite length_fmap. unfold range. rewrite length_seq. lia.
    + intros i Hi%elem_of_range. lia.
  - apply andb_false_iff in Hend as [Hlo%Z.leb_gt|Hhi%Z.leb_gt]; [by left|by right].
Qed.

(** ** The second attempt's report *)

(** X11: when the first attempt fails and the second succeeds, the
    success reports every member with the raised target, [max(1, target)],
    while the scheduler is handed back with the targets it came with. *)
Theorem fallback_reports_raised_targets (solver : Solver) (sch : OnCallScheduler)
    (random_seed : option Z) (now_ms1 now_ms2 : Z) (b : SuccessBody) :
  is_success (generate_schedule solver sch random_seed now_ms1) = false →
  (generate_schedule_with_relaxation solver sch random_seed now_ms1 now_ms2).1 = Success b →
  (generate_schedule_with_relaxation solver sch random_seed now_ms1 now_ms2).2 = sch
  ∧ ∀ nm t, staff_assignments b !! nm = Some t →
      ∃ st, st ∈ staff_members sch ∧ name st = nm ∧ t_role t = role st
            ∧ target t = Z.max 1 (target_shifts st).
Proof.
  unfold generate_schedule_with_relaxation. intros -> Hgen. simpl in *. split.
  - rewrite restore_relaxed_targets. by destruct sch.
  - apply generate_schedule_Success in Hgen as (status & val & _ & _ & Hdec).
    apply decode_Success in Hdec as (_ & _ & ->).
    intros nm t (s & st' & Hst' & Hnm & ->)%staff_assignments_entry.
    simpl in Hst'. unfold relax_targets in Hst'. rewrite list_lookup_fmap in Hst'.
    destruct (staff_members sch !! s) as [st|] eqn:Hst; [|done].
    injection Hst' as <-. exists st. split; [by eapply list_elem_of_lookup_2|done].
Qed.

Lemma constructor_outcome_witness :
  (MINORDINAL <= 739222 + (7 - 1) <= MAXORDINAL
   ∧ end_date clinic = 739222 + (7 - 1)
   ∧ Z.of_nat (length (dates clinic)) = Z.max 0 7)
  ∧ (MINORDINAL <= 739222 + (-1 - 1) <= MAXORDINAL
     ∧ end_date negative_block = 739222 + (-1 - 1)
     ∧ Z.of_nat (length (dates negative_block)) = Z.max 0 (-1)).
Proof.
  split.
  - pose proof (constructor_outcome strptime_padded clinic_staff "2024-12-02" 7 739222) as H.
    rewrite clinic_init in H. apply H; [vm_compute; reflexivity|vm_compute; split; discriminate].
  - pose proof (constructor_outcome strptime_padded
                  [ mkStaff "A" "Senior" 1 []; mkStaff "B" "Senior" 1 [] ] "2024-12-02" (-1)
                  739222) as H.
    rewrite negative_block_init in H.
    apply H; [vm_compute; reflexivity|vm_compute; split; discriminate].
Defined.

Lemma fallback_reports_raised_targets_witness :
  (generate_schedule_with_relaxation (solver_trying idle_week) idle (Some 1) 0 0).2 = idle
  ∧ ∃ st, st ∈ staff_members idle ∧ name st = "B" ∧ "Senior" = role st
          ∧ 1 = Z.max 1 (target_shifts st).
Proof.
  destruct (fallback_reports_raised_targets (solver_trying idle_week) idle (Some 1) 0 0
              idle_result) as [Hsch Htargets].
  - by rewrite (proj1 idle_run).
  - by rewrite (proj1 (proj2 idle_run)).
  - split; [exact Hsch|].
    apply (Htargets "B" (mkTally "Senior" 1 2 0 0 ["2024-12-03"; "2024-12-05"])).
    vm_compute; reflexivity.
Defined.

(** ** The schedule endpoints *)

Import Api Endpoints.

Section Handlers.
Context (strptime : string → option date).

Lemma any_role_exists (r : string) (l : list StaffInput) :
  any_role r l = true ↔ ∃ s, s ∈ l ∧ si_role s = r.
Proof.
  unfold any_role. rewrite existsb_exists. split.
  - intros (s & Hin%list_elem_of_In & Hr%bool_decide_eq_true). eauto.
  - intros (s & Hin%list_elem_of_In & Hr). exists s. split; [done|].
    by apply bool_decide_eq_true.
Qed.

(** Sequencing after a return and after a raise. *)
Lemma ret_bind {A B : Type} (a : A) (f : A → Exc B) : (mret a ≫= f) = f a.
Proof. done. Qed.

Lemma raise_bind {A B : Type} (e : Raised) (f : A → Exc B) : (raise e ≫= f) = raise e.
Proof. done. Qed.

Lemma for_each_cons {A : Type} (a : A) (l : list A) (body : A → Exc unit) :
  for_each (a :: l) body = (body a;; for_each l body).
Proof. done. Qed.

Lemma check_day (day : string) (handler : Exc unit) :
  except_ValueError (parse_date strptime day;; mret tt) handler
  = if strptime day is Some _ then mret tt else handler.
Proof. unfold parse_date. by destruct (strptime day). Qed.

(** The loop over the unavailable days of one staff input: it ends
    when every day parses, and raises the 400 at the first that does
    not. *)
Lemma for_each_day (detail : string) (days : list string) :
  for_each days (λ day, except_ValueError (parse_date strptime day;; mret tt)
                          (raise (Http (BadRequest detail))))
  = if decide (Forall (λ day, is_Some (strptime day)) days) then mret tt
    else raise (Http (BadRequest detail)).
Proof.
  induction days as [|day days IH]; [done|].
  rewrite for_each_cons, check_day, IH.
  destruct (strptime day) as [d|] eqn:Hday.
  - rewrite ret_bind. destruct (decide (Forall _ days)) as [Hall|Hno].
    + rewrite decide_True; [done|]. constructor; [by rewrite Hday|done].
    + rewrite decide_False; [done|]. intros Hall. by inversion Hall.
  - rewrite raise_bind, decide_False; [done|].
    intros Hall. inversion Hall as [|? ? Hd _]; subst.
    rewrite Hday in Hd. by destruct Hd.
Qed.

Lemma check_staff_input_outcome (s : StaffInput) :
  (input_accepted strptime s ∧ check_staff_input strptime s = mret tt)
  ∨ (¬ input_accepted strptime s
     ∧ ∃ detail, check_staff_input strptime s = raise (Http (BadRequest detail))).
Proof.
  unfold check_staff_input, input_accepted.
  destruct (decide (si_role s ∈ valid_roles)) as [Hrole|Hrole]; simpl.
  - rewrite for_each_day. destruct (decide (Forall _ _)) as [Hall|Hno].
    + by left.
    + right. split; [tauto|eauto].
  - right. split; [tauto|eauto].
Qed.

Lemma for_each_staff (l : list StaffInput) :
  (Forall (input_accepted strptime) l ∧ for_each l (check_staff_input strptime) = mret tt)
  ∨ (¬ Forall (input_accepted strptime) l
     ∧ ∃ detail, for_each l (check_staff_input strptime) = raise (Http (BadRequest detail))).
Proof.
  induction l as [|s l IH]; [by left|]. cbn [for_each].
  destruct (check_staff_input_outcome s) as [[Hs ->]|[Hs [detail ->]]]; simpl.
  - destruct IH as [[Hl ->]|[Hl [detail ->]]].
    + left. by split; [constructor|].
    + right. split; [|eauto]. intros Hall. by inversion Hall.
  - right. split; [|eauto]. intros Hall. by inversion Hall.
Qed.

Lemma comprehension_cons {A B : Type} (f : A → Exc B) (a : A) (l : list A) :
  comprehension f (a :: l) = (b ← f a; bs ← comprehension f l; mret (b :: bs)).
Proof. done. Qed.

Lemma parse_date_Some (s : string) (d : date) :
  strptime s = Some d → parse_date strptime s = mret d.
Proof. unfold parse_date. by intros ->. Qed.

Lemma comprehension_parse (days : list string) :
  Forall (λ day, is_Some (strptime day)) days →
  ∃ ds, comprehension (parse_date strptime) days = mret ds ∧ mapM strptime days = Some ds.
Proof.
  induction 1 as [|day days [d Hd] _ (ds & Hds & Hm)]; [by exists []|].
  exists (d :: ds).
  rewrite comprehension_cons, (parse_date_Some _ _ Hd), ret_bind, Hds, ret_bind.
  split; [done|].
  rewrite mapM_Some in Hm. apply mapM_Some. by constructor.
Qed.

Lemma staff_members_built (l : list StaffInput) :
  Forall (input_accepted strptime) l →
  ∃ ms, comprehension (λ staff, StaffMember_init strptime (si_name staff) (si_role staff)
                                  (si_target_shifts staff) (si_unavailable_days staff)) l
        = mret ms
        ∧ Forall2 (built_from strptime) l ms.
Proof.
  induction 1 as [|s l [_ Hdays] _ (ms & Hms & Hbuilt)]; [exists []; by split; [|constructor]|].
  destruct (comprehension_parse _ Hdays) as (ds & Hds & Hm).
  exists (mkStaff (si_name s) (si_role s) (si_target_shifts s) ds :: ms).
  rewrite comprehension_cons. unfold StaffMember_init at 2.
  rewrite Hds, !ret_bind, Hms, ret_bind. split; [done|]. by constructor.
Qed.

(** What the body of the handler comes to: the 400 of the first check
    that fails, or the scheduler's run on the staff built from the
    request. *)
Lemma body_outcome (solver : Solver) (now_ms : Z) (r : ScheduleRequest) :
  (¬ accepted strptime r
   ∧ ∃ detail, generate_schedule_body strptime solver now_ms r
               = raise (Http (BadRequest detail)))
  ∨ (accepted strptime r
     ∧ ∃ ms, Forall2 (built_from strptime) (staff r) ms
             ∧ generate_schedule_body strptime solver now_ms r
               = (scheduler ← call (OnCallScheduler_init strptime ms (req_start_date r)
                                      (req_num_days r));
                  mret (schedule_response
                          (generate_schedule_with_relaxation solver scheduler
                             (Some (solver_seed (req_random_seed r) now_ms))
                             now_ms now_ms).1))).
Proof.
  unfold generate_schedule_body. rewrite check_day.
  destruct (strptime (req_start_date r)) as [d0|] eqn:Hstart.
  2: { left. rewrite raise_bind. split; [|eauto].
       intros ([? Hd0] & _). rewrite Hstart in Hd0. done. }
  rewrite ret_bind.
  destruct (for_each_staff (staff r)) as [[Hall ->]|[Hno [detail ->]]].
  2: { left. rewrite raise_bind. split; [|eauto]. by intros (_ & ? & _). }
  rewrite ret_bind.
  destruct (any_role "Junior" (staff r) && negb (any_role "Senior" (staff r))) eqn:Hroles.
  { left. rewrite raise_bind. split; [|eauto]. intros (_ & _ & Himp & _).
    apply andb_true_iff in Hroles as [Hj%any_role_exists Hs%negb_true_iff].
    apply Himp, any_role_exists in Hj. congruence. }
  rewrite ret_bind.
  destruct (length (staff r) <? 2)%nat eqn:Hlen.
  { left. rewrite raise_bind. split; [|eauto]. intros (_ & _ & _ & ?).
    apply Nat.ltb_lt in Hlen. lia. }
  apply Nat.ltb_ge in Hlen. rewrite ret_bind. right. split.
  - split; [by rewrite Hstart|]. split; [done|]. split; [|done].
    intros Hj%any_role_exists. apply any_role_exists.
    rewrite Hj in Hroles. by destruct (any_role "Senior" (staff r)).
  - destruct (staff_members_built _ Hall) as (ms & -> & Hbuilt). rewrite ret_bind.
    exists ms. split; [done|]. by destruct (req_random_seed r).
Qed.

(** X12: the handler answers 400 exactly for the requests that fail one
    of its checks, whatever the solver and the clock; and it never
    answers 404. *)
Theorem refusal_is_decided_by_the_checks (solver : Solver) (now_ms : Z)
    (r : ScheduleRequest) :
  ((∃ detail, Endpoints.generate_schedule strptime solver now_ms r = inl (BadRequest detail))
   ↔ ¬ accepted strptime r)
  ∧ ∀ detail, Endpoints.generate_schedule strptime solver now_ms r ≠ inl (NotFound detail).
Proof.
  unfold Endpoints.generate_schedule.
  destruct (body_outcome solver now_ms r) as [[Hno [detail ->]]|[Hyes (ms & _ & ->)]].
  - simpl. split; [|done]. split; [done|eauto].
  - destruct (OnCallScheduler_init _ _ _ _) as [e|sch]; simpl.
    + split; [|done]. split; [by intros [? ?]|done].
    + split; [|done]. split; [by intros [? ?]|done].
Qed.

(** X13: for a request within the model bounds whose seed, where given,
    fits 32 bits and whose targets leave the band within 64 bits, the
    handler answers 500 exactly when the request passed its checks and
    the block leaves the calendar; the ValueError of a date that does
    not parse never gets that far.  Beyond those ranges the engine's
    Python layer raises, which is not modelled. *)
Theorem internal_error_is_overflow (solver : Solver) (now_ms : Z) (r : ScheduleRequest)
    (d0 : date) (e : PyError) :
  ScheduleRequest_validate r = inr r →
  (∀ seed, req_random_seed r = Some seed → fits_int32 seed) →
  Forall (λ s, fits_int64 (si_target_shifts s + 1)) (staff r) →
  strptime (req_start_date r) = Some d0 → MINORDINAL <= d0 <= MAXORDINAL →
  Endpoints.generate_schedule strptime solver now_ms r = inl (InternalServerError e)
  ↔ accepted strptime r ∧ e = OverflowError
    ∧ (d0 + (req_num_days r - 1) < MINORDINAL ∨ MAXORDINAL < d0 + (req_num_days r - 1)).
Proof.
  intros _ _ _ Hstart Hd0. unfold Endpoints.generate_schedule.
  destruct (body_outcome solver now_ms r) as [[Hno [detail ->]]|[Hyes (ms & _ & ->)]].
  - simpl. split; [done|tauto].
  - unfold OnCallScheduler_init. rewrite Hstart. unfold add_days at 1.
    destruct ((MINORDINAL <=? d0 + (req_num_days r - 1))
              && (d0 + (req_num_days r - 1) <=? MAXORDINAL)) eqn:Hend.
    + apply andb_true_iff in Hend as [Hlo%Z.leb_le Hhi%Z.leb_le].
      rewrite mapM_add_days_Some by (intros i Hi%elem_of_range; lia).
      simpl. split; [done|]. intros (_ & _ & [?|?]); lia.
    + apply andb_false_iff in Hend. rewrite !Z.leb_gt in Hend. simpl. split.
      * intros [= <-]. tauto.
      * by intros (_ & -> & _).
Qed.


(** *** The validation endpoint against the generation endpoint *)

Context (blank : string → bool).

Lemma first_unparsed_None (days : list string) :
  first_unparsed strptime days = None ↔ Forall (λ day, is_Some (strptime day)) days.
Proof.
  induction days as [|day days IH]; simpl; [by split; [constructor|]|].
  destruct (strptime day) as [d|] eqn:Hday.
  - rewrite IH. split.
    + intros Hall. constructor; [by rewrite Hday|done].
    + intros Hall. by inversion Hall.
  - split; [done|]. intros Hall. inversion Hall as [|? ? Hd _]; subst.
    rewrite Hday in Hd. by destruct Hd.
Qed.

Lemma any_role_cons (r : string) (s : StaffInput) (l : list StaffInput) :
  any_role r (s :: l) = bool_decide (si_role s = r) || any_role r l.
Proof. done. Qed.

(** The loop of the validation endpoint returns early exactly when a
    staff input fails a check of the generation endpoint, has a blank
    name or a target below 1; otherwise its flags are those the
    generation endpoint computes. *)
Lemma validate_staff_outcome (l : list StaffInput) (hs hj : bool) :
  match validate_staff strptime blank l hs hj with
  | inl _ => ¬ Forall (λ s, input_accepted strptime s
                            ∧ blank (si_name s) = false ∧ 1 <= si_target_shifts s) l
  | inr flags =>
    Forall (λ s, input_accepted strptime s
                 ∧ blank (si_name s) = false ∧ 1 <= si_target_shifts s) l
    ∧ flags = (hs || any_role "Senior" l, hj || any_role "Junior" l)
  end.
Proof.
  revert hs hj. induction l as [|s l IH]; intros hs hj.
  - simpl. split; [constructor|]. by rewrite !orb_false_r.
  - cbn [validate_staff].
    destruct (blank (si_name s)) eqn:Hblank.
    { intros Hall. inversion Hall as [|? ? (_ & ? & _) _]; subst. congruence. }
    destruct (decide (si_role s ∈ valid_roles)) as [Hrole|Hrole].
    2: { intros Hall. inversion Hall as [|? ? ([? _] & _) _]; subst. done. }
    destruct (si_target_shifts s <? 1) eqn:Htarget.
    { apply Z.ltb_lt in Htarget. intros Hall.
      inversion Hall as [|? ? (_ & _ & ?) _]; subst. lia. }
    apply Z.ltb_ge in Htarget.
    destruct (first_unparsed strptime (si_unavailable_days s)) as [day|] eqn:Hdays.
    { intros Hall. inversion Hall as [|? ? ([_ Hd] & _) _]; subst.
      apply first_unparsed_None in Hd. congruence. }
    apply first_unparsed_None in Hdays.
    specialize (IH (if decide (si_role s = "Senior") then true else hs)
                   (if decide (si_role s = "Junior") then true else hj)).
    destruct (validate_staff _ _ _ _ _) as [m|flags].
    + intros Hall. by inversion Hall.
    + destruct IH as [Hall ->]. split; [by constructor|].
      rewrite !any_role_cons. f_equal.
      * destruct (decide (si_role s = "Senior")) as [Hr|Hr].
        -- rewrite bool_decide_eq_true_2 by done. by rewrite orb_true_r.
        -- rewrite bool_decide_eq_false_2 by done. done.
      * destruct (decide (si_role s = "Junior")) as [Hr|Hr].
        -- rewrite bool_decide_eq_true_2 by done. by rewrite orb_true_r.
        -- rewrite bool_decide_eq_false_2 by done. done.
Qed.

(** X14: the validation endpoint calls a request valid exactly when the
    generation endpoint's checks accept it and, besides, no name is
    blank and every target is at least 1. *)
Theorem valid_requests_are_accepted (r : ScheduleRequest) :
  valid (validate_schedule_request strptime blank r) = true
  ↔ accepted strptime r
    ∧ Forall (λ s, blank (si_name s) = false ∧ 1 <= si_target_shifts s) (staff r).
Proof.
  unfold validate_schedule_request, accepted.
  destruct (strptime (req_start_date r)) as [d0|] eqn:Hstart; simpl.
  2: { split; [done|]. by intros (([? ?] & _) & _). }
  destruct (length (staff r) <? 2)%nat eqn:Hlen; simpl.
  { apply Nat.ltb_lt in Hlen. split; [done|]. intros ((_ & _ & _ & ?) & _). lia. }
  apply Nat.ltb_ge in Hlen.
  pose proof (validate_staff_outcome (staff r) false false) as Hloop.
  destruct (validate_staff _ _ _ _ _) as [m|[has_senior has_junior]]; simpl.
  - split; [done|]. intros ((_ & Hacc & _) & Hrest). exfalso. apply Hloop.
    apply Forall_and. split; [done|]. done.
  - destruct Hloop as [Hall [= -> ->]]. simpl.
    apply Forall_and in Hall as [Hacc Hrest].
    destruct (any_role "Junior" (staff r) && negb (any_role "Senior" (staff r))) eqn:Hroles;
      simpl.
    + split; [done|]. intros ((_ & _ & Himp & _) & _).
      apply andb_true_iff in Hroles as [Hj%any_role_exists Hs%negb_true_iff].
      apply Himp, any_role_exists in Hj. congruence.
    + split; [|done]. intros _. split; [|done].
      split; [done|]. split; [done|]. split; [|done].
      intros Hj%any_role_exists. apply any_role_exists.
      rewrite Hj in Hroles. by destruct (any_role "Senior" (staff r)).
Qed.

(** *** What a success response carries *)

Lemma staff_assignments_dom (sch : OnCallScheduler) (val : Valuation) :
  dom (build_staff_assignments sch val) = list_to_set (name <$> staff_members sch).
Proof.
  unfold build_staff_assignments. rewrite assign_all_dom, <- list_fmap_compose.
  change (fst ∘ _) with (name ∘ (snd : nat * StaffMember → StaffMember)).
  by rewrite list_fmap_compose, enumerate_snd.
Qed.

(** A success of the scheduler, read against the staff inputs its staff
    were built from. *)
Lemma success_against_inputs (solver : Solver) (sch : OnCallScheduler) (seed : option Z)
    (now_ms : Z) (b : SuccessBody) (l : list StaffInput) :
  Scheduler.generate_schedule solver sch seed now_ms = Success b →
  Forall2 (λ s m, name m = si_name s ∧ role m = si_role s
                  ∧ target_shifts m = si_target_shifts s) l (staff_members sch) →
  Z.of_nat (size (schedule b)) = num_days sch
  ∧ dom (staff_assignments b) = list_to_set (si_name <$> l)
  ∧ ∀ nm t, staff_assignments b !! nm = Some t →
      ∃ s, s ∈ l ∧ si_name s = nm ∧ t_role t = si_role s ∧ target t = si_target_shifts s.
Proof.
  intros (status & val & _ & _ & Hdec)%generate_schedule_Success Hbuilt.
  apply decode_Success in Hdec as (Hsize & -> & ->). split; [done|]. split.
  - rewrite staff_assignments_dom. f_equal.
    induction Hbuilt as [|s m l ms (Hn & _) _ IH]; [done|]. csimpl. by rewrite Hn, IH.
  - intros nm t (i & m & Hm & Hnm & ->)%staff_assignments_entry.
    destruct (Forall2_lookup_r _ _ _ _ _ Hbuilt Hm) as (s & Hs & Hn & Hr & Ht).
    exists s. split; [by eapply list_elem_of_lookup_2|]. simpl.
    split; [congruence|]. split; [done|done].
Qed.

(** X15: for a request that passed the model's bounds, a success
    response carries a schedule of [num_days] entries and one entry of
    [staff_assignments] for every name of the request, each with the role
    and the target of a staff input of that name. *)
Theorem success_response_matches_request (solver : Solver) (now_ms : Z)
    (r : ScheduleRequest) (resp : ScheduleResponse) :
  ScheduleRequest_validate r = inr r →
  Endpoints.generate_schedule strptime solver now_ms r = inr resp →
  resp_status resp = "success" →
  ∃ sched assigns,
    resp_schedule resp = Some sched ∧ resp_staff_assignments resp = Some assigns
    ∧ resp_message resp = None
    ∧ Z.of_nat (size sched) = req_num_days r
    ∧ dom assigns = list_to_set (si_name <$> staff r)
    ∧ ∀ nm t, assigns !! nm = Some t →
        ∃ s, s ∈ staff r ∧ si_name s = nm ∧ t_role t = si_role s
             ∧ target t = si_target_shifts s.
Proof.
  intros Hbounds Hresp Hstatus.
  assert (Htargets : Forall (λ s, 1 <= si_target_shifts s) (staff r)).
  { unfold ScheduleRequest_validate, ScheduleRequest_errors in Hbounds.
    destruct (forallb _ (staff r)) eqn:Hall.
    - apply Forall_forall. intros s Hs.
      rewrite forallb_elem_of in Hall. by apply Z.leb_le, Hall.
    - simpl in Hbounds. by destruct (_ && _). }
  unfold Endpoints.generate_schedule in Hresp.
  destruct (body_outcome solver now_ms r) as [[_ [detail Hb]]|[_ (ms & Hbuilt & Hb)]];
    rewrite Hb in Hresp; [done|].
  destruct (OnCallScheduler_init strptime ms (req_start_date r) (req_num_days r))
    as [e|sch] eqn:Hinit; [by destruct e|].
  simpl in Hresp. injection Hresp as <-.
  destruct (init_inv _ _ _ _ _ Hinit) as (d0 & _ & Hstaff & Hn & _).
  rewrite two_phase_result in Hstatus |- *.
  set (seed := Some (solver_seed (req_random_seed r) now_ms)) in *.
  assert (Hsame : Forall2 (λ s m, name m = si_name s ∧ role m = si_role s
                                  ∧ target_shifts m = si_target_shifts s) (staff r) ms).
  { eapply Forall2_impl; [exact Hbuilt|]. intros s m (? & ? & ? & _). done. }
  destruct (Scheduler.generate_schedule solver sch seed now_ms) as [b|m] eqn:Hfirst; simpl in *.
  - destruct (success_against_inputs solver sch seed now_ms b (staff r) Hfirst)
      as (Hsize & Hdom & Hentries); [by rewrite Hstaff|].
    exists (schedule b), (staff_assignments b). rewrite Hsize, Hn. by repeat split.
  - destruct (Scheduler.generate_schedule solver (set_staff_members _ _) seed now_ms)
      as [b|m'] eqn:Hsecond;
      simpl in *; [|done].
    destruct (success_against_inputs solver _ seed now_ms b (staff r) Hsecond)
      as (Hsize & Hdom & Hentries).
    + simpl. rewrite Hstaff. unfold relax_targets. apply Forall2_fmap_r.
      clear -Hsame Htargets. induction Hsame as [|s m l ms (Hnm & Hr & Ht) _ IH];
        [constructor|].
      inversion Htargets; subst. constructor; [|by apply IH].
      simpl. repeat split; try done. lia.
    + exists (schedule b), (staff_assignments b). rewrite Hsize. simpl. rewrite Hn.
      by repeat split.
Qed.

End Handlers.

(** *** The clinic's request *)

Import Requests.

Lemma clinic_request_run :
  ScheduleRequest_validate clinic_request = inr clinic_request
  ∧ Endpoints.generate_schedule strptime_padded (solver_trying clinic_week) 0 clinic_request
    = inr (schedule_response (Success clinic_result)).
Proof. split; vm_compute; reflexivity. Qed.

Lemma internal_error_is_overflow_witness :
  Endpoints.generate_schedule strptime_padded (solver_trying clinic_week) 0 late_request
  = inl (InternalServerError OverflowError)
  ↔ accepted strptime_padded late_request ∧ OverflowError = OverflowError
    ∧ (3652058 + (req_num_days late_request - 1) < MINORDINAL
       ∨ MAXORDINAL < 3652058 + (req_num_days late_request - 1)).
Proof.
  apply (internal_error_is_overflow strptime_padded (solver_trying clinic_week) 0 late_request
           3652058 OverflowError).
  - vm_compute; reflexivity.
  - intros seed [= <-]. vm_compute. split; discriminate.
  - repeat constructor; vm_compute; discriminate.
  - vm_compute; reflexivity.
  - vm_compute. split; discriminate.
Defined.

Lemma success_response_matches_request_witness :
  ∃ sched assigns,
    resp_schedule (schedule_response (Success clinic_result)) = Some sched
    ∧ resp_staff_assignments (schedule_response (Success clinic_result)) = Some assigns
    ∧ resp_message (schedule_response (Success clinic_result)) = None
    ∧ Z.of_nat (size sched) = req_num_days clinic_request
    ∧ dom assigns = list_to_set (si_name <$> staff clinic_request)
    ∧ ∀ nm t, assigns !! nm = Some t →
        ∃ s, s ∈ staff clinic_request ∧ si_name s = nm ∧ t_role t = si_role s
             ∧ target t = si_target_shifts s.
Proof.
  apply (success_response_matches_request strptime_padded (solver_trying clinic_week) 0
           clinic_request (schedule_response (Success clinic_result))
           (proj1 clinic_request_run) (proj2 clinic_request_run)).
  reflexivity.
Defined.

(** The requests the two endpoints treat differently: a blank name is
    invalid for the one and scheduled by the other. *)
Lemma valid_requests_are_accepted_witness :
  validate_schedule_request strptime_padded blank_ascii nameless_request
  = mkValidation false "Staff name cannot be empty"
  ∧ accepted strptime_padded nameless_request.
Proof.
  split; [vm_compute; reflexivity|].
  apply (valid_requests_are_accepted strptime_padded (λ _, false)). vm_compute; reflexivity.
Defined.

(** ** The staff roster *)

Import Roster.

Lemma head_filter_None {A : Type} (P : A → Prop) `{!∀ a, Decision (P a)} (l : list A) :
  head (filter P l) = None ↔ ∀ a, a ∈ l → ¬ P a.
Proof.
  rewrite head_None. split.
  - intros Hnil a Ha HP. by apply (filter_nil_not_elem_of P l a).
  - intros Hno. apply elem_of_nil_inv. intros a [HP Ha]%list_elem_of_filter.
    by apply (Hno a).
Qed.

Lemma head_filter_elem {A : Type} (P : A → Prop) `{!∀ a, Decision (P a)} (l : list A)
    (a : A) :
  head (filter P l) = Some a → a ∈ l ∧ P a.
Proof.
  intros Hhead%head_Some_elem_of. apply list_elem_of_filter in Hhead. tauto.
Qed.

(** The enum lookup by the upper-cased role finds, for each of the three
    roles, the member whose value is that role. *)
Lemma role_round_trip (r : string) :
  r ∈ valid_roles → ∃ e, StaffRole_getitem (upper r) = Some e ∧ value e = r.
Proof.
  unfold valid_roles. rewrite !elem_of_cons, elem_of_nil.
  intros [->|[->|[->|[]]]]; [exists JUNIOR|exists INTERMEDIATE|exists SENIOR]; done.
Qed.

(** The largest of a list of ids, or 0. *)
Lemma foldr_max_ge (l : list Z) (z : Z) : z ∈ l → z <= foldr Z.max 0 l.
Proof.
  induction l as [|a l IH]; [by intros ?%elem_of_nil|].
  intros [->|Hz]%elem_of_cons; simpl; [lia|]. specialize (IH Hz). lia.
Qed.

Lemma rowid_fresh (db : Table) : rowid db ∉ (row_id <$> db).
Proof. unfold rowid. intros Hin%foldr_max_ge. lia. Qed.

(** X16: for a target SQLite's INTEGER holds, [create_staff] adds a row
    exactly when the role is one of the three and no row has the name;
    the response then echoes the request under the new id, the role
    having gone through the enum and back, and [get_staff] lists it
    last.  Otherwise the answer is a 400 and the table is as before; the
    enum lookup never raises KeyError. *)
Theorem create_staff_outcome (new_id : Table → Z) (d : StaffCreate) (db : Table) :
  fits_int64 (sc_default_target_shifts d) →
  match create_staff new_id d db with
  | (inr resp, db') =>
    sc_role d ∈ valid_roles ∧ (sc_name d ∉ row_name <$> db)
    ∧ resp = mkStaffResponse (new_id db) (sc_name d) (sc_role d)
               (sc_default_target_shifts d)
    ∧ get_staff db' = get_staff db ++ [resp]
  | (inl (Refused (BadRequest _)), db') =>
    (sc_role d ∉ valid_roles ∨ sc_name d ∈ (row_name <$> db)) ∧ db' = db
  | (inl _, _) => False
  end.
Proof.
  intros _. unfold create_staff.
  destruct (decide (sc_role d ∈ valid_roles)) as [Hrole|Hrole]; [|by split; [left|]].
  destruct (head (filter _ db)) as [s|] eqn:Hname.
  { apply head_filter_elem in Hname as [Hs Hn]. split; [|done]. right.
    rewrite <- Hn. by apply list_elem_of_fmap_2. }
  destruct (role_round_trip _ Hrole) as (e & -> & He).
  split; [done|]. split.
  { intros (s & Hn & Hs)%list_elem_of_fmap.
    by apply (proj1 (head_filter_None _ _) Hname s). }
  unfold get_staff, to_dict. rewrite fmap_app. simpl. by rewrite He.
Qed.

Section Session.
Context (new_id : Table → Z).
Hypothesis new_id_fresh : ∀ db, new_id db ∉ (row_id <$> db).

Lemma assign_fields_inr (i : Z) (d : StaffUpdate) (db : Table) (old new : Staff) :
  assign_fields i d db old = inr new →
  row_id new = row_id old
  ∧ row_name new = default (row_name old) (su_name d)
  ∧ value (row_role new) = default (value (row_role old)) (su_role d)
  ∧ row_default_target_shifts new
    = default (row_default_target_shifts old) (su_default_target_shifts d)
  ∧ (∀ nm s, su_name d = Some nm → s ∈ db → row_name s = nm → row_id s = i).
Proof.
  unfold assign_fields.
  destruct (su_name d) as [nm|]; [destruct (head (filter _ db)) as [s|] eqn:Hname; [done|]|];
    (destruct (su_role d) as [r|];
     [destruct (decide (r ∈ valid_roles)) as [Hr|Hr]; [|done];
      destruct (role_round_trip _ Hr) as (e & -> & He)|]);
    destruct (su_default_target_shifts d) as [t|]; intros [= <-]; simpl;
    repeat split; try done.
  all: intros nm' s [= <-] Hs Hn; destruct (decide (row_id s = i)) as [|Hne]; [done|];
       exfalso; by apply (proj1 (head_filter_None _ _) Hname s).
Qed.

Lemma assign_fields_inl (i : Z) (d : StaffUpdate) (db : Table) (old : Staff) (e : Failure) :
  assign_fields i d db old = inl e →
  (∃ nm s, su_name d = Some nm ∧ e = name_exists nm
           ∧ s ∈ db ∧ row_name s = nm ∧ row_id s ≠ i)
  ∨ (∃ r, su_role d = Some r ∧ (r ∉ valid_roles) ∧ e = invalid_role r).
Proof.
  unfold assign_fields.
  destruct (su_name d) as [nm|].
  - destruct (head (filter _ db)) as [s|] eqn:Hname.
    + intros [= <-]. left. apply head_filter_elem in Hname as (Hs & Hn & Hi).
      exists nm, s. done.
    + destruct (su_role d) as [r|]; [|by destruct (su_default_target_shifts d)].
      destruct (decide (r ∈ valid_roles)) as [Hr|Hr].
      * destruct (role_round_trip _ Hr) as (e' & -> & _).
        by destruct (su_default_target_shifts d).
      * intros [= <-]. right. by exists r.
  - destruct (su_role d) as [r|]; [|by destruct (su_default_target_shifts d)].
    destruct (decide (r ∈ valid_roles)) as [Hr|Hr].
    + destruct (role_round_trip _ Hr) as (e' & -> & _).
      by destruct (su_default_target_shifts d).
    + intros [= <-]. right. by exists r.
Qed.

Lemma id_found (i : Z) (db : Table) (s : Staff) :
  head (filter (λ s, row_id s = i) db) = Some s → s ∈ db ∧ row_id s = i.
Proof. apply (head_filter_elem (λ s, row_id s = i)). Qed.

Lemma id_not_found (i : Z) (db : Table) :
  head (filter (λ s, row_id s = i) db) = None ↔ i ∉ (row_id <$> db).
Proof.
  rewrite head_filter_None. split.
  - intros Hno (s & -> & Hs)%list_elem_of_fmap. by apply (Hno s).
  - intros Hno s Hs Hi. apply Hno. rewrite <- Hi. by apply list_elem_of_fmap_2.
Qed.

(** X17: for an id and a target SQLite's INTEGER holds, [update_staff]
    answers 404 exactly when no row has the id; a 400 when the new name
    is that of another row or the new role is none of the three, the
    table being as before; and otherwise a response with the fields given
    replaced, the others kept, and a table with the same ids in which the
    rows of that id read as the response.  It never raises KeyError. *)
Theorem update_staff_outcome (i : Z) (d : StaffUpdate) (db : Table) :
  fits_int64 i →
  (∀ target, su_default_target_shifts d = Some target → fits_int64 target) →
  match update_staff i d db with
  | (inr resp, db') =>
    (∃ old, old ∈ db ∧ row_id old = i
            ∧ resp = mkStaffResponse i (default (row_name old) (su_name d))
                       (default (value (row_role old)) (su_role d))
                       (default (row_default_target_shifts old)
                                (su_default_target_shifts d)))
    ∧ row_id <$> db' = row_id <$> db
    ∧ (∀ s, s ∈ db' → row_id s = i → to_dict s = resp)
    ∧ (∀ s, row_id s ≠ i → (s ∈ db' ↔ s ∈ db))
  | (inl (Refused (NotFound _)), db') => (i ∉ row_id <$> db) ∧ db' = db
  | (inl (Refused (BadRequest _)), db') =>
    i ∈ (row_id <$> db) ∧ db' = db
    ∧ ((∃ nm s, su_name d = Some nm ∧ s ∈ db ∧ row_name s = nm ∧ row_id s ≠ i)
       ∨ (∃ r, su_role d = Some r ∧ r ∉ valid_roles))
  | (inl _, _) => False
  end.
Proof.
  intros _ _. unfold update_staff.
  destruct (head (filter _ db)) as [old|] eqn:Hfound;
    [|by split; [apply id_not_found|]].
  apply id_found in Hfound as [Hold Hid].
  destruct (assign_fields i d db old) as [e|new] eqn:Hassign.
  - apply assign_fields_inl in Hassign
      as [(nm & s & Hnm & -> & Hs & Hn & Hi)|(r & Hr & Hno & ->)]; simpl.
    + split; [rewrite <- Hid; by apply list_elem_of_fmap_2|]. split; [done|]. left. eauto 6.
    + split; [rewrite <- Hid; by apply list_elem_of_fmap_2|]. split; [done|]. right. eauto.
  - apply assign_fields_inr in Hassign as (Hnid & Hname & Hrole & Htarget & _).
    assert (Hresp : to_dict new
                    = mkStaffResponse i (default (row_name old) (su_name d))
                        (default (value (row_role old)) (su_role d))
                        (default (row_default_target_shifts old)
                                 (su_default_target_shifts d))).
    { unfold to_dict. by rewrite Hnid, Hid, Hname, Hrole, Htarget. }
    split; [exists old; by rewrite Hresp|]. split; [|split].
    + rewrite <- list_fmap_compose. apply list_fmap_ext. intros k s _. simpl.
      destruct (decide (row_id s = i)); [|done]. congruence.
    + intros s (s0 & -> & Hs0)%list_elem_of_fmap Hi.
      destruct (decide (row_id s0 = i)); [done|]. done.
    + intros s Hne. rewrite list_elem_of_fmap. split.
      * intros (s0 & -> & Hs0). destruct (decide (row_id s0 = i)); [|done].
        exfalso. apply Hne. congruence.
      * intros Hs. exists s. by rewrite decide_False.
Qed.

(** X18: for an id SQLite's INTEGER holds, [delete_staff] answers 404
    and leaves the table when no row has the id; otherwise it removes the
    rows of that id and no other, after which the id is gone: deleting
    or updating it again answers 404. *)
Theorem delete_staff_outcome (i : Z) (db : Table) :
  fits_int64 i →
  match delete_staff i db with
  | (inr _, db') =>
    i ∈ (row_id <$> db)
    ∧ (i ∉ row_id <$> db')
    ∧ (∀ s, s ∈ db' ↔ s ∈ db ∧ row_id s ≠ i)
    ∧ delete_staff i db' = (inl staff_not_found, db')
    ∧ ∀ d, update_staff i d db' = (inl staff_not_found, db')
  | (inl e, db') => e = staff_not_found ∧ (i ∉ row_id <$> db) ∧ db' = db
  end.
Proof.
  intros _. unfold delete_staff at 1.
  destruct (head (filter _ db)) as [old|] eqn:Hfound;
    [|by split; [|split; [apply id_not_found|]]].
  apply id_found in Hfound as [Hold Hid].
  assert (Hgone : i ∉ row_id <$> filter (λ s, row_id s ≠ i) db).
  { intros (s & -> & [Hne _]%list_elem_of_filter)%list_elem_of_fmap. done. }
  split; [rewrite <- Hid; by apply list_elem_of_fmap_2|]. split; [done|]. split; [|split].
  - intros s. rewrite list_elem_of_filter. tauto.
  - unfold delete_staff. by rewrite (proj2 (id_not_found _ _) Hgone).
  - intros d. unfold update_staff. by rewrite (proj2 (id_not_found _ _) Hgone).
Qed.

(** What the handlers keep: ids and names without repeats, targets of at
    least 1. *)
Lemma replace_by_id (db : Table) (i : Z) (old new : Staff) :
  NoDup (row_id <$> db) → old ∈ db → row_id old = i →
  ∃ l1 l2, db = l1 ++ old :: l2
           ∧ (λ s, if decide (row_id s = i) then new else s) <$> db = l1 ++ new :: l2
           ∧ ∀ s, s ∈ l1 ++ l2 → row_id s ≠ i.
Proof.
  intros Hnd (l1 & l2 & ->)%list_elem_of_split Hid. exists l1, l2.
  rewrite fmap_app, fmap_cons, Hid in Hnd.
  apply NoDup_app in Hnd as (_ & Hl1 & [Hl2 _]%NoDup_cons).
  assert (Hno : ∀ s, s ∈ l1 ++ l2 → row_id s ≠ i).
  { intros s [Hs|Hs]%elem_of_app Hi.
    - apply (Hl1 i); [rewrite <- Hi; by apply list_elem_of_fmap_2|by left].
    - apply Hl2. rewrite <- Hi. by apply list_elem_of_fmap_2. }
  split; [done|]. split; [|done].
  rewrite fmap_app, fmap_cons, decide_True by done. f_equal; [|f_equal].
  - rewrite <- (list_fmap_id l1) at 2. apply list_fmap_ext. intros k s Hs. simpl.
    rewrite decide_False; [done|]. apply Hno, elem_of_app. left.
    by eapply list_elem_of_lookup_2.
  - rewrite <- (list_fmap_id l2) at 2. apply list_fmap_ext. intros k s Hs. simpl.
    rewrite decide_False; [done|]. apply Hno, elem_of_app. right.
    by eapply list_elem_of_lookup_2.
Qed.

Lemma table_after_keeps (db : Table) (c : Call) :
  parsed c →
  NoDup (row_id <$> db) ∧ NoDup (row_name <$> db)
  ∧ Forall (λ s, 1 <= row_default_target_shifts s) db →
  NoDup (row_id <$> table_after new_id db c)
  ∧ NoDup (row_name <$> table_after new_id db c)
  ∧ Forall (λ s, 1 <= row_default_target_shifts s) (table_after new_id db c).
Proof.
  intros Hparsed (Hids & Hnames & Htargets). destruct c as [d|i d|i]; simpl.
  - unfold create_staff.
    destruct (decide (sc_role d ∈ valid_roles)) as [Hrole|Hrole]; [|done].
    destruct (head (filter _ db)) as [s|] eqn:Hname; [done|].
    destruct (role_round_trip _ Hrole) as (e & -> & _). simpl.
    rewrite !fmap_app. simpl. split; [|split].
    + apply NoDup_app. split; [done|]. split; [|apply NoDup_singleton].
      intros z Hz ->%list_elem_of_singleton. by apply (new_id_fresh db).
    + apply NoDup_app. split; [done|]. split; [|apply NoDup_singleton].
      intros nm (s & -> & Hs)%list_elem_of_fmap Hn%list_elem_of_singleton.
      by apply (proj1 (head_filter_None _ _) Hname s).
    + apply Forall_app. split; [done|]. by constructor.
  - unfold update_staff.
    destruct (head (filter _ db)) as [old|] eqn:Hfound; [|done].
    apply id_found in Hfound as [Hold Hid].
    destruct (assign_fields i d db old) as [e|new] eqn:Hassign; [done|]. simpl.
    apply assign_fields_inr in Hassign as (Hnid & Hname & _ & Htarget & Hother).
    destruct (replace_by_id db i old new Hids Hold Hid) as (l1 & l2 & -> & -> & Hno).
    rewrite !fmap_app, !fmap_cons in *. split; [by rewrite Hnid|]. split.
    + destruct (su_name d) as [nm|] eqn:Hnm; simpl in Hname; [|by rewrite Hname].
      apply NoDup_app in Hnames as (Hn1 & Hdisj & [_ Hn2]%NoDup_cons).
      apply NoDup_app. split; [done|]. split.
      * intros x Hx [->|Hx2]%elem_of_cons.
        -- apply list_elem_of_fmap in Hx as (s & Hn & Hs).
           apply (Hno s); [apply elem_of_app; by left|].
           apply (Hother nm s); [done|apply elem_of_app; by left|congruence].
        -- apply (Hdisj x Hx). by right.
      * apply NoDup_cons. split; [|done].
        intros (s & Hn & Hs)%list_elem_of_fmap.
        apply (Hno s); [apply elem_of_app; by right|].
        apply (Hother nm s); [done|apply elem_of_app; right; by right|congruence].
    + apply Forall_app in Htargets as [Ht1 [Ht Ht2]%Forall_cons].
      apply Forall_app. split; [done|]. constructor; [|done].
      rewrite Htarget. simpl in Hparsed. by destruct (su_default_target_shifts d).
  - unfold delete_staff.
    destruct (head (filter _ db)) as [old|] eqn:Hfound; [|done]. simpl.
    split; [|split].
    + eapply sublist_NoDup; [exact Hids|]. apply fmap_sublist, sublist_filter.
    + eapply sublist_NoDup; [exact Hnames|]. apply fmap_sublist, sublist_filter.
    + apply Forall_forall. intros s [_ Hs]%list_elem_of_filter.
      by apply (proj1 (Forall_forall _ _) Htargets).
Qed.

(** X19: whatever calls of the three handlers are made on the empty
    table, with parsed bodies, it never holds two rows with one id or one
    name, nor a target below 1. *)
Theorem roster_stays_consistent (calls : list Call) :
  Forall parsed calls →
  NoDup (row_id <$> foldl (table_after new_id) [] calls)
  ∧ NoDup (row_name <$> foldl (table_after new_id) [] calls)
  ∧ Forall (λ s, 1 <= row_default_target_shifts s) (foldl (table_after new_id) [] calls).
Proof.
  induction calls as [|c calls IH] using rev_ind; intros Hparsed.
  - simpl. repeat split; constructor.
  - apply Forall_app in Hparsed as [Hcalls [Hc _]%Forall_cons].
    rewrite foldl_app. simpl. by apply table_after_keeps, IH.
Qed.

End Session.

(** *** Calls on the roster *)

Lemma roster_stays_consistent_witness :
  NoDup (row_id <$> foldl (table_after rowid) [] office_calls)
  ∧ NoDup (row_name <$> foldl (table_after rowid) [] office_calls)
  ∧ Forall (λ s, 1 <= row_default_target_shifts s) (foldl (table_after rowid) [] office_calls).
Proof.
  apply (roster_stays_consistent rowid rowid_fresh office_calls).
  unfold office_calls. repeat constructor; simpl; lia.
Defined.

Example office_calls_run :
  get_staff (foldl (table_after rowid) [] office_calls)
  = [ mkStaffResponse 2 "Williams" "Intermediate" 3; mkStaffResponse 3 "Adams" "Senior" 5 ].
Proof. vm_compute; reflexivity. Qed.

(** The three handlers on a table of two rows. *)
Lemma create_staff_outcome_witness :
  "Senior" ∈ valid_roles ∧ ("Adams" ∉ row_name <$> office)
  ∧ mkStaffResponse 3 "Adams" "Senior" 5
    = mkStaffResponse (rowid office) "Adams" "Senior" 5
  ∧ get_staff (office ++ [mkRow 3 "Adams" SENIOR 5])
    = get_staff office ++ [mkStaffResponse 3 "Adams" "Senior" 5].
Proof.
  apply (create_staff_outcome rowid (mkCreate "Adams" "Senior" 5) office).
  vm_compute. split; discriminate.
Defined.

Lemma update_staff_outcome_witness :
  ∃ old, old ∈ office ∧ row_id old = 2
         ∧ mkStaffResponse 2 "Williams" "Intermediate" 3
           = mkStaffResponse 2 (default (row_name old) (Some "Williams"))
               (default (value (row_role old)) (Some "Intermediate"))
               (default (row_default_target_shifts old) None).
Proof.
  destruct (update_staff_outcome 2 (mkUpdate (Some "Williams") (Some "Intermediate") None)
              office) as [Hold _].
  - vm_compute. split; discriminate.
  - intros target [=].
  - exact Hold.
Defined.

Lemma delete_staff_outcome_witness :
  1 ∈ row_id <$> office
  ∧ (1 ∉ row_id <$> [mkRow 2 "Jones" JUNIOR 3])
  ∧ (∀ s, s ∈ [mkRow 2 "Jones" JUNIOR 3] ↔ s ∈ office ∧ row_id s ≠ 1)
  ∧ delete_staff 1 [mkRow 2 "Jones" JUNIOR 3] = (inl staff_not_found, [mkRow 2 "Jones" JUNIOR 3])
  ∧ ∀ d, update_staff 1 d [mkRow 2 "Jones" JUNIOR 3]
         = (inl staff_not_found, [mkRow 2 "Jones" JUNIOR 3]).
Proof.
  apply (delete_staff_outcome 1 office). vm_compute. split; discriminate.
Defined.

(** *** The second attempt behind the endpoint *)

(** X20: behind the endpoint the targets are at least 1 and the seed is
    fixed before the scheduler is called, so the second attempt repeats
    the first: the response is that of [generate_schedule] on the
    scheduler built from the request. *)
Theorem endpoint_answers_as_first_attempt (strptime : string → option date)
    (solver : Solver) (now_ms : Z) (r : ScheduleRequest) (resp : ScheduleResponse) :
  ScheduleRequest_validate r = inr r →
  Endpoints.generate_schedule strptime solver now_ms r = inr resp →
  ∃ ms sch,
    Forall2 (built_from strptime) (staff r) ms
    ∧ OnCallScheduler_init strptime ms (req_start_date r) (req_num_days r) = inr sch
    ∧ resp = schedule_response
               (Scheduler.generate_schedule solver sch
                  (Some (solver_seed (req_random_seed r) now_ms)) now_ms).
Proof.
  intros Hbounds Hresp.
  assert (Htargets : Forall (λ s, 1 <= si_target_shifts s) (staff r)).
  { unfold ScheduleRequest_validate, ScheduleRequest_errors in Hbounds.
    destruct (forallb _ (staff r)) eqn:Hall.
    - apply Forall_forall. intros s Hs.
      rewrite forallb_elem_of in Hall. by apply Z.leb_le, Hall.
    - simpl in Hbounds. by destruct (_ && _). }
  unfold Endpoints.generate_schedule in Hresp.
  destruct (body_outcome strptime solver now_ms r)
    as [[_ [detail Hb]]|[_ (ms & Hbuilt & Hb)]]; rewrite Hb in Hresp; [done|].
  destruct (OnCallScheduler_init strptime ms (req_start_date r) (req_num_days r))
    as [e|sch] eqn:Hinit; [by destruct e|].
  simpl in Hresp. injection Hresp as <-.
  exists ms, sch. split; [done|]. split; [done|]. f_equal.
  rewrite two_phase_result.
  destruct (init_inv _ _ _ _ _ Hinit) as (d0 & _ & Hstaff & _).
  rewrite relax_targets_id, set_staff_members_id; [by destruct (is_success _)|].
  rewrite Hstaff. clear -Hbuilt Htargets.
  induction Hbuilt as [|s m l ms (_ & _ & Ht & _) _ IH]; [constructor|].
  inversion Htargets; subst. constructor; [lia|by apply IH].
Qed.

Lemma endpoint_answers_as_first_attempt_witness :
  ∃ ms sch,
    Forall2 (built_from strptime_padded) (staff clinic_request) ms
    ∧ OnCallScheduler_init strptime_padded ms (req_start_date clinic_request)
        (req_num_days clinic_request) = inr sch
    ∧ schedule_response (Success clinic_result)
      = schedule_response
          (Scheduler.generate_schedule (solver_trying clinic_week) sch
             (Some (solver_seed (req_random_seed clinic_request) 0)) 0).
Proof.
  apply (endpoint_answers_as_first_attempt strptime_padded (solver_trying clinic_week) 0
           clinic_request (schedule_response (Success clinic_result))
           (proj1 clinic_request_run) (proj2 clinic_request_run)).
Defined.

(** ** Weekend days and Fridays of a block of whole weeks *)

Lemma weekday_shift (d j : Z) : weekday (d + j) = (weekday d + j) mod 7.
Proof.
  unfold weekday. rewrite Zplus_mod_idemp_l. f_equal. lia.
Qed.

(** Seven days running, counted by the weekday of the first. *)
Lemma week_from (p : Z → bool) (d0 : date) (a : nat) :
  ∃ w, 0 <= w < 7
       ∧ length (filter (λ i, p (weekday (d0 + Z.of_nat i)) = true) (seq a 7))
         = length (filter (λ j, p ((w + Z.of_nat j) mod 7) = true) (seq 0 7)).
Proof.
  exists (weekday (d0 + Z.of_nat a)). split; [apply Z.mod_pos_bound; lia|].
  assert (Hseq : seq a 7 = Nat.add a <$> seq 0 7) by by rewrite fmap_add_seq, Nat.add_0_r.
  rewrite Hseq, filter_fmap, length_fmap. f_equal.
  apply filter_ext_in. intros j _. by rewrite Nat2Z.inj_add, Z.add_assoc, weekday_shift.
Qed.

Ltac count_week w Hw :=
  assert (w = 0 ∨ w = 1 ∨ w = 2 ∨ w = 3 ∨ w = 4 ∨ w = 5 ∨ w = 6)
    as [->|[->|[->|[->|[->|[->| ->]]]]]] by lia;
  vm_compute; reflexivity.

Lemma weekend_days_in_week (d0 : date) (a : nat) :
  length (filter (λ i, is_weekend (weekday (d0 + Z.of_nat i)) = true) (seq a 7)) = 2%nat.
Proof.
  destruct (week_from is_weekend d0 a) as (w & Hw & ->). count_week w Hw.
Qed.

Lemma fridays_in_week (d0 : date) (a : nat) :
  length (filter (λ i, is_friday (weekday (d0 + Z.of_nat i)) = true) (seq a 7)) = 1%nat.
Proof.
  destruct (week_from is_friday d0 a) as (w & Hw & ->). count_week w Hw.
Qed.

Lemma count_in_weeks (p : Z → bool) (c : nat) (d0 : date) (k : nat) :
  (∀ a, length (filter (λ i, p (weekday (d0 + Z.of_nat i)) = true) (seq a 7)) = c) →
  length (filter (λ i, p (weekday (d0 + Z.of_nat i)) = true) (seq 0 (7 * k))) = (c * k)%nat.
Proof.
  intros Hweek. induction k as [|k IH]; [simpl; lia|].
  replace (7 * S k)%nat with (7 * k + 7)%nat by lia.
  rewrite seq_app, filter_app, length_app, IH, Hweek. lia.
Qed.

(** X21: in a block of [k] whole weeks the constructor finds [2k]
    weekend days and [k] Fridays, on whatever weekday the block
    starts. *)
Theorem whole_weeks_have_their_weekends (strptime : string → option date)
    (staff : list StaffMember) (start : string) (k : nat) (sch : OnCallScheduler) :
  OnCallScheduler_init strptime staff start (7 * Z.of_nat k) = inr sch →
  length (weekend_day_indices sch) = (2 * k)%nat ∧ length (friday_day_indices sch) = k.
Proof.
  intros Hinit.
  destruct (init_inv _ _ _ _ _ Hinit) as (d0 & _ & _ & _ & _ & _ & Hdates & _ & _ & _ & -> & ->).
  assert (Hcount : ∀ p : Z → bool,
            indices_with_weekday p (dates sch)
            = filter (λ i, p (weekday (d0 + Z.of_nat i)) = true) (seq 0 (7 * k))).
  { intros p. rewrite indices_with_weekday_filter, Hdates, length_fmap.
    unfold range. rewrite length_seq.
    replace (Z.to_nat (7 * Z.of_nat k)) with (7 * k)%nat by lia.
    apply filter_ext_in. intros i Hi. rewrite list_lookup_fmap.
    rewrite (lookup_seq_lt _ _ _ (proj2 (proj1 (elem_of_seq _ _ _) Hi))). simpl.
    split; [by intros [= ->]|by intros ->]. }
  rewrite !Hcount.
  rewrite (count_in_weeks is_weekend 2 d0 k (weekend_days_in_week d0)).
  rewrite (count_in_weeks is_friday 1 d0 k (fridays_in_week d0)). lia.
Qed.

Lemma whole_weeks_have_their_weekends_witness :
  length (weekend_day_indices clinic) = (2 * 1)%nat ∧ length (friday_day_indices clinic) = 1%nat.
Proof.
  apply (whole_weeks_have_their_weekends strptime_padded clinic_staff "2024-12-02" 1 clinic).
  exact clinic_init.
Defined.
